(** * gosp: a JSP-like template server — directive expansion engine

    Shallow embedding of [main.go]: the three directive passes of
    [TemplateProcessor] (includes, code blocks, output expressions), the
    request handlers around them, and the embedded-mode program that
    [compiledMainTemplate] generates.

    Go strings are byte sequences and are modelled as [list ascii].  The
    three patterns only name ASCII characters and negated classes, so the
    rune-oriented matching of package [regexp] coincides with matching byte
    by byte. *)

From Stdlib Require Import ZArith Ascii String DecimalString List Lia Relations.
From stdpp Require Import gmap strings list.

Abbreviation gostring := (list ascii).

(** A literal: [str] of a Rocq string is the Go string of its bytes. *)
Definition str (s : string) : gostring := list_ascii_of_string s.

(** The double quote character. *)
Definition dquote : ascii := "034"%char.

(** ** Package [strings] *)

Module Strings.

Fixpoint HasPrefix (s prefix : gostring) {struct prefix} : bool :=
  match prefix, s with
  | [], _ => true
  | p :: prefix', c :: s' => Ascii.eqb c p && HasPrefix s' prefix'
  | _ :: _, [] => false
  end.

Definition HasSuffix (s suffix : gostring) : bool :=
  HasPrefix (rev s) (rev suffix).

Fixpoint Contains (s substr : gostring) : bool :=
  HasPrefix s substr ||
  match s with
  | [] => false
  | _ :: s' => Contains s' substr
  end.

Definition TrimPrefix (s prefix : gostring) : gostring :=
  if HasPrefix s prefix then drop (length prefix) s else s.

(** [strings.Split(s, sep)] for a separator of one byte, which is the
    only way the program calls it. *)
Fixpoint Split (s : gostring) (sep : ascii) : list gostring :=
  match s with
  | [] => [[]]
  | c :: s' =>
      if Ascii.eqb c sep then [] :: Split s' sep
      else match Split s' sep with
           | h :: t => (c :: h) :: t
           | [] => [[c]]
           end
  end.

(** [strings.SplitN(s, sep, n)] for a separator of one byte and [n >= 0]:
    at most [n] pieces, the last one being the unsplit remainder. *)
Fixpoint SplitN (s : gostring) (sep : ascii) (n : nat) {struct s}
  : list gostring :=
  match n with
  | 0 => []
  | 1 => [s]
  | S (S _ as n') =>
      match s with
      | [] => [[]]
      | c :: s' =>
          if Ascii.eqb c sep then [] :: SplitN s' sep n'
          else match SplitN s' sep n with
               | h :: t => (c :: h) :: t
               | [] => [[c]]
               end
      end
  end.

(** The ASCII white space of [strings.TrimSpace]:
    tab, newline, vertical tab, form feed, carriage return, space. *)
Definition asciiSpace (c : ascii) : bool :=
  Ascii.eqb c "009" || Ascii.eqb c "010" || Ascii.eqb c "011" ||
  Ascii.eqb c "012" || Ascii.eqb c "013" || Ascii.eqb c " ".

(** UTF-8 encodings of the white-space runes above U+007F
    ([unicode.IsSpace]): U+0085 and U+00A0 on two bytes; U+1680,
    U+2000..U+200A, U+2028, U+2029, U+202F, U+205F and U+3000 on three. *)
Definition space2 (b1 b2 : ascii) : bool :=
  Ascii.eqb b1 "194" && (Ascii.eqb b2 "133" || Ascii.eqb b2 "160").

Definition space3 (b1 b2 b3 : ascii) : bool :=
  (Ascii.eqb b1 "225" && Ascii.eqb b2 "154" && Ascii.eqb b3 "128") ||
  (Ascii.eqb b1 "226" && Ascii.eqb b2 "128" &&
     ((128 <=? nat_of_ascii b3) && (nat_of_ascii b3 <=? 138) ||
      Ascii.eqb b3 "168" || Ascii.eqb b3 "169" || Ascii.eqb b3 "175")) ||
  (Ascii.eqb b1 "226" && Ascii.eqb b2 "129" && Ascii.eqb b3 "159") ||
  (Ascii.eqb b1 "227" && Ascii.eqb b2 "128" && Ascii.eqb b3 "128").

(** Leading white-space runes removed. *)
Fixpoint TrimLeft (s : gostring) : gostring :=
  match s with
  | [] => []
  | b1 :: r1 =>
      if asciiSpace b1 then TrimLeft r1
      else match r1 with
           | [] => s
           | b2 :: r2 =>
               if space2 b1 b2 then TrimLeft r2
               else match r2 with
                    | [] => s
                    | b3 :: r3 => if space3 b1 b2 b3 then TrimLeft r3 else s
                    end
           end
  end.

(** The same scan over the reversed string: the last rune is decoded
    backwards, so its bytes appear in reverse order. *)
Fixpoint trimRev (s : gostring) : gostring :=
  match s with
  | [] => []
  | b1 :: r1 =>
      if asciiSpace b1 then trimRev r1
      else match r1 with
           | [] => s
           | b2 :: r2 =>
               if space2 b2 b1 then trimRev r2
               else match r2 with
                    | [] => s
                    | b3 :: r3 => if space3 b3 b2 b1 then trimRev r3 else s
                    end
           end
  end.

Definition TrimRight (s : gostring) : gostring := rev (trimRev (rev s)).

Definition TrimSpace (s : gostring) : gostring := TrimRight (TrimLeft s).

End Strings.

(** ** Package [strconv] *)

Module Strconv.

(** [int] is 64 bits wide. *)
Definition intSize : Z := 64.
Definition minInt : Z := - 2 ^ (intSize - 1).
Definition maxInt : Z := 2 ^ (intSize - 1) - 1.

(** Addition on [int] wraps around in two's complement. *)
Definition wrap (z : Z) : Z :=
  (z + 2 ^ (intSize - 1)) mod 2 ^ intSize - 2 ^ (intSize - 1).

Definition addInt (a b : Z) : Z := wrap (a + b).

Definition isDigit (c : ascii) : bool :=
  (48 <=? nat_of_ascii c) && (nat_of_ascii c <=? 57).

Fixpoint digits (s : gostring) (acc : Z) : option Z :=
  match s with
  | [] => Some acc
  | c :: s' =>
      if isDigit c
      then digits s' (acc * 10 + (Z.of_nat (nat_of_ascii c) - 48))%Z
      else None
  end.

(** [strconv.Atoi]: an optional sign, then one or more decimal digits;
    [None] is a syntax or range error. *)
Definition Atoi (s : gostring) : option Z :=
  match s with
  | [] => None
  | c :: r =>
      let neg := Ascii.eqb c "-" in
      let body := if neg || Ascii.eqb c "+" then r else s in
      match body with
      | [] => None
      | _ :: _ =>
          match digits body 0 with
          | Some n =>
              let v := if neg then (- n)%Z else n in
              if (minInt <=? v)%Z && (v <=? maxInt)%Z then Some v else None
          | None => None
          end
      end
  end.

(** [strconv.Itoa]: decimal digits, with a minus sign when negative. *)
Definition Itoa (z : Z) : gostring :=
  str (NilZero.string_of_int (Z.to_int z)).

End Strconv.

(** ** Package [regexp], for the patterns of this program

    A pattern is a sequence of atoms: literal bytes, character classes,
    greedy repetitions of a class, and the parentheses of the one capture
    group.  Matching is leftmost-first: the match a backtracking search
    finds first, greedy repetitions trying the longest run before shorter
    ones. *)

Module Regexp.

Inductive cclass :=
| CSpace                 (* \s : [\t\n\f\r ] *)
| CNot (c : ascii).      (* [^c] *)

Definition cmatch (k : cclass) (x : ascii) : bool :=
  match k with
  | CSpace =>
      Ascii.eqb x "009" || Ascii.eqb x "010" || Ascii.eqb x "012" ||
      Ascii.eqb x "013" || Ascii.eqb x " "
  | CNot c => negb (Ascii.eqb x c)
  end.

Inductive atom :=
| Lit (c : ascii)
| Cls (k : cclass)
| Star (k : cclass)
| Plus (k : cclass)
| Open
| Close.

Definition regex := list atom.

Definition lits (s : string) : regex := map Lit (str s).

(** Result of an anchored match: the end offset and the bounds of the
    capture group. *)
Definition mresult : Type := nat * (nat * nat).

(** Greedy repetition followed by the continuation [k]. *)
Fixpoint star_then (p : ascii -> bool)
    (k : gostring -> nat -> option mresult)
    (s : gostring) (pos : nat) : option mresult :=
  match s with
  | x :: s' =>
      if p x
      then match star_then p k s' (S pos) with
           | Some r => Some r
           | None => k s pos
           end
      else k s pos
  | [] => k s pos
  end.

(** Match [re] at the head of [s]; [pos] counts the bytes consumed so
    far and [g] holds the capture bounds. *)
Fixpoint exec (re : regex) (s : gostring) (pos : nat) (g : nat * nat)
  : option mresult :=
  match re with
  | [] => Some (pos, g)
  | Lit c :: re' =>
      match s with
      | x :: s' => if Ascii.eqb x c then exec re' s' (S pos) g else None
      | [] => None
      end
  | Cls k :: re' =>
      match s with
      | x :: s' => if cmatch k x then exec re' s' (S pos) g else None
      | [] => None
      end
  | Star k :: re' =>
      star_then (cmatch k) (fun s' pos' => exec re' s' pos' g) s pos
  | Plus k :: re' =>
      match s with
      | x :: s' =>
          if cmatch k x
          then star_then (cmatch k) (fun s' pos' => exec re' s' pos' g)
                 s' (S pos)
          else None
      | [] => None
      end
  | Open :: re' => exec re' s pos (pos, snd g)
  | Close :: re' => exec re' s pos (fst g, pos)
  end.

Definition matchHere (re : regex) (s : gostring) : option mresult :=
  exec re s 0 (0, 0).

(** [s[lo:hi]] for in-range bounds. *)
Definition slice (s : gostring) (lo hi : nat) : gostring :=
  take (hi - lo) (drop lo s).

(** Leftmost match: start offset, then the anchored result shifted to
    absolute offsets. *)
Fixpoint find (re : regex) (s : gostring) (off : nat)
  : option (nat * mresult) :=
  match matchHere re s with
  | Some (e, (gs, ge)) => Some (off, (off + e, (off + gs, off + ge)))
  | None =>
      match s with
      | [] => None
      | _ :: s' => find re s' (S off)
      end
  end.

Definition MatchString (re : regex) (s : gostring) : bool :=
  match find re s 0 with Some _ => true | None => false end.

(** [FindStringSubmatch]: the whole match and the capture group, or
    [nil] (here [[]]) when nothing matches. *)
Definition FindStringSubmatch (re : regex) (s : gostring) : list gostring :=
  match find re s 0 with
  | Some (b, (e, (gs, ge))) => [slice s b e; slice s gs ge]
  | None => []
  end.

(** The source seen by [ReplaceAll*]: successive non-overlapping leftmost
    matches and the bytes between them.  None of the program's patterns
    matches the empty string, so the search resumes at the end of each
    match. *)
Inductive segment :=
| Text (c : ascii)
| Hit (m : gostring).

Fixpoint scan (re : regex) (fuel : nat) (s : gostring) : list segment :=
  match fuel with
  | 0 => []
  | S fuel' =>
      match s with
      | [] => []
      | c :: s' =>
          match matchHere re s with
          | Some (e, _) => Hit (take e s) :: scan re fuel' (drop e s)
          | None => Text c :: scan re fuel' s'
          end
      end
  end.

Definition segments (re : regex) (s : gostring) : list segment :=
  scan re (length s) s.

End Regexp.

(** ** Values, request context, outcomes *)

(** What [tp.data : map[string]interface{}] holds: the strings assigned by
    code blocks, and the four request objects the handler stores under
    ["request"], ["params"], ["query"] and ["form"]. *)
Inductive value :=
| VString (s : gostring)
| VRequest
| VParams
| VQuery
| VForm.

(** The part of [echo.Context] the program reads.  The [show*] fields are
    the [%v] renderings of the four request objects. *)
Record Context := {
  Method : gostring;
  URLString : gostring;
  URLPath : gostring;
  Host : gostring;
  RemoteAddr : gostring;
  QueryParam : gostring -> gostring;
  FormValue : gostring -> gostring;
  showRequest : gostring;
  showParams : gostring;
  showQuery : gostring;
  showForm : gostring
}.

(** [fmt.Sprintf("%v", value)]. *)
Definition formatValue (c : Context) (v : value) : gostring :=
  match v with
  | VString s => s
  | VRequest => showRequest c
  | VParams => showParams c
  | VQuery => showQuery c
  | VForm => showForm c
  end.

(** The file system under the server: [filepath.Join], [ioutil.ReadFile]
    (content, or the text of the error) and whether [os.Stat] reports that
    the path does not exist. *)
Record FileSystem := {
  Join : gostring -> gostring -> gostring;
  ReadFile : gostring -> gostring + gostring;
  NotExist : gostring -> bool
}.

(** A call returns, panics, or exceeds the recursion depth it was given. *)
Inductive outcome (A : Type) : Type :=
| Done (a : A)
| Panic (msg : gostring)
| OutOfFuel.
Arguments Done {A} a.
Arguments Panic {A} msg.
Arguments OutOfFuel {A}.

(** Computations of a [TemplateProcessor] method: they read and write
    [tp.data]. *)
Definition M (A : Type) : Type :=
  gmap gostring value -> outcome (A * gmap gostring value).

Definition ret {A} (a : A) : M A := fun d => Done (a, d).

Definition bind {A B} (m : M A) (k : A -> M B) : M B :=
  fun d =>
    match m d with
    | Done (a, d') => k a d'
    | Panic msg => Panic msg
    | OutOfFuel => OutOfFuel
    end.

Notation "'let*' x ':=' m 'in' k" := (bind m (fun x => k))
  (at level 10, x name, m at level 100, k at level 200).

Definition panic {A} (msg : gostring) : M A := fun _ => Panic msg.
Definition tooDeep {A} : M A := fun _ => OutOfFuel.
Definition setData (k : gostring) (v : value) : M unit :=
  fun d => Done (tt, <[k := v]> d).

(** [s[lo:hi]]: a run-time panic unless [lo <= hi <= len(s)]. *)
Definition sliceOrPanic (s : gostring) (lo hi : nat) : M gostring :=
  if (lo <=? hi) && (hi <=? length s)
  then ret (Regexp.slice s lo hi)
  else panic (str "runtime error: slice bounds out of range").

(** [re.ReplaceAllStringFunc(src, repl)]: the matches are replaced from
    left to right, everything else is copied. *)
Fixpoint replaceSegments (repl : gostring -> M gostring)
    (segs : list Regexp.segment) : M gostring :=
  match segs with
  | [] => ret []
  | Regexp.Text c :: rest =>
      let* out := replaceSegments repl rest in ret (c :: out)
  | Regexp.Hit m :: rest =>
      let* r := repl m in
      let* out := replaceSegments repl rest in
      ret (r ++ out)
  end.

Definition ReplaceAllStringFunc (re : Regexp.regex) (src : gostring)
    (repl : gostring -> M gostring) : M gostring :=
  replaceSegments repl (Regexp.segments re src).

(** ** The three patterns *)

(** The include pattern: [<%@include], white space, [file=], a double
    quote, the captured run of bytes other than a double quote, a double
    quote, optional white space, [%>]. *)
Definition includeRegex : Regexp.regex :=
  Regexp.lits "<%@include" ++ [Regexp.Plus Regexp.CSpace] ++
  Regexp.lits "file=" ++
  [Regexp.Lit dquote; Regexp.Open; Regexp.Plus (Regexp.CNot dquote);
   Regexp.Close; Regexp.Lit dquote; Regexp.Star Regexp.CSpace] ++
  Regexp.lits "%>".

(** The code-block pattern: [<%], optional white space, the captured
    group (one byte other than [=], then any run of bytes other than [%]),
    optional white space, [%>]. *)
Definition codeRegex : Regexp.regex :=
  Regexp.lits "<%" ++
  [Regexp.Star Regexp.CSpace; Regexp.Open; Regexp.Cls (Regexp.CNot "=");
   Regexp.Star (Regexp.CNot "%"); Regexp.Close; Regexp.Star Regexp.CSpace] ++
  Regexp.lits "%>".

(** The output pattern: [<%=], optional white space, the captured
    non-empty run of bytes other than [%], optional white space, [%>]. *)
Definition outputRegex : Regexp.regex :=
  Regexp.lits "<%=" ++
  [Regexp.Star Regexp.CSpace; Regexp.Open; Regexp.Plus (Regexp.CNot "%");
   Regexp.Close; Regexp.Star Regexp.CSpace] ++
  Regexp.lits "%>".

(** ** [TemplateProcessor] of the filesystem-backed server *)

Module TemplateProcessor.
Section Methods.
Context (fs : FileSystem) (rootPath : gostring) (c : Context).

(** The replacement function of [processIncludes]; [self] is the
    recursive call. *)
Definition includeRepl (self : gostring -> M gostring) (m : gostring)
  : M gostring :=
  match Regexp.FindStringSubmatch includeRegex m with
  | _ :: includeFile :: _ =>
      let includePath := Join fs rootPath includeFile in
      match ReadFile fs includePath with
      | inr err => ret (str "<!-- Include error: " ++ err ++ str " -->")
      | inl includeContent => self includeContent
      end
  | _ => ret m
  end.

(** [depth] bounds the nesting of includes; the Go code has no bound. *)
Fixpoint processIncludes (depth : nat) (content : gostring) : M gostring :=
  match depth with
  | 0 => tooDeep
  | S depth' =>
      ReplaceAllStringFunc includeRegex content
        (includeRepl (processIncludes depth'))
  end.

Definition codeRepl (m : gostring) : M gostring :=
  match Regexp.FindStringSubmatch codeRegex m with
  | _ :: body :: _ =>
      let code := Strings.TrimSpace body in
      if Strings.Contains code (str "=") then
        match Strings.SplitN code "=" 2 with
        | [part0; part1] =>
            let varName := Strings.TrimSpace part0 in
            let varValue := Strings.TrimSpace part1 in
            let* varValue :=
              (if Strings.HasPrefix varValue [dquote] &&
                  Strings.HasSuffix varValue [dquote]
               then sliceOrPanic varValue 1 (length varValue - 1)
               else ret varValue) in
            let* _ := setData varName (VString varValue) in
            ret []
        | _ => ret []
        end
      else ret []
  | _ => ret m
  end.

Definition processCodeExpressions (content : gostring) : M gostring :=
  ReplaceAllStringFunc codeRegex content codeRepl.

Definition handleRequestExpression (expression : gostring) : gostring :=
  if decide (expression = str "request.method") then Method c
  else if decide (expression = str "request.url") then URLString c
  else if decide (expression = str "request.host") then Host c
  else if decide (expression = str "request.remoteaddr") then RemoteAddr c
  else expression.

Definition evaluateSimpleExpression (expression : gostring) : gostring :=
  match Strings.Split expression "+" with
  | [part0; part1] =>
      let lhs := Strings.TrimSpace part0 in
      let rhs := Strings.TrimSpace part1 in
      match Strconv.Atoi lhs, Strconv.Atoi rhs with
      | Some leftVal, Some rightVal =>
          Strconv.Itoa (Strconv.addInt leftVal rightVal)
      | _, _ => lhs ++ rhs
      end
  | _ =>
      match Strconv.Atoi (Strings.TrimSpace expression) with
      | Some val => Strconv.Itoa val
      | None => expression
      end
  end.

(** What an output tag whose trimmed body is [expression] renders to,
    under the scope [data]. *)
Definition evaluate (data : gmap gostring value) (expression : gostring)
  : gostring :=
  match data !! expression with
  | Some value => formatValue c value
  | None =>
      if Strings.HasPrefix expression (str "request.")
      then handleRequestExpression expression
      else if Strings.HasPrefix expression (str "query.")
      then QueryParam c (Strings.TrimPrefix expression (str "query."))
      else if Strings.HasPrefix expression (str "form.")
      then FormValue c (Strings.TrimPrefix expression (str "form."))
      else if Strings.Contains expression (str "+")
      then evaluateSimpleExpression expression
      else expression
  end.

Definition outputRepl (m : gostring) : M gostring :=
  match Regexp.FindStringSubmatch outputRegex m with
  | _ :: body :: _ =>
      let expression := Strings.TrimSpace body in
      fun data => Done (evaluate data expression, data)
  | _ => ret m
  end.

Definition processOutputTags (content : gostring) : M gostring :=
  ReplaceAllStringFunc outputRegex content outputRepl.

(** Returns the content and the error, which is always [nil]. *)
Definition processTemplate (depth : nat) (content : gostring)
  : M (gostring * option gostring) :=
  let* content := processIncludes depth content in
  let* content := processCodeExpressions content in
  let* content := processOutputTags content in
  ret (content, None).

End Methods.
End TemplateProcessor.

(** ** The handlers of the filesystem-backed server *)

Inductive response :=
| StringResponse (status : nat) (body : gostring)
| HTMLResponse (status : nat) (body : gostring).

Section Server.
Context (fs : FileSystem) (rootPath : gostring) (c : Context).

(** [processor.data] as the handler fills it before expanding. *)
Definition initialData : gmap gostring value :=
  <[str "form" := VForm]>
    (<[str "query" := VQuery]>
       (<[str "params" := VParams]>
          (<[str "request" := VRequest]> ∅))).

Definition processTemplate (depth : nat) (filename : gostring)
  : outcome response :=
  let fullPath := Join fs rootPath filename in
  if NotExist fs fullPath
  then Done (StringResponse 404 (str "File not found: " ++ filename))
  else
    match ReadFile fs fullPath with
    | inr err =>
        Done (StringResponse 500 (str "Error reading file: " ++ err))
    | inl content =>
        match TemplateProcessor.processTemplate fs rootPath c depth content
                initialData with
        | Done ((processedContent, Some err), _) =>
            Done (StringResponse 500
                    (str "Template processing error: " ++ err))
        | Done ((processedContent, None), _) =>
            Done (HTMLResponse 200 processedContent)
        | Panic msg => Panic msg
        | OutOfFuel => OutOfFuel
        end
    end.

Definition createHandler (filename : gostring) (depth : nat)
  : outcome response :=
  processTemplate depth filename.

Definition fileBasedHandler (depth : nat) : outcome response :=
  let path := URLPath c in
  let path := if decide (path = str "/") then str "/index" else path in
  let filename := Strings.TrimPrefix path (str "/") ++ str ".html" in
  processTemplate depth filename.

End Server.

(** ** Route registration *)

Record Route := {
  Path : gostring;
  File : gostring;
  Methods : list gostring
}.

Inductive verb := GET | POST | PUT | DELETE | PATCH | ANY.

Inductive handlerRef :=
| TemplateHandler (file : gostring)     (* createHandler(route.File) *)
| FileBasedHandler.                     (* fileBasedHandler *)

(** One call to [e.GET], [e.POST], ..., [e.Any]. *)
Definition registration : Type := verb * gostring * handlerRef.

Section Routes.
(** [strings.ToUpper]. *)
Context (ToUpper : gostring -> gostring).

Definition registerMethod (route : Route) (method : gostring)
  : list registration :=
  let m := ToUpper method in
  if decide (m = str "GET")
  then [(GET, Path route, TemplateHandler (File route))]
  else if decide (m = str "POST")
  then [(POST, Path route, TemplateHandler (File route))]
  else if decide (m = str "PUT")
  then [(PUT, Path route, TemplateHandler (File route))]
  else if decide (m = str "DELETE")
  then [(DELETE, Path route, TemplateHandler (File route))]
  else if decide (m = str "PATCH")
  then [(PATCH, Path route, TemplateHandler (File route))]
  else if decide (m = str "ANY")
  then [(ANY, Path route, TemplateHandler (File route))]
  else [].

(** The registrations [setupRoutes] performs, in order. *)
Definition setupRoutes (routes : list Route) : list registration :=
  flat_map (fun route => flat_map (registerMethod route) (Methods route))
    routes
  ++ [(ANY, str "/*", FileBasedHandler)].

End Routes.

(** ** The program generated from [compiledMainTemplate] *)

Module Embedded.

Module TemplateProcessor.
Section Methods.
(** [embeddedTemplates] is the table of documents written into the
    generated source; it takes the place of the file system. *)
Context (embeddedTemplates : gmap gostring gostring) (c : Context).

Definition includeRepl (self : gostring -> M gostring) (m : gostring)
  : M gostring :=
  match Regexp.FindStringSubmatch includeRegex m with
  | _ :: includeFile :: _ =>
      match embeddedTemplates !! includeFile with
      | None =>
          ret (str "<!-- Include error: template " ++ includeFile ++
               str " not found -->")
      | Some includeContent => self includeContent
      end
  | _ => ret m
  end.

Fixpoint processIncludes (depth : nat) (content : gostring)
  : M gostring :=
  match depth with
  | 0 => tooDeep
  | S depth' =>
      ReplaceAllStringFunc includeRegex content
        (includeRepl (processIncludes depth'))
  end.

Definition codeRepl (m : gostring) : M gostring :=
  match Regexp.FindStringSubmatch codeRegex m with
  | _ :: body :: _ =>
      let code := Strings.TrimSpace body in
      if Strings.Contains code (str "=") then
        match Strings.SplitN code "=" 2 with
        | [part0; part1] =>
            let varName := Strings.TrimSpace part0 in
            let varValue := Strings.TrimSpace part1 in
            let* varValue :=
              (if Strings.HasPrefix varValue [dquote] &&
                  Strings.HasSuffix varValue [dquote]
               then sliceOrPanic varValue 1 (length varValue - 1)
               else ret varValue) in
            let* _ := setData varName (VString varValue) in
            ret []
        | _ => ret []
        end
      else ret []
  | _ => ret m
  end.

Definition processCodeExpressions (content : gostring) : M gostring :=
  ReplaceAllStringFunc codeRegex content codeRepl.

(** Three cases: the generated program has none for
    [request.remoteaddr]. *)
Definition handleRequestExpression (expression : gostring) : gostring :=
  if decide (expression = str "request.method") then Method c
  else if decide (expression = str "request.url") then URLString c
  else if decide (expression = str "request.host") then Host c
  else expression.

(** The replacement of an output tag, without the arithmetic rule of the
    server. *)
Definition evaluate (data : gmap gostring value) (expression : gostring)
  : gostring :=
  match data !! expression with
  | Some value => formatValue c value
  | None =>
      if Strings.HasPrefix expression (str "request.")
      then handleRequestExpression expression
      else if Strings.HasPrefix expression (str "query.")
      then QueryParam c (Strings.TrimPrefix expression (str "query."))
      else if Strings.HasPrefix expression (str "form.")
      then FormValue c (Strings.TrimPrefix expression (str "form."))
      else expression
  end.

Definition outputRepl (m : gostring) : M gostring :=
  match Regexp.FindStringSubmatch outputRegex m with
  | _ :: body :: _ =>
      let expression := Strings.TrimSpace body in
      fun data => Done (evaluate data expression, data)
  | _ => ret m
  end.

Definition processOutputTags (content : gostring) : M gostring :=
  ReplaceAllStringFunc outputRegex content outputRepl.

Definition processTemplate (depth : nat) (content : gostring)
  : M (gostring * option gostring) :=
  let* content := processIncludes depth content in
  let* content := processCodeExpressions content in
  let* content := processOutputTags content in
  ret (content, None).

End Methods.
End TemplateProcessor.

Section Server.
Context (embeddedTemplates : gmap gostring gostring) (c : Context).

(** [processor.data] as the generated handler fills it: no ["params"]. *)
Definition initialData : gmap gostring value :=
  <[str "form" := VForm]>
    (<[str "query" := VQuery]> (<[str "request" := VRequest]> ∅)).

Definition processTemplate (depth : nat) (filename : gostring)
  : outcome response :=
  match embeddedTemplates !! filename with
  | None =>
      Done (StringResponse 404 (str "Template not found: " ++ filename))
  | Some content =>
      match TemplateProcessor.processTemplate embeddedTemplates c depth
              content initialData with
      | Done ((processedContent, Some err), _) =>
          Done (StringResponse 500
                  (str "Template processing error: " ++ err))
      | Done ((processedContent, None), _) =>
          Done (HTMLResponse 200 processedContent)
      | Panic msg => Panic msg
      | OutOfFuel => OutOfFuel
      end
  end.

Definition createHandler (filename : gostring) (depth : nat)
  : outcome response :=
  processTemplate depth filename.

Definition fileBasedHandler (depth : nat) : outcome response :=
  let path := URLPath c in
  let path := if decide (path = str "/") then str "/index" else path in
  let filename := Strings.TrimPrefix path (str "/") ++ str ".html" in
  processTemplate depth filename.

End Server.

Section Routes.
Context (ToUpper : gostring -> gostring).

(** The [switch] of the generated [setupRoutes]: no case for PATCH. *)
Definition registerMethod (route : Route) (method : gostring)
  : list registration :=
  let m := ToUpper method in
  if decide (m = str "GET")
  then [(GET, Path route, TemplateHandler (File route))]
  else if decide (m = str "POST")
  then [(POST, Path route, TemplateHandler (File route))]
  else if decide (m = str "PUT")
  then [(PUT, Path route, TemplateHandler (File route))]
  else if decide (m = str "DELETE")
  then [(DELETE, Path route, TemplateHandler (File route))]
  else if decide (m = str "ANY")
  then [(ANY, Path route, TemplateHandler (File route))]
  else [].

Definition setupRoutes (routes : list Route) : list registration :=
  flat_map (fun route => flat_map (registerMethod route) (Methods route))
    routes
  ++ [(ANY, str "/*", FileBasedHandler)].

End Routes.

End Embedded.

(** ** Specification-side notions *)

(** The strings a pattern denotes, read off its atoms. *)
Fixpoint lang (re : Regexp.regex) (w : gostring) : Prop :=
  match re with
  | [] => w = []
  | Regexp.Lit c :: re' => exists w', w = c :: w' /\ lang re' w'
  | Regexp.Cls k :: re' =>
      exists x w', w = x :: w' /\ Regexp.cmatch k x = true /\ lang re' w'
  | Regexp.Star k :: re' =>
      exists u w',
        w = u ++ w' /\ Forall (fun x => Regexp.cmatch k x = true) u /\
        lang re' w'
  | Regexp.Plus k :: re' =>
      exists x u w',
        w = x :: u ++ w' /\ Regexp.cmatch k x = true /\
        Forall (fun x => Regexp.cmatch k x = true) u /\ lang re' w'
  | Regexp.Open :: re' => lang re' w
  | Regexp.Close :: re' => lang re' w
  end.

(** A pattern all of whose matches are non-empty. *)
Definition progressive (re : Regexp.regex) : Prop :=
  forall s e g, Regexp.matchHere re s = Some (e, g) -> 0 < e.

(** [needle] occurs in [hay] as a contiguous run. *)
Definition occursIn (needle hay : gostring) : Prop :=
  exists a b, hay = a ++ needle ++ b.

(** The arithmetic rule as the specification words it: split on the first
    [+] into two trimmed operands; two integers give their sum, anything
    else the operands side by side. *)
Definition specArithmetic (expression : gostring) : gostring :=
  match Strings.SplitN expression "+" 2 with
  | [part0; part1] =>
      let lhs := Strings.TrimSpace part0 in
      let rhs := Strings.TrimSpace part1 in
      match Strconv.Atoi lhs, Strconv.Atoi rhs with
      | Some a, Some b => Strconv.Itoa (a + b)
      | _, _ => lhs ++ rhs
      end
  | _ => expression
  end.

(** The directives of the specification's test: [<% name = "value" %>] and
    [<%= name %>]. *)
Definition assignTag (name value : gostring) : gostring :=
  str "<% " ++ name ++ str " = " ++ [dquote] ++ value ++ [dquote] ++
  str " %>".

Definition outputTag (name : gostring) : gostring :=
  str "<%= " ++ name ++ str " %>".

(** A byte below 128 that is not white space. *)
Definition plain (c : ascii) : bool :=
  negb (Strings.asciiSpace c) && (nat_of_ascii c <? 128).

(** A non-empty string that begins and ends with a plain byte. *)
Definition tidy (s : gostring) : bool :=
  match head s, last s with
  | Some a, Some b => plain a && plain b
  | _, _ => false
  end.

(** Names of well-formed assignments: tidy, and free of [%] and [=]. *)
Definition wellFormedName (name : gostring) : Prop :=
  tidy name = true /\ ("%"%char ∉ name) /\ ("="%char ∉ name).

Section IncludeGraph.
Context (fs : FileSystem) (rootPath : gostring).

(** The files named by the include directives of [content]. *)
Definition includeTargets (content : gostring) : list gostring :=
  flat_map
    (fun seg =>
       match seg with
       | Regexp.Hit m =>
           match Regexp.FindStringSubmatch includeRegex m with
           | _ :: includeFile :: _ => [includeFile]
           | _ => []
           end
       | Regexp.Text _ => []
       end)
    (Regexp.segments includeRegex content).



End IncludeGraph.

(** Bytes that trimming can drop: ASCII white space, or bytes of a
    multi-byte rune. *)
Definition droppable (c : ascii) : bool :=
  Strings.asciiSpace c || (128 <=? nat_of_ascii c).

(** What follows [prefix] in [s], when [s] starts with it. *)
Fixpoint stripPrefix (prefix s : gostring) : option gostring :=
  match prefix, s with
  | [], _ => Some s
  | p :: prefix', x :: s' =>
      if Ascii.eqb x p then stripPrefix prefix' s' else None
  | _ :: _, [] => None
  end.

(** The first value filed under [k] in an association list. *)
Fixpoint assoc (k : gostring) (table : list (gostring * gostring))
  : option gostring :=
  match table with
  | [] => None
  | (k', v) :: table' => if decide (k' = k) then Some v else assoc k table'
  end.

(** The resolution order of output expressions as the specification lists
    it: scope, then the [request.] table, then [query.] and [form.], then
    the arithmetic rule [arith], then the expression itself. *)
Section SpecEvaluate.
Context (c : Context) (arith : gostring -> gostring).

Definition requestTable : list (gostring * gostring) :=
  [(str "method", Method c); (str "url", URLString c);
   (str "host", Host c); (str "remoteaddr", RemoteAddr c)].

Definition specEvaluate (data : gmap gostring value) (expr : gostring)
  : gostring :=
  match data !! expr with
  | Some v => formatValue c v
  | None =>
      match stripPrefix (str "request.") expr with
      | Some key => default expr (assoc key requestTable)
      | None =>
          match stripPrefix (str "query.") expr with
          | Some name => QueryParam c name
          | None =>
              match stripPrefix (str "form.") expr with
              | Some name => FormValue c name
              | None =>
                  if Strings.Contains expr (str "+") then arith expr
                  else expr
              end
          end
      end
  end.

End SpecEvaluate.


(** A pattern that opens with [<%], as the three patterns do. *)
Definition opensTag (re : Regexp.regex) : Prop :=
  exists re', re = Regexp.Lit "<" :: Regexp.Lit "%" :: re'.

(** A computation that ignores the scope: it returns the same result and
    leaves the scope alone, or it exceeds its depth, whatever the scope. *)
Definition oblivious {A} (f : M A) : Prop :=
  (exists r, forall d, f d = Done (r, d)) \/ (forall d, f d = OutOfFuel).

(** *** Comparing the embedded program with the server *)

Section Snapshot.
Context (fs : FileSystem) (rootPath : gostring)
  (embeddedTemplates : gmap gostring gostring).

(** Every include met while expanding [content], down to [depth] levels,
    names a file that both registries hold with the same content. *)
Fixpoint snapshotAgrees (depth : nat) (content : gostring) : Prop :=
  match depth with
  | 0 => True
  | S depth' =>
      Forall
        (fun f =>
           exists included,
             ReadFile fs (Join fs rootPath f) = inl included /\
             embeddedTemplates !! f = Some included /\
             snapshotAgrees depth' included)
        (includeTargets content)
  end.

(** The document and the scope that reach the output pass of the
    filesystem-backed server. *)
Definition beforeOutput (depth : nat) (content : gostring) : M gostring :=
  let* content := TemplateProcessor.processIncludes fs rootPath depth content in
  TemplateProcessor.processCodeExpressions content.

End Snapshot.

(** The trimmed bodies of the output tags of [content]. *)
Definition outputExpressions (content : gostring) : list gostring :=
  flat_map
    (fun seg =>
       match seg with
       | Regexp.Hit m =>
           match Regexp.FindStringSubmatch outputRegex m with
           | _ :: body :: _ => [Strings.TrimSpace body]
           | _ => []
           end
       | Regexp.Text _ => []
       end)
    (Regexp.segments outputRegex content).

(** An output expression the simplified evaluator of the embedded program
    treats as the server does: it is not bound to the route parameters the
    server alone stores under [params], it is not [request.remoteaddr], and
    it does not fall through to the arithmetic rule. *)
Definition portable (data : gmap gostring value) (expr : gostring) : Prop :=
  match data !! expr with
  | Some v => v <> VParams
  | None =>
      expr <> str "request.remoteaddr" /\
      (Strings.HasPrefix expr (str "request.") = false ->
       Strings.HasPrefix expr (str "query.") = false ->
       Strings.HasPrefix expr (str "form.") = false ->
       Strings.Contains expr (str "+") = false)
  end.

(** The scope of the server next to the scope of the embedded program:
    equal, except for entries bound to the route parameters. *)
Definition scopesAgree (d1 d2 : gmap gostring value) : Prop :=
  forall k, d1 !! k = d2 !! k \/ (d1 !! k = Some VParams /\ d2 !! k = None).

(** ** A sample deployment, for concrete runs *)

Module Sample.

Definition root : gostring := str "root_http".

Definition files : list (gostring * gostring) :=
  [(str "root_http/greet.html",
    str "<% who = " ++ [dquote] ++ str "World" ++ [dquote] ++
    str " %><h1>Hello <%= who %></h1>");
   (str "root_http/a.html",
    str "A<%@include file=" ++ [dquote] ++ str "b.html" ++ [dquote] ++
    str " %>");
   (str "root_http/b.html",
    str "B<%@include file=" ++ [dquote] ++ str "a.html" ++ [dquote] ++
    str " %>");
   (str "root_http/footer.html", str "<hr>");
   (str "root_http/page.html",
    str "<%@include file=" ++ [dquote] ++ str "footer.html" ++ [dquote] ++
    str " %><%= request.method %> <%= query.lang %>");
   (str "root_http/sum.html", str "<%= 2 + 3 %>")].

Definition fs : FileSystem := {|
  Join := fun dir name => dir ++ str "/" ++ name;
  ReadFile := fun path =>
    match assoc path files with
    | Some content => inl content
    | None => inr (str "open " ++ path ++ str ": no such file or directory")
    end;
  NotExist := fun path =>
    match assoc path files with Some _ => false | None => true end
|}.

Definition ctx : Context := {|
  Method := str "GET";
  URLString := str "/greet?lang=en";
  URLPath := str "/greet";
  Host := str "localhost:8080";
  RemoteAddr := str "127.0.0.1:12345";
  QueryParam := fun name =>
    if decide (name = str "lang") then str "en" else [];
  FormValue := fun _ => [];
  showRequest := str "&{GET /greet?lang=en}";
  showParams := str "[]";
  showQuery := str "map[lang:[en]]";
  showForm := str "map[]"
|}.

(** The templates a compilation of [root] embeds. *)
Definition embedded : gmap gostring gostring :=
  <[str "greet.html" :=
      str "<% who = " ++ [dquote] ++ str "World" ++ [dquote] ++
      str " %><h1>Hello <%= who %></h1>"]>
    (<[str "footer.html" := str "<hr>"]>
       (<[str "page.html" :=
            str "<%@include file=" ++ [dquote] ++ str "footer.html" ++
            [dquote] ++ str " %><%= request.method %> <%= query.lang %>"]>
          (<[str "sum.html" := str "<%= 2 + 3 %>"]>
             (<[str "a.html" :=
                  str "A<%@include file=" ++ [dquote] ++ str "b.html" ++
                  [dquote] ++ str " %>"]>
                (<[str "b.html" :=
                     str "B<%@include file=" ++ [dquote] ++ str "a.html" ++
                     [dquote] ++ str " %>"]> ∅))))).

(** [strings.ToUpper] on ASCII letters. *)
Definition toUpper (s : gostring) : gostring :=
  map (fun ch =>
         let n := nat_of_ascii ch in
         if (97 <=? n) && (n <=? 122) then ascii_of_nat (n - 32) else ch)
    s.

Definition routes : list Route :=
  [{| Path := str "/greet"; File := str "greet.html";
      Methods := [str "GET"; str "post"] |}].

End Sample.

(** ** Notions for the properties beyond the specification *)

(** The method name a verb is registered under in the [switch] of
    [setupRoutes]. *)
Definition verbName (v : verb) : gostring :=
  match v with
  | GET => str "GET"
  | POST => str "POST"
  | PUT => str "PUT"
  | DELETE => str "DELETE"
  | PATCH => str "PATCH"
  | ANY => str "ANY"
  end.

(** The catch-all registration that ends [setupRoutes]. *)
Definition catchAll : registration := (ANY, str "/*", FileBasedHandler).

Definition isPatch (r : registration) : bool :=
  match r with
  | (PATCH, _, _) => true
  | _ => false
  end.

(** The file [fileBasedHandler] serves for a request path. *)
Definition servedFile (path : gostring) : gostring :=
  if decide (path = str "/") then str "index.html"
  else match stripPrefix (str "/") path with
       | Some p => p ++ str ".html"
       | None => path ++ str ".html"
       end.

(** The bytes of the source a segment stands for. *)
Definition segmentText (seg : Regexp.segment) : gostring :=
  match seg with
  | Regexp.Text c => [c]
  | Regexp.Hit m => m
  end.

(** A value without the one pair of double quotes around it, when it has
    one. *)
Definition unquote (v : gostring) : gostring :=
  if Strings.HasPrefix v [dquote] && Strings.HasSuffix v [dquote]
  then Regexp.slice v 1 (length v - 1)
  else v.

(** The document without its matches: the text between them. *)
Definition withoutHits (segs : list Regexp.segment) : gostring :=
  flat_map
    (fun seg =>
       match seg with
       | Regexp.Text c => [c]
       | Regexp.Hit _ => []
       end)
    segs.


(** ** Running the build commands *)

(** [strings.Fields]: the maximal runs of bytes between white-space
    runes, none of them empty.  [cur] holds the bytes of the field being
    read, latest first; a white-space rune closes it. *)
Definition flushField (cur : gostring) : list gostring :=
  match cur with
  | [] => []
  | _ :: _ => [rev cur]
  end.

Fixpoint fieldsFrom (s : gostring) (cur : gostring) : list gostring :=
  match s with
  | [] => flushField cur
  | b1 :: r1 =>
      if Strings.asciiSpace b1 then flushField cur ++ fieldsFrom r1 []
      else match r1 with
           | [] => fieldsFrom r1 (b1 :: cur)
           | b2 :: r2 =>
               if Strings.space2 b1 b2
               then flushField cur ++ fieldsFrom r2 []
               else match r2 with
                    | [] => fieldsFrom r1 (b1 :: cur)
                    | b3 :: r3 =>
                        if Strings.space3 b1 b2 b3
                        then flushField cur ++ fieldsFrom r3 []
                        else fieldsFrom r1 (b1 :: cur)
                    end
           end
  end.

Definition Fields (s : gostring) : list gostring := fieldsFrom s [].

Section Commands.
(** [exec.Command(name, args...).Run()], with the standard streams of the
    process: [None] for a nil error. *)
Context (Run : gostring -> list gostring -> option gostring).

Definition executeCommand (cmd : gostring) : option gostring :=
  match Fields cmd with
  | [] => Some (str "empty command")
  | name :: args => Run name args
  end.

End Commands.

(** The command line [generateCompiledBinary] formats for the build:
    [fmt.Sprintf("go build -o %s main.go", absOutputPath)]. *)
Definition buildCommand (absOutputPath : gostring) : gostring :=
  str "go build -o " ++ absOutputPath ++ str " main.go".

(** ** The file watcher *)

(** What one round of the [select] in [watchFiles] receives: an event or
    the closing of [watcher.Events], an error or the closing of
    [watcher.Errors]. *)
Inductive received :=
| Event (op : Z) (name : gostring)
| EventsClosed
| WatcherError (err : gostring)
| ErrorsClosed.

(** What the watcher does: a line handed to [log.Printf] (the message,
    without the time stamp the logger puts before it), or a call to
    [fw.watcher.Add]. *)
Inductive watchEffect :=
| Logged (line : gostring)
| Added (name : gostring).

Section Watching.
(** The bits [fsnotify.Write] and [fsnotify.Create], and whether [os.Stat]
    succeeds on a name and reports a directory. *)
Context (Write Create : Z) (isDir : gostring -> bool).

(** The body of the [Events] case for a received event. *)
Definition onEvent (op : Z) (name : gostring) : list watchEffect :=
  (if (Z.land op Write =? Write)%Z
   then [Logged (str "File modified: " ++ name)]
   else []) ++
  (if (Z.land op Create =? Create)%Z
   then Logged (str "File created: " ++ name) ::
        (if isDir name then [Added name] else [])
   else []).

(** [watchFiles] over what its channels deliver, in the order the
    [select] takes it: the effects, and whether the loop has returned
    ([false]: it waits for more). *)
Fixpoint watchFiles (inbox : list received) : list watchEffect * bool :=
  match inbox with
  | [] => ([], false)
  | Event op name :: rest =>
      let (effects, returned) := watchFiles rest in
      (onEvent op name ++ effects, returned)
  | EventsClosed :: _ => ([], true)
  | WatcherError err :: rest =>
      let (effects, returned) := watchFiles rest in
      (Logged (str "Watcher error: " ++ err) :: effects, returned)
  | ErrorsClosed :: _ => ([], true)
  end.

End Watching.

(** What was received before a channel closed. *)
Fixpoint beforeClose (inbox : list received) : list received :=
  match inbox with
  | [] => []
  | EventsClosed :: _ | ErrorsClosed :: _ => []
  | r :: rest => r :: beforeClose rest
  end.

(** ** Compiling the templates into a binary *)

(** The system under the compiler.  Each field is the result of one
    library or operating-system call; [sysGenerateMainGo] and
    [sysGenerateGoMod] stand for [generateMainGo] and [generateGoMod], which
    render and write the two source files, and [sysLoadRouteConfig] for
    [loadRouteConfig].  Fallible calls give their result or the text of the
    error ([None]: a nil error). *)
Record System := {
  sysTempDir : gostring + gostring;
  sysJoin : gostring -> gostring -> gostring;
  sysGenerateMainGo :
    gmap gostring gostring -> list Route -> gostring -> option gostring;
  sysGenerateGoMod : gostring -> option gostring;
  sysAbs : gostring -> gostring + gostring;
  sysGetwd : gostring + gostring;
  sysChdir : gostring -> option gostring;
  sysRun : gostring -> list gostring -> option gostring;
  sysRel : gostring -> gostring -> gostring + gostring;
  sysToSlash : gostring -> gostring;
  sysReadFile : gostring -> gostring + gostring;
  sysLoadRouteConfig : gostring -> list Route + gostring
}.

(** The calls a run makes, in order. *)
Inductive call :=
| TempDir
| RemoveAll (path : gostring)
| GenerateMainGo (path : gostring)
| GenerateGoMod (path : gostring)
| Abs (path : gostring)
| Getwd
| Chdir (dir : gostring)
| Command (name : gostring) (args : list gostring)
| Printed (line : gostring).

(** A run: the error it returns ([None] for nil) and its calls. *)
Definition run : Type := option gostring * list call.

(** [defer c]: [c] is called when the function returns, after the calls
    deferred later. *)
Definition deferring (c : call) (r : run) : run := (r.1, r.2 ++ [c]).

Definition logged (line : gostring) (r : run) : run :=
  (r.1, Printed line :: r.2).

(** One fallible call and the usual
    [if err != nil { return fmt.Errorf(prefix, err) }]. *)
Definition attempt {A} (c : call) (result : A + gostring)
    (prefix : gostring) (k : A -> run) : run :=
  match result with
  | inr err => (Some (prefix ++ err), [c])
  | inl a => ((k a).1, c :: (k a).2)
  end.

Definition check (err : option gostring) : unit + gostring :=
  match err with
  | Some e => inr e
  | None => inl tt
  end.

(** The process [executeCommand] starts, if any. *)
Definition commandCalls (cmd : gostring) : list call :=
  match Fields cmd with
  | [] => []
  | name :: args => [Command name args]
  end.

Section Compiling.
Context (sys : System).

(** [executeCommand] with the same error handling. *)
Definition command (cmd prefix : gostring) (k : run) : run :=
  match executeCommand (sysRun sys) cmd with
  | Some err => (Some (prefix ++ err), commandCalls cmd)
  | None => (k.1, commandCalls cmd ++ k.2)
  end.

Definition generateCompiledBinary (templates : gmap gostring gostring)
    (routes : list Route) (outputPath : gostring) : run :=
  attempt TempDir (sysTempDir sys)
    (str "failed to create temp directory: ") (fun tempDir =>
  deferring (RemoveAll tempDir) (
  logged (str "🔧 Using temporary directory: " ++ tempDir) (
  let mainGoPath := sysJoin sys tempDir (str "main.go") in
  attempt (GenerateMainGo mainGoPath)
    (check (sysGenerateMainGo sys templates routes mainGoPath))
    (str "failed to generate main.go: ") (fun _ =>
  let goModPath := sysJoin sys tempDir (str "go.mod") in
  attempt (GenerateGoMod goModPath) (check (sysGenerateGoMod sys goModPath))
    (str "failed to generate go.mod: ") (fun _ =>
  attempt (Abs outputPath) (sysAbs sys outputPath)
    (str "failed to get absolute output path: ") (fun absOutputPath =>
  attempt Getwd (sysGetwd sys)
    (str "failed to get current directory: ") (fun originalDir =>
  attempt (Chdir tempDir) (check (sysChdir sys tempDir))
    (str "failed to change to temp directory: ") (fun _ =>
  deferring (Chdir originalDir) (
  logged (str "📦 Downloading dependencies...") (
  command (str "go mod tidy") (str "failed to download dependencies: ") (
  logged (str "🔨 Building binary: " ++ absOutputPath) (
  command (buildCommand absOutputPath) (str "failed to build binary: ") (
  (None, [])))))))))))))).

(** *** Scanning the root directory *)

(** One call of the function [compileTemplates] hands to [filepath.Walk]:
    the path, whether [info.IsDir()], and the error [Walk] met there. *)
Record visit := {
  visitPath : gostring;
  visitIsDir : bool;
  visitErr : option gostring
}.

(** The function handed to [filepath.Walk]: the table after the visit, or
    the error it returns, and the line it logs. *)
Definition walkFn (rootPath : gostring) (templates : gmap gostring gostring)
    (v : visit) : (gmap gostring gostring + gostring) * list call :=
  match visitErr v with
  | Some err => (inr err, [])
  | None =>
      if negb (visitIsDir v) &&
         Strings.HasSuffix (visitPath v) (str ".html")
      then
        match sysRel sys rootPath (visitPath v) with
        | inr err => (inr err, [])
        | inl relPath =>
            let relPath := sysToSlash sys relPath in
            match sysReadFile sys (visitPath v) with
            | inr err => (inr err, [])
            | inl content =>
                (inl (<[relPath := content]> templates),
                 [Printed (str "✅ Added template: " ++ relPath)])
            end
        end
      else (inl templates, [])
  end.

(** [filepath.Walk] over the visits it makes, in its order: it stops at
    the first error the function returns. *)
Fixpoint walk (rootPath : gostring) (visits : list visit)
    (templates : gmap gostring gostring)
  : (gmap gostring gostring + gostring) * list call :=
  match visits with
  | [] => (inl templates, [])
  | v :: rest =>
      match walkFn rootPath templates v with
      | (inr err, lines) => (inr err, lines)
      | (inl templates', lines) =>
          ((walk rootPath rest templates').1,
           lines ++ (walk rootPath rest templates').2)
      end
  end.

(** [compileTemplates]: the message of the [log.Fatal] that ends it, if
    any, and its calls.  [visits] are the visits [filepath.Walk] makes under
    [rootPath]. *)
Definition compileTemplates (rootPath configFile output : gostring)
    (visits : list visit) : run :=
  logged (str "🔥 Compiling templates from: " ++ rootPath) (
  logged (str "📄 Config file: " ++ configFile) (
  logged (str "📦 Output binary: " ++ output) (
  match walk rootPath visits ∅ with
  | (inr err, lines) => (Some (str "❌ Error scanning templates:" ++ err), lines)
  | (inl templates, lines) =>
      let loaded :=
        match sysLoadRouteConfig sys configFile with
        | inl routes => (routes, [])
        | inr err =>
            ([], [Printed (str "⚠️  Warning: Could not load route config: "
                           ++ err)])
        end in
      match generateCompiledBinary templates loaded.1 output with
      | (Some err, calls) =>
          (Some (str "❌ Error generating binary:" ++ err),
           lines ++ loaded.2 ++ calls)
      | (None, calls) =>
          (None,
           lines ++ loaded.2 ++ calls ++
           [Printed (str "🎉 Successfully compiled " ++
                     Strconv.Itoa (Z.of_nat (size templates)) ++
                     str " templates into " ++ output);
            Printed (str "🚀 Run with: ./" ++ output ++ str " --port 8080")])
      end
  end))).

End Compiling.

(** A visit that adds a template: a file, not a directory, whose path
    ends in [.html]. *)
Definition isTemplate (v : visit) : bool :=
  negb (visitIsDir v) && Strings.HasSuffix (visitPath v) (str ".html").

(** The calls of a run other than its log lines. *)
Definition systemCalls (calls : list call) : list call :=
  List.filter
    (fun c => match c with Printed _ => false | _ => true end) calls.

(** A sample system for the compiler: every step succeeds up to the
    build, which fails; there is no route configuration. *)
Module SampleBuild.

Definition sys : System := {|
  sysTempDir := inl (str "/tmp/webframework-compile-1");
  sysJoin := fun dir name => dir ++ str "/" ++ name;
  sysGenerateMainGo := fun _ _ _ => None;
  sysGenerateGoMod := fun _ => None;
  sysAbs := fun path => inl (str "/work/" ++ path);
  sysGetwd := inl (str "/work");
  sysChdir := fun _ => None;
  sysRun := fun name args =>
    if decide (args = [str "mod"; str "tidy"]) then None
    else Some (str "exit status 1");
  sysRel := fun root path =>
    match stripPrefix (root ++ str "/") path with
    | Some rel => inl rel
    | None => inr (str "Rel: can't make " ++ path ++ str " relative to " ++ root)
    end;
  sysToSlash := fun path => path;
  sysReadFile := ReadFile Sample.fs;
  sysLoadRouteConfig := fun _ =>
    inr (str "open routes.xml: no such file or directory")
|}.

Definition visits : list visit :=
  [{| visitPath := str "root_http"; visitIsDir := true; visitErr := None |};
   {| visitPath := str "root_http/footer.html"; visitIsDir := false;
      visitErr := None |};
   {| visitPath := str "root_http/notes.txt"; visitIsDir := false;
      visitErr := None |};
   {| visitPath := str "root_http/sum.html"; visitIsDir := false;
      visitErr := None |}].

Definition table : gmap gostring gostring :=
  <[str "sum.html" := str "<%= 2 + 3 %>"]>
    (<[str "footer.html" := str "<hr>"]> ∅).

End SampleBuild.


(** * Properties *)

(** ** The monad of processor methods *)

Lemma bind_Done {A B} (m : M A) (k : A -> M B) d a d' :
  m d = Done (a, d') -> bind m k d = k a d'.
Proof. unfold bind. intros ->. reflexivity. Qed.

Lemma replaceSegments_app repl l1 l2 d :
  replaceSegments repl (l1 ++ l2) d =
  (let* a := replaceSegments repl l1 in
   let* b := replaceSegments repl l2 in
   ret (a ++ b)) d.
Proof.
  revert d. induction l1 as [|seg l1 IH]; intros d; simpl.
  - unfold bind, ret. simpl.
    destruct (replaceSegments repl l2 d) as [[b d']| |]; reflexivity.
  - destruct seg as [c|m]; unfold bind, ret in *; simpl.
    + rewrite IH.
      destruct (replaceSegments repl l1 d) as [[a d1]| |]; try reflexivity.
      destruct (replaceSegments repl l2 d1) as [[b d2]| |]; reflexivity.
    + destruct (repl m d) as [[r d0]| |]; try reflexivity.
      rewrite IH.
      destruct (replaceSegments repl l1 d0) as [[a d1]| |]; try reflexivity.
      destruct (replaceSegments repl l2 d1) as [[b d2]| |]; try reflexivity.
      rewrite app_assoc. reflexivity.
Qed.

Lemma replaceSegments_text repl s d :
  replaceSegments repl (map Regexp.Text s) d = Done (s, d).
Proof.
  induction s as [|c s IH]; simpl; [reflexivity|].
  unfold bind. rewrite IH. reflexivity.
Qed.

(** ** The matcher *)

Lemma star_then_bound p k s pos e g :
  (forall s' pos' e' g', k s' pos' = Some (e', g') ->
     pos' <= e' <= pos' + length s') ->
  Regexp.star_then p k s pos = Some (e, g) ->
  pos <= e <= pos + length s.
Proof.
  intros Hk. revert pos. induction s as [|x s IH]; intros pos; simpl.
  - intros H. apply Hk in H. simpl in H. lia.
  - destruct (p x).
    + destruct (Regexp.star_then p k s (S pos)) as [r|] eqn:E.
      * intros [= ->]. apply IH in E. lia.
      * intros H. apply Hk in H. simpl in H. lia.
    + intros H. apply Hk in H. simpl in H. lia.
Qed.

Lemma exec_bound re : forall s pos g e g',
  Regexp.exec re s pos g = Some (e, g') -> pos <= e <= pos + length s.
Proof.
  induction re as [|a re IH]; intros s pos g e g'; simpl.
  - intros [= <- <-]. lia.
  - destruct a as [c|k|k|k| |].
    + destruct s as [|x s]; [discriminate|]. destruct (Ascii.eqb x c); [|discriminate].
      intros H. apply IH in H. simpl. lia.
    + destruct s as [|x s]; [discriminate|]. destruct (Regexp.cmatch k x); [|discriminate].
      intros H. apply IH in H. simpl. lia.
    + apply star_then_bound. intros s' pos' e' g''. apply IH.
    + destruct s as [|x s]; [discriminate|]. destruct (Regexp.cmatch k x); [|discriminate].
      intros H. apply star_then_bound in H; [simpl; lia|].
      intros s' pos' e' g''. apply IH.
    + apply IH.
    + apply IH.
Qed.

Lemma matchHere_bound re s e g :
  Regexp.matchHere re s = Some (e, g) -> e <= length s.
Proof. unfold Regexp.matchHere. intros H. apply exec_bound in H. lia. Qed.

Lemma progressive_lit c re : progressive (Regexp.Lit c :: re).
Proof.
  intros s e g. unfold Regexp.matchHere. simpl.
  destruct s as [|x s]; [discriminate|]. destruct (Ascii.eqb x c); [|discriminate].
  intros H. apply exec_bound in H. lia.
Qed.

Lemma includeRegex_progressive : progressive includeRegex.
Proof. apply progressive_lit. Qed.

Lemma codeRegex_progressive : progressive codeRegex.
Proof. apply progressive_lit. Qed.

Lemma outputRegex_progressive : progressive outputRegex.
Proof. apply progressive_lit. Qed.

Create HintDb patterns.
#[export] Hint Resolve includeRegex_progressive codeRegex_progressive
  outputRegex_progressive : patterns.

(** ** Scanning for the matches of a pattern *)

Section Scanning.
Context (re : Regexp.regex).

Lemma segments_miss c s :
  Regexp.matchHere re (c :: s) = None ->
  Regexp.segments re (c :: s) = Regexp.Text c :: Regexp.segments re s.
Proof.
  intros E. unfold Regexp.segments. simpl. rewrite E. reflexivity.
Qed.

Lemma find_None : forall s off,
  Regexp.find re s off = None ->
  forall k, Regexp.matchHere re (drop k s) = None.
Proof.
  induction s as [|c s IH]; intros off H k; simpl in H.
  - destruct (Regexp.matchHere re []) as [[e [gs ge]]|] eqn:E; [discriminate|].
    rewrite drop_nil. exact E.
  - destruct (Regexp.matchHere re (c :: s)) as [[e [gs ge]]|] eqn:E;
      [discriminate|].
    destruct k as [|k]; [exact E|]. simpl. eapply IH. exact H.
Qed.

(** When the pattern matches nowhere, every byte is plain text. *)
Lemma segments_no_match s :
  Regexp.MatchString re s = false ->
  Regexp.segments re s = map Regexp.Text s.
Proof.
  unfold Regexp.MatchString.
  destruct (Regexp.find re s 0) as [r|] eqn:E; [discriminate|]. intros _.
  pose proof (find_None _ _ E) as H. clear E.
  induction s as [|c s IH]; [reflexivity|].
  rewrite segments_miss by exact (H 0).
  simpl. f_equal. apply IH. intros k. exact (H (S k)).
Qed.

Lemma ReplaceAllStringFunc_no_match s repl d :
  Regexp.MatchString re s = false ->
  ReplaceAllStringFunc re s repl d = Done (s, d).
Proof.
  intros H. unfold ReplaceAllStringFunc.
  rewrite segments_no_match by assumption. apply replaceSegments_text.
Qed.

Lemma segments_text_run (t v : gostring) :
  (forall k, k < length t -> Regexp.matchHere re (drop k t ++ v) = None) ->
  Regexp.segments re (t ++ v) = map Regexp.Text t ++ Regexp.segments re v.
Proof.
  induction t as [|c t IH]; intros H; [reflexivity|].
  simpl. rewrite segments_miss by exact (H 0 ltac:(simpl; lia)).
  f_equal. apply IH. intros k Hk. apply (H (S k)). simpl. lia.
Qed.

(** From here on the matches of the pattern are non-empty. *)
Context (Hp : progressive re).

(** The fuel [scan] receives from [segments] is enough. *)
Lemma scan_fuel : forall f1 f2 s,
  length s <= f1 -> length s <= f2 ->
  Regexp.scan re f1 s = Regexp.scan re f2 s.
Proof.
  induction f1 as [|f1 IH]; intros f2 s H1 H2.
  - destruct s; [|simpl in H1; lia]. destruct f2; reflexivity.
  - destruct s as [|c s]; [destruct f2; reflexivity|].
    destruct f2 as [|f2]; [simpl in H2; lia|]. simpl in H1, H2. simpl.
    destruct (Regexp.matchHere re (c :: s)) as [[e g]|] eqn:E.
    + f_equal. pose proof (Hp _ _ _ E).
      pose proof (matchHere_bound _ _ _ _ E) as Hb.
      simpl in Hb. apply IH; rewrite length_drop; simpl; lia.
    + f_equal. apply IH; lia.
Qed.

Lemma segments_hit s e g :
  Regexp.matchHere re s = Some (e, g) ->
  Regexp.segments re s =
  Regexp.Hit (take e s) :: Regexp.segments re (drop e s).
Proof.
  intros E. pose proof (Hp _ _ _ E) as He.
  pose proof (matchHere_bound _ _ _ _ E) as Hb.
  destruct s as [|c s]; [simpl in Hb; lia|].
  unfold Regexp.segments. simpl Regexp.scan. rewrite E. f_equal.
  apply scan_fuel; [|reflexivity].
  rewrite length_drop. simpl in *. lia.
Qed.

(** When no match that starts in [u] runs past its end, scanning [u ++ v]
    ends with the scan of [v]. *)
Lemma segments_boundary (v : gostring) :
  forall n (u : gostring), length u <= n ->
  (forall k e g, k < length u ->
     Regexp.matchHere re (drop k u ++ v) = Some (e, g) ->
     e <= length u - k) ->
  exists segsU,
    Regexp.segments re (u ++ v) = segsU ++ Regexp.segments re v.
Proof.
  induction n as [|n IH]; intros u Hn H.
  - destruct u; [|simpl in Hn; lia]. exists []. reflexivity.
  - destruct u as [|c u]; [exists []; reflexivity|]. simpl in Hn.
    destruct (Regexp.matchHere re ((c :: u) ++ v)) as [[e g]|] eqn:E.
    + pose proof (H 0 e g ltac:(simpl; lia) E) as He. simpl in He.
      pose proof (Hp _ _ _ E) as He0.
      rewrite (segments_hit _ _ _ E).
      rewrite drop_app_le by (simpl; lia).
      destruct (IH (drop e (c :: u))) as [segs Hsegs].
      * rewrite length_drop. simpl. lia.
      * intros k e' g' Hk E'. rewrite length_drop in *.
        rewrite drop_drop in E'.
        pose proof (H (e + k) e' g' ltac:(lia) E'). lia.
      * rewrite Hsegs. eexists (_ :: segs). reflexivity.
    + simpl. rewrite segments_miss by exact E.
      destruct (IH u ltac:(lia)) as [segs Hsegs].
      * intros k e g Hk E'. apply (H (S k) e g); [simpl; lia | exact E'].
      * rewrite Hsegs. exists (Regexp.Text c :: segs). reflexivity.
Qed.

End Scanning.


(** ** Prefixes and splitting *)

Lemma HasPrefix_stripPrefix p : forall s,
  Strings.HasPrefix s p = true ->
  stripPrefix p s = Some (drop (length p) s) /\ s = p ++ drop (length p) s.
Proof.
  induction p as [|a p IH]; intros s.
  - intros _. split; reflexivity.
  - destruct s as [|x s]; [discriminate|]. simpl.
    destruct (Ascii.eqb x a) eqn:E; [|discriminate]. simpl.
    apply Ascii.eqb_eq in E. subst x. intros H.
    destruct (IH _ H) as [H1 H2]. split; [exact H1|]. f_equal. exact H2.
Qed.

Lemma HasPrefix_false_stripPrefix p : forall s,
  Strings.HasPrefix s p = false -> stripPrefix p s = None.
Proof.
  induction p as [|a p IH]; intros s.
  - destruct s; discriminate.
  - destruct s as [|x s]; simpl; [reflexivity|].
    destruct (Ascii.eqb x a); simpl; [apply IH | reflexivity].
Qed.

Lemma Split_no_sep sep s :
  sep ∉ s -> Strings.Split s sep = [s].
Proof.
  induction s as [|c s IH]; intros H; simpl; [reflexivity|].
  apply not_elem_of_cons in H as [Hc Hs].
  destruct (Ascii.eqb c sep) eqn:E.
  - apply Ascii.eqb_eq in E. congruence.
  - rewrite IH by assumption. reflexivity.
Qed.

Lemma Split_app_sep sep l r :
  sep ∉ l -> Strings.Split (l ++ sep :: r) sep = l :: Strings.Split r sep.
Proof.
  induction l as [|c l IH]; intros H; simpl.
  - rewrite Ascii.eqb_refl. reflexivity.
  - apply not_elem_of_cons in H as [Hc Hl].
    destruct (Ascii.eqb c sep) eqn:E.
    + apply Ascii.eqb_eq in E. congruence.
    + rewrite IH by assumption. reflexivity.
Qed.

Lemma Split_length sep s :
  length (Strings.Split s sep) = S (count_occ ascii_dec s sep).
Proof.
  induction s as [|c s IH]; simpl; [reflexivity|].
  destruct (Ascii.eqb c sep) eqn:E.
  - apply Ascii.eqb_eq in E. subst c.
    destruct (ascii_dec sep sep); [|contradiction]. simpl. rewrite IH. reflexivity.
  - apply Ascii.eqb_neq in E.
    destruct (ascii_dec c sep); [contradiction|].
    destruct (Strings.Split s sep) as [|h t]; simpl in *; lia.
Qed.

Lemma Contains_singleton c s :
  Strings.Contains s [c] = true <-> c ∈ s.
Proof.
  induction s as [|x s IH]; simpl.
  - split; [discriminate | intros H; inversion H].
  - destruct (Ascii.eqb x c) eqn:E; simpl.
    + apply Ascii.eqb_eq in E. subst x. destruct s; simpl; split; intros _; try reflexivity; left.
    + apply Ascii.eqb_neq in E. rewrite IH. split.
      * intros H. right. exact H.
      * intros H. apply elem_of_cons in H as [H|H]; [congruence | exact H].
Qed.

(** ** Trimming removes only white space *)

Lemma space2_droppable b1 b2 :
  Strings.space2 b1 b2 = true -> droppable b1 = true /\ droppable b2 = true.
Proof.
  unfold Strings.space2, droppable. intros H.
  apply andb_true_iff in H as [H1 H2]. apply Ascii.eqb_eq in H1. subst b1.
  apply orb_true_iff in H2 as [H2|H2]; apply Ascii.eqb_eq in H2; subst b2;
    split; reflexivity.
Qed.

Lemma space3_droppable b1 b2 b3 :
  Strings.space3 b1 b2 b3 = true ->
  droppable b1 = true /\ droppable b2 = true /\ droppable b3 = true.
Proof.
  unfold Strings.space3, droppable. intros H.
  repeat (apply orb_true_iff in H as [H|H]);
    repeat (apply andb_true_iff in H as [H ?]);
    repeat match goal with
      | E : Ascii.eqb ?b _ = true |- _ =>
          apply Ascii.eqb_eq in E; try subst b
      end;
    repeat split; try reflexivity.
  all: match goal with
       | E : (_ || _)%bool = true |- _ => idtac
       end.
  all: match goal with
       | E : (_ || _)%bool = true |- _ =>
           repeat (apply orb_true_iff in E as [E|E]);
           try (apply Ascii.eqb_eq in E; subst; reflexivity)
       end.
  all: apply andb_true_iff in H0 as [Hlo _]; rewrite Hlo; apply orb_true_r.
Qed.

Lemma TrimLeft_split : forall n s, length s <= n ->
  exists u, s = u ++ Strings.TrimLeft s /\ Forall (fun c => droppable c = true) u.
Proof.
  induction n as [|n IH]; intros s Hn.
  - destruct s; [|simpl in Hn; lia]. exists []. split; [reflexivity|constructor].
  - destruct s as [|b1 r1]; [exists []; split; [reflexivity|constructor]|].
    simpl in Hn. simpl.
    destruct (Strings.asciiSpace b1) eqn:E1.
    { destruct (IH r1 ltac:(lia)) as (u & Hu & Fu). exists (b1 :: u). split.
      - simpl. f_equal. exact Hu.
      - constructor; [unfold droppable; rewrite E1; reflexivity | exact Fu]. }
    destruct r1 as [|b2 r2]; [exists []; split; [reflexivity|constructor]|].
    simpl in Hn.
    destruct (Strings.space2 b1 b2) eqn:E2.
    { destruct (IH r2 ltac:(lia)) as (u & Hu & Fu).
      apply space2_droppable in E2 as [D1 D2].
      exists (b1 :: b2 :: u). split.
      - simpl. do 2 f_equal. exact Hu.
      - repeat constructor; assumption. }
    destruct r2 as [|b3 r3]; [exists []; split; [reflexivity|constructor]|].
    simpl in Hn.
    destruct (Strings.space3 b1 b2 b3) eqn:E3.
    { destruct (IH r3 ltac:(lia)) as (u & Hu & Fu).
      apply space3_droppable in E3 as (D1 & D2 & D3).
      exists (b1 :: b2 :: b3 :: u). split.
      - simpl. do 3 f_equal. exact Hu.
      - repeat constructor; assumption. }
    exists []. split; [reflexivity|constructor].
Qed.

Lemma trimRev_split : forall n s, length s <= n ->
  exists u, s = u ++ Strings.trimRev s /\ Forall (fun c => droppable c = true) u.
Proof.
  induction n as [|n IH]; intros s Hn.
  - destruct s; [|simpl in Hn; lia]. exists []. split; [reflexivity|constructor].
  - destruct s as [|b1 r1]; [exists []; split; [reflexivity|constructor]|].
    simpl in Hn. simpl.
    destruct (Strings.asciiSpace b1) eqn:E1.
    { destruct (IH r1 ltac:(lia)) as (u & Hu & Fu). exists (b1 :: u). split.
      - simpl. f_equal. exact Hu.
      - constructor; [unfold droppable; rewrite E1; reflexivity | exact Fu]. }
    destruct r1 as [|b2 r2]; [exists []; split; [reflexivity|constructor]|].
    simpl in Hn.
    destruct (Strings.space2 b2 b1) eqn:E2.
    { destruct (IH r2 ltac:(lia)) as (u & Hu & Fu).
      apply space2_droppable in E2 as [D1 D2].
      exists (b1 :: b2 :: u). split.
      - simpl. do 2 f_equal. exact Hu.
      - repeat constructor; assumption. }
    destruct r2 as [|b3 r3]; [exists []; split; [reflexivity|constructor]|].
    simpl in Hn.
    destruct (Strings.space3 b3 b2 b1) eqn:E3.
    { destruct (IH r3 ltac:(lia)) as (u & Hu & Fu).
      apply space3_droppable in E3 as (D1 & D2 & D3).
      exists (b1 :: b2 :: b3 :: u). split.
      - simpl. do 3 f_equal. exact Hu.
      - repeat constructor; assumption. }
    exists []. split; [reflexivity|constructor].
Qed.

Lemma TrimSpace_split s :
  exists u1 u2,
    s = u1 ++ Strings.TrimSpace s ++ u2 /\
    Forall (fun c => droppable c = true) u1 /\
    Forall (fun c => droppable c = true) u2.
Proof.
  destruct (TrimLeft_split (length s) s (le_n _)) as (u1 & H1 & F1).
  destruct (trimRev_split _ (rev (Strings.TrimLeft s)) (le_n _)) as (u2 & H2 & F2).
  exists u1, (rev u2). repeat split.
  - rewrite H1 at 1. f_equal. unfold Strings.TrimSpace, Strings.TrimRight.
    rewrite <- (rev_involutive (Strings.TrimLeft s)) at 1.
    rewrite H2 at 1. rewrite rev_app_distr. reflexivity.
  - exact F1.
  - apply Forall_rev. exact F2.
Qed.

Lemma count_occ_droppable u :
  Forall (fun c => droppable c = true) u -> count_occ ascii_dec u "+"%char = 0.
Proof.
  induction 1 as [|c u Hc _ IH]; simpl; [reflexivity|].
  destruct (ascii_dec c "+"); [subst c; discriminate | exact IH].
Qed.

Lemma TrimSpace_count_plus s :
  count_occ ascii_dec (Strings.TrimSpace s) "+"%char = count_occ ascii_dec s "+"%char.
Proof.
  destruct (TrimSpace_split s) as (u1 & u2 & H & F1 & F2).
  rewrite H at 2. rewrite !count_occ_app.
  rewrite (count_occ_droppable _ F1), (count_occ_droppable _ F2). lia.
Qed.

(** ** [Atoi] accepts at most one sign *)

Lemma digits_no_plus : forall s acc n,
  Strconv.digits s acc = Some n -> count_occ ascii_dec s "+"%char = 0.
Proof.
  induction s as [|c s IH]; intros acc n; simpl; [reflexivity|].
  destruct (Strconv.isDigit c) eqn:E; [|discriminate].
  intros H. destruct (ascii_dec c "+"); [subst c; discriminate|].
  eapply IH. exact H.
Qed.

Lemma Atoi_plus_count s v :
  Strconv.Atoi s = Some v -> count_occ ascii_dec s "+"%char <= 1.
Proof.
  unfold Strconv.Atoi. destruct s as [|c r]; [discriminate|].
  destruct (Ascii.eqb c "-" || Ascii.eqb c "+") eqn:E.
  - destruct r as [|x r']; [discriminate|].
    destruct (Strconv.digits (x :: r') 0) as [n|] eqn:D; [|discriminate].
    intros _. apply digits_no_plus in D. simpl in *.
    destruct (ascii_dec c "+"); lia.
  - destruct (Strconv.digits (c :: r) 0) as [n|] eqn:D; [|discriminate].
    intros _. apply digits_no_plus in D. lia.
Qed.

Lemma evaluateSimpleExpression_one_plus l r :
  "+"%char ∉ l -> "+"%char ∉ r ->
  TemplateProcessor.evaluateSimpleExpression (l ++ "+"%char :: r) =
  match Strconv.Atoi (Strings.TrimSpace l), Strconv.Atoi (Strings.TrimSpace r) with
  | Some a, Some b => Strconv.Itoa (Strconv.addInt a b)
  | _, _ => Strings.TrimSpace l ++ Strings.TrimSpace r
  end.
Proof.
  intros Hl Hr. unfold TemplateProcessor.evaluateSimpleExpression.
  rewrite Split_app_sep by assumption. rewrite Split_no_sep by assumption.
  reflexivity.
Qed.

Lemma evaluateSimpleExpression_many_plus e :
  2 <= count_occ ascii_dec e "+"%char ->
  TemplateProcessor.evaluateSimpleExpression e = e.
Proof.
  intros H. unfold TemplateProcessor.evaluateSimpleExpression.
  pose proof (Split_length "+" e) as HL.
  destruct (Strings.Split e "+") as [|p0 [|p1 [|p2 rest]]] eqn:E;
    simpl in HL; try lia.
  destruct (Strconv.Atoi (Strings.TrimSpace e)) as [v|] eqn:A; [|reflexivity].
  apply Atoi_plus_count in A. rewrite TrimSpace_count_plus in A. lia.
Qed.


(** ** Output expressions: the resolution order *)

Lemma request_key_eq sfx key :
  str "request." ++ sfx = str "request." ++ key <-> key = sfx.
Proof.
  split; [intros H; apply app_inv_head in H; congruence | intros ->; reflexivity].
Qed.

Lemma evaluate_specEvaluate (c : Context) (data : gmap gostring value)
    (expr : gostring) :
  TemplateProcessor.evaluate c data expr =
  specEvaluate c TemplateProcessor.evaluateSimpleExpression data expr.
Proof.
  unfold TemplateProcessor.evaluate, specEvaluate.
  destruct (data !! expr) as [v|]; [reflexivity|].
  destruct (Strings.HasPrefix expr (str "request.")) eqn:Hreq.
  - destruct (HasPrefix_stripPrefix _ _ Hreq) as [-> He].
    revert He. generalize (drop (length (str "request.")) expr).
    intros sfx ->. clear Hreq.
    unfold TemplateProcessor.handleRequestExpression, requestTable.
    cbn [assoc].
    change (str "request.method") with (str "request." ++ str "method").
    change (str "request.url") with (str "request." ++ str "url").
    change (str "request.host") with (str "request." ++ str "host").
    change (str "request.remoteaddr") with (str "request." ++ str "remoteaddr").
    repeat match goal with
      | |- context [decide (str "request." ++ sfx = str "request." ++ ?k)] =>
          destruct (decide (str "request." ++ sfx = str "request." ++ k)) as [E|E];
          [apply (proj1 (request_key_eq _ _)) in E;
           destruct (decide (k = sfx)); [reflexivity | contradiction]
          |destruct (decide (k = sfx)) as [E'|E'];
           [exfalso; apply E; apply request_key_eq; exact E' | clear E E']]
      end.
    reflexivity.
  - rewrite (HasPrefix_false_stripPrefix _ _ Hreq).
    destruct (Strings.HasPrefix expr (str "query.")) eqn:Hq.
    + destruct (HasPrefix_stripPrefix _ _ Hq) as [-> _].
      unfold Strings.TrimPrefix. rewrite Hq. reflexivity.
    + rewrite (HasPrefix_false_stripPrefix _ _ Hq).
      destruct (Strings.HasPrefix expr (str "form.")) eqn:Hf.
      * destruct (HasPrefix_stripPrefix _ _ Hf) as [-> _].
        unfold Strings.TrimPrefix. rewrite Hf. reflexivity.
      * rewrite (HasPrefix_false_stripPrefix _ _ Hf). reflexivity.
Qed.

(** C8. An output expression resolves, first match winning, against the
    scope, then the [request.] table (unknown keys echo the expression),
    then [query.] and [form.], then the arithmetic rule when it contains a
    [+], and otherwise renders as its own text; an output tag is replaced
    by what its trimmed body resolves to. *)
Theorem evaluate_resolution_order (c : Context) (data : gmap gostring value)
    (expr m : gostring) :
  TemplateProcessor.evaluate c data expr =
  specEvaluate c TemplateProcessor.evaluateSimpleExpression data expr /\
  TemplateProcessor.outputRepl c m data =
  match Regexp.FindStringSubmatch outputRegex m with
  | _ :: body :: _ =>
      Done (specEvaluate c TemplateProcessor.evaluateSimpleExpression data
              (Strings.TrimSpace body), data)
  | _ => Done (m, data)
  end.
Proof.
  split; [apply evaluate_specEvaluate|].
  unfold TemplateProcessor.outputRepl.
  destruct (Regexp.FindStringSubmatch outputRegex m) as [|w [|body rest]];
    try reflexivity.
  rewrite evaluate_specEvaluate. reflexivity.
Qed.

(** ** The arithmetic rule *)

(** C1, as amended.  An unresolved expression with exactly one [+] splits
    there into two trimmed operands: two integers give their sum (wrapped to
    the width of [int]), anything else the two operands side by side.  With
    two or more [+] the expression renders unchanged. *)
Theorem arithmetic_rule (c : Context) (data : gmap gostring value)
    (expr : gostring) :
  data !! expr = None ->
  Strings.HasPrefix expr (str "request.") = false ->
  Strings.HasPrefix expr (str "query.") = false ->
  Strings.HasPrefix expr (str "form.") = false ->
  (forall l r, expr = l ++ "+"%char :: r -> "+"%char ∉ l -> "+"%char ∉ r ->
     TemplateProcessor.evaluate c data expr =
     match Strconv.Atoi (Strings.TrimSpace l),
           Strconv.Atoi (Strings.TrimSpace r) with
     | Some a, Some b => Strconv.Itoa (Strconv.addInt a b)
     | _, _ => Strings.TrimSpace l ++ Strings.TrimSpace r
     end) /\
  (2 <= count_occ ascii_dec expr "+"%char ->
     TemplateProcessor.evaluate c data expr = expr).
Proof.
  intros Hd Hr Hq Hf. unfold TemplateProcessor.evaluate.
  rewrite Hd, Hr, Hq, Hf. split.
  - intros l r -> Hl Hrr.
    assert (Hc : Strings.Contains (l ++ "+"%char :: r) (str "+") = true).
    { apply Contains_singleton. apply elem_of_app. right. left. }
    rewrite Hc. apply evaluateSimpleExpression_one_plus; assumption.
  - intros H2. rewrite evaluateSimpleExpression_many_plus by exact H2.
    destruct (Strings.Contains expr (str "+")); reflexivity.
Qed.

Lemma arithmetic_rule_witness :
  TemplateProcessor.evaluate Sample.ctx ∅ (str "2 + 3") = str "5" /\
  TemplateProcessor.evaluate Sample.ctx ∅ (str "ab + cd") = str "abcd" /\
  TemplateProcessor.evaluate Sample.ctx ∅ (str "1 + 2 + 3") = str "1 + 2 + 3".
Proof.
  split; [|split].
  - apply (proj1 (arithmetic_rule Sample.ctx ∅ (str "2 + 3")
             (lookup_empty _) eq_refl eq_refl eq_refl) (str "2 ") (str " 3"));
      [reflexivity | |];
      rewrite list_elem_of_In; simpl; intuition discriminate.
  - apply (proj1 (arithmetic_rule Sample.ctx ∅ (str "ab + cd")
             (lookup_empty _) eq_refl eq_refl eq_refl) (str "ab ") (str " cd"));
      [reflexivity | |];
      rewrite list_elem_of_In; simpl; intuition discriminate.
  - apply (proj2 (arithmetic_rule Sample.ctx ∅ (str "1 + 2 + 3")
             (lookup_empty _) eq_refl eq_refl eq_refl)).
    vm_compute. lia.
Defined.

(** The rule as the specification words it (split on the first [+]) gives
    another answer on [1 + 2 + 3]. *)
Lemma arithmetic_first_plus_counterexample :
  TemplateProcessor.processTemplate Sample.fs Sample.root Sample.ctx 1
    (str "<%= 1 + 2 + 3 %>") ∅ = Done ((str "1 + 2 + 3", None), ∅) /\
  TemplateProcessor.evaluate Sample.ctx ∅ (str "1 + 2 + 3") = str "1 + 2 + 3" /\
  specArithmetic (str "1 + 2 + 3") = str "12 + 3" /\
  TemplateProcessor.evaluate Sample.ctx ∅ (str "1 + 2 + 3") <>
  specArithmetic (str "1 + 2 + 3").
Proof.
  split; [|split; [|split]]; try (vm_compute; reflexivity).
  vm_compute. discriminate.
Qed.

(** ** The error result of [processTemplate] *)

(** The output pass always returns and leaves the scope as it was. *)
Lemma output_pass_total c segs : forall d,
  exists r, replaceSegments (TemplateProcessor.outputRepl c) segs d = Done (r, d).
Proof.
  induction segs as [|seg segs IH]; intros d; simpl.
  - eexists. reflexivity.
  - destruct (IH d) as [r Hr]. destruct seg as [ch|m]; unfold bind, ret.
    + rewrite Hr. eexists. reflexivity.
    + unfold TemplateProcessor.outputRepl at 1.
      destruct (Regexp.FindStringSubmatch outputRegex m) as [|w [|body rest]];
        unfold ret; rewrite Hr; eexists; reflexivity.
Qed.

(** C9. Whatever the document and the request, a return of
    [TemplateProcessor.processTemplate] carries a nil error, it does return
    whenever the include pass returns and the code pass does not panic, and
    the handler never answers with the 500 [Template processing error]
    response. *)
Theorem processTemplate_error_nil (fs : FileSystem) (rootPath : gostring)
    (c : Context) (depth : nat) :
  (forall content d,
     match TemplateProcessor.processTemplate fs rootPath c depth content d with
     | Done ((_, err), _) => err = None
     | Panic _ | OutOfFuel => True
     end) /\
  (forall content d c1 d1 c2 d2,
     TemplateProcessor.processIncludes fs rootPath depth content d
     = Done (c1, d1) ->
     TemplateProcessor.processCodeExpressions c1 d1 = Done (c2, d2) ->
     exists out,
       TemplateProcessor.processTemplate fs rootPath c depth content d
       = Done ((out, None), d2)) /\
  (forall filename msg,
     processTemplate fs rootPath c depth filename <>
     Done (StringResponse 500 (str "Template processing error: " ++ msg))).
Proof.
  assert (H1 : forall content d,
     match TemplateProcessor.processTemplate fs rootPath c depth content d with
     | Done ((_, err), _) => err = None
     | Panic _ | OutOfFuel => True
     end).
  { intros content d. unfold TemplateProcessor.processTemplate, bind, ret.
    destruct (TemplateProcessor.processIncludes fs rootPath depth content d)
      as [[c1 d1]| |]; try exact I.
    destruct (TemplateProcessor.processCodeExpressions c1 d1)
      as [[c2 d2]| |]; try exact I.
    destruct (TemplateProcessor.processOutputTags c c2 d2)
      as [[c3 d3]| |]; try exact I.
    reflexivity. }
  split; [exact H1|]. split.
  { intros content d c1 d1 c2 d2 Hi Hc.
    unfold TemplateProcessor.processTemplate, bind, ret. rewrite Hi, Hc.
    unfold TemplateProcessor.processOutputTags, ReplaceAllStringFunc.
    destruct (output_pass_total c (Regexp.segments outputRegex c2) d2)
      as [out Hout].
    rewrite Hout. exists out. reflexivity. }
  intros filename msg. unfold processTemplate.
  destruct (NotExist fs (Join fs rootPath filename)).
  { discriminate. }
  destruct (ReadFile fs (Join fs rootPath filename)) as [content|err].
  - specialize (H1 content (initialData)).
    destruct (TemplateProcessor.processTemplate fs rootPath c depth content
                initialData) as [[[pc err] d']| |]; try discriminate.
    subst err. discriminate.
  - intros H. injection H as E. simpl in E. discriminate E.
Qed.

(** ** Code blocks *)

(** C4, at the failing input.  A code block whose value is a lone double
    quote makes [varValue[1 : len(varValue)-1]] slice from 1 to 0: the
    expansion panics instead of rendering the block as the empty string. *)
Theorem lone_quote_value_panics (d : gmap gostring value) :
  TemplateProcessor.processCodeExpressions
    (str "<% x = " ++ [dquote] ++ str " %>") d =
  Panic (str "runtime error: slice bounds out of range").
Proof. reflexivity. Qed.

(** ** Text outside the directives *)

(** Each pass copies a document its pattern does not match; [Hi], [Hc]
    and [Ho] say so for the include, code-block and output patterns. *)
Ltac unchanged_by_passes Hi Hc Ho :=
  unfold TemplateProcessor.processTemplate;
  simpl TemplateProcessor.processIncludes;
  erewrite bind_Done; [|apply ReplaceAllStringFunc_no_match; exact Hi];
  unfold TemplateProcessor.processCodeExpressions;
  erewrite bind_Done; [|apply ReplaceAllStringFunc_no_match; exact Hc];
  unfold TemplateProcessor.processOutputTags;
  erewrite bind_Done; [|apply ReplaceAllStringFunc_no_match; exact Ho].





(** ** Include expansion *)

(** C7. An include whose file cannot be read is replaced by the comment
    [<!-- Include error: ... -->] carrying the error, and expansion goes on
    with the matches before and after it: the result is decided by them
    alone. *)
Theorem failed_include_marker (fs : FileSystem) (rootPath : gostring)
    (depth : nat) (content : gostring)
    (before after : list Regexp.segment) (m whole file : gostring)
    (rest : list gostring) (err : gostring) (d : gmap gostring value) :
  Regexp.segments includeRegex content = before ++ Regexp.Hit m :: after ->
  Regexp.FindStringSubmatch includeRegex m = whole :: file :: rest ->
  ReadFile fs (Join fs rootPath file) = inr err ->
  TemplateProcessor.processIncludes fs rootPath (S depth) content d =
  (let* x := replaceSegments
               (TemplateProcessor.includeRepl fs rootPath
                  (TemplateProcessor.processIncludes fs rootPath depth))
               before in
   let* y := replaceSegments
               (TemplateProcessor.includeRepl fs rootPath
                  (TemplateProcessor.processIncludes fs rootPath depth))
               after in
   ret (x ++ (str "<!-- Include error: " ++ err ++ str " -->") ++ y)) d.
Proof.
  intros Hseg Hsub Hread. simpl. unfold ReplaceAllStringFunc.
  rewrite Hseg, replaceSegments_app. unfold bind at 1 3.
  destruct (replaceSegments _ before d) as [[x d1]| |]; try reflexivity.
  simpl replaceSegments. unfold bind at 1 2.
  unfold TemplateProcessor.includeRepl at 1. rewrite Hsub, Hread.
  unfold ret at 1. unfold bind.
  destruct (replaceSegments _ after d1) as [[y d2]| |]; reflexivity.
Qed.

Lemma failed_include_marker_witness :
  TemplateProcessor.processIncludes Sample.fs Sample.root 2
    (str "a<%@include file=" ++ [dquote] ++ str "missing.html" ++ [dquote] ++
     str " %>b<%@include file=" ++ [dquote] ++ str "footer.html" ++ [dquote] ++
     str "%>") ∅ =
  Done (str "a<!-- Include error: open root_http/missing.html: no such file or directory -->b<hr>", ∅).
Proof.
  rewrite (failed_include_marker Sample.fs Sample.root 1 _
             [Regexp.Text "a"]
             (Regexp.Text "b" ::
              [Regexp.Hit (str "<%@include file=" ++ [dquote] ++
                           str "footer.html" ++ [dquote] ++ str "%>")])
             (str "<%@include file=" ++ [dquote] ++ str "missing.html" ++
              [dquote] ++ str " %>")
             (str "<%@include file=" ++ [dquote] ++ str "missing.html" ++
              [dquote] ++ str " %>")
             (str "missing.html") []
             (str "open root_http/missing.html: no such file or directory"));
    vm_compute; reflexivity.
Defined.

(** Include expansion never panics and never touches the scope. *)
Lemma replaceSegments_oblivious repl :
  (forall m, oblivious (repl m)) ->
  forall segs, oblivious (replaceSegments repl segs).
Proof.
  intros Hrepl. induction segs as [|seg segs IH]; simpl.
  - left. exists []. intros d. reflexivity.
  - destruct seg as [c|m]; unfold bind, ret.
    + destruct IH as [[r IH]|IH].
      * left. exists (c :: r). intros d. rewrite IH. reflexivity.
      * right. intros d. rewrite IH. reflexivity.
    + destruct (Hrepl m) as [[r Hm]|Hm].
      * destruct IH as [[r' IH]|IH].
        -- left. exists (r ++ r'). intros d. rewrite Hm, IH. reflexivity.
        -- right. intros d. rewrite Hm, IH. reflexivity.
      * right. intros d. rewrite Hm. reflexivity.
Qed.

Lemma includeRepl_oblivious fs rootPath self :
  (forall s, oblivious (self s)) ->
  forall m, oblivious (TemplateProcessor.includeRepl fs rootPath self m).
Proof.
  intros Hself m. unfold TemplateProcessor.includeRepl.
  destruct (Regexp.FindStringSubmatch includeRegex m) as [|w [|f rest]];
    try (left; eexists; intros d; reflexivity).
  destruct (ReadFile fs (Join fs rootPath f)); [apply Hself|].
  left. eexists. intros d. reflexivity.
Qed.

Lemma processIncludes_oblivious fs rootPath depth : forall content,
  oblivious (TemplateProcessor.processIncludes fs rootPath depth content).
Proof.
  induction depth as [|depth IH]; intros content; simpl.
  - right. intros d. reflexivity.
  - unfold ReplaceAllStringFunc. apply replaceSegments_oblivious.
    apply includeRepl_oblivious. exact IH.
Qed.

Lemma oblivious_pure {A} (f : M A) :
  oblivious f -> forall d, f d = OutOfFuel \/ exists r, f d = Done (r, d).
Proof.
  intros [[r H]|H] d; [right; exists r; apply H | left; apply H].
Qed.










(** ** The embedded program against the filesystem-backed server *)

Lemma replaceSegments_ext repl1 repl2 segs :
  (forall m, Regexp.Hit m ∈ segs -> forall d, repl1 m d = repl2 m d) ->
  forall d, replaceSegments repl1 segs d = replaceSegments repl2 segs d.
Proof.
  induction segs as [|seg segs IH]; intros H d; [reflexivity|].
  assert (IH' : forall d, replaceSegments repl1 segs d = replaceSegments repl2 segs d).
  { apply IH. intros m Hm. apply H. right. exact Hm. }
  destruct seg as [c|m]; simpl; unfold bind.
  - rewrite IH'. reflexivity.
  - rewrite (H m) by left. destruct (repl2 m d) as [[r d']| |]; try reflexivity.
    rewrite IH'. reflexivity.
Qed.

Lemma hit_includeTarget content m w f rest :
  Regexp.Hit m ∈ Regexp.segments includeRegex content ->
  Regexp.FindStringSubmatch includeRegex m = w :: f :: rest ->
  f ∈ includeTargets content.
Proof.
  intros Hm Hsub. unfold includeTargets. rewrite list_elem_of_In, in_flat_map.
  exists (Regexp.Hit m). split; [apply list_elem_of_In; exact Hm|].
  rewrite Hsub. left. reflexivity.
Qed.

Lemma includes_agree fs rootPath table : forall depth content,
  snapshotAgrees fs rootPath table depth content ->
  forall d,
    Embedded.TemplateProcessor.processIncludes table depth content d =
    TemplateProcessor.processIncludes fs rootPath depth content d.
Proof.
  induction depth as [|depth IH]; intros content Hs d; [reflexivity|].
  simpl. unfold ReplaceAllStringFunc. apply replaceSegments_ext.
  intros m Hm d'.
  unfold Embedded.TemplateProcessor.includeRepl, TemplateProcessor.includeRepl.
  destruct (Regexp.FindStringSubmatch includeRegex m) as [|w [|f rest]] eqn:E;
    try reflexivity.
  simpl in Hs. rewrite Forall_forall in Hs.
  destruct (Hs f (hit_includeTarget _ _ _ _ _ Hm E)) as (inc & Hr & Ht & Hrec).
  rewrite Hr, Ht. apply IH. exact Hrec.
Qed.

Lemma codeRepl_cases m :
  (exists msg, forall d, TemplateProcessor.codeRepl m d = Panic msg) \/
  (exists r, forall d, TemplateProcessor.codeRepl m d = Done (r, d)) \/
  (exists r k v, forall d,
     TemplateProcessor.codeRepl m d = Done (r, <[k := VString v]> d)).
Proof.
  unfold TemplateProcessor.codeRepl.
  destruct (Regexp.FindStringSubmatch codeRegex m) as [|w [|body rest]];
    try (right; left; eexists; intros; reflexivity).
  destruct (Strings.Contains _ _);
    [|right; left; eexists; intros; reflexivity].
  destruct (Strings.SplitN _ _ _) as [|p0 [|p1 [|p2 ps]]];
    try (right; left; eexists; intros; reflexivity).
  destruct (Strings.HasPrefix _ _ && Strings.HasSuffix _ _).
  - unfold sliceOrPanic.
    destruct ((1 <=? _) && (_ <=? _)).
    + right; right. do 3 eexists. intros d. reflexivity.
    + left. eexists. intros d. reflexivity.
  - right; right. do 3 eexists. intros d. reflexivity.
Qed.

Lemma scopesAgree_insert d1 d2 k v :
  scopesAgree d1 d2 ->
  scopesAgree (<[k := VString v]> d1) (<[k := VString v]> d2).
Proof.
  intros H k'. destruct (decide (k = k')) as [->|Hne].
  - left. rewrite !lookup_insert_eq. reflexivity.
  - rewrite !lookup_insert_ne by exact Hne. apply H.
Qed.

Lemma code_pass_agree segs : forall d1 d2,
  scopesAgree d1 d2 ->
  match replaceSegments TemplateProcessor.codeRepl segs d1,
        replaceSegments TemplateProcessor.codeRepl segs d2 with
  | Done (r1, d1'), Done (r2, d2') => r1 = r2 /\ scopesAgree d1' d2'
  | Panic m1, Panic m2 => m1 = m2
  | _, _ => False
  end.
Proof.
  induction segs as [|seg segs IH]; intros d1 d2 H; simpl.
  - split; [reflexivity | exact H].
  - destruct seg as [c|m]; unfold bind, ret.
    + specialize (IH d1 d2 H).
      destruct (replaceSegments TemplateProcessor.codeRepl segs d1)
        as [[r1 d1']| |];
        destruct (replaceSegments TemplateProcessor.codeRepl segs d2)
        as [[r2 d2']| |];
        try contradiction; try exact IH.
      destruct IH as [-> IH]. split; [reflexivity | exact IH].
    + destruct (codeRepl_cases m) as [[msg Hm]|[[r Hm]|(r & k & v & Hm)]];
        rewrite !Hm.
      * reflexivity.
      * specialize (IH d1 d2 H).
        destruct (replaceSegments TemplateProcessor.codeRepl segs d1)
          as [[r1 d1']| |];
          destruct (replaceSegments TemplateProcessor.codeRepl segs d2)
          as [[r2 d2']| |];
          try contradiction; try exact IH.
        destruct IH as [-> IH]. split; [reflexivity | exact IH].
      * specialize (IH _ _ (scopesAgree_insert _ _ k v H)).
        destruct (replaceSegments TemplateProcessor.codeRepl segs
                    (<[k:=VString v]> d1)) as [[r1 d1']| |];
          destruct (replaceSegments TemplateProcessor.codeRepl segs
                      (<[k:=VString v]> d2)) as [[r2 d2']| |];
          try contradiction; try exact IH.
        destruct IH as [-> IH]. split; [reflexivity | exact IH].
Qed.

Lemma evaluate_agree c d1 d2 expr :
  scopesAgree d1 d2 -> portable d1 expr ->
  Embedded.TemplateProcessor.evaluate c d2 expr =
  TemplateProcessor.evaluate c d1 expr.
Proof.
  intros Hs Hp. unfold portable in Hp.
  unfold Embedded.TemplateProcessor.evaluate, TemplateProcessor.evaluate.
  destruct (Hs expr) as [E|[E1 E2]].
  - rewrite <- E. destruct (d1 !! expr) as [v|]; [reflexivity|].
    destruct Hp as [Hra Hplus].
    destruct (Strings.HasPrefix expr (str "request.")) eqn:Hreq.
    { unfold Embedded.TemplateProcessor.handleRequestExpression,
        TemplateProcessor.handleRequestExpression.
      destruct (decide (expr = str "request.method")); [reflexivity|].
      destruct (decide (expr = str "request.url")); [reflexivity|].
      destruct (decide (expr = str "request.host")); [reflexivity|].
      destruct (decide (expr = str "request.remoteaddr"));
        [contradiction | reflexivity]. }
    destruct (Strings.HasPrefix expr (str "query.")); [reflexivity|].
    destruct (Strings.HasPrefix expr (str "form.")); [reflexivity|].
    rewrite Hplus by reflexivity. reflexivity.
  - rewrite E1 in Hp. contradiction.
Qed.

Lemma output_pass_agree c segs d1 d2 :
  scopesAgree d1 d2 ->
  (forall m w body rest,
     Regexp.Hit m ∈ segs ->
     Regexp.FindStringSubmatch outputRegex m = w :: body :: rest ->
     portable d1 (Strings.TrimSpace body)) ->
  exists r,
    replaceSegments (TemplateProcessor.outputRepl c) segs d1 = Done (r, d1) /\
    replaceSegments (Embedded.TemplateProcessor.outputRepl c) segs d2
    = Done (r, d2).
Proof.
  intros Hs. induction segs as [|seg segs IH]; intros Hp; simpl.
  - exists []. split; reflexivity.
  - destruct IH as (r & H1 & H2).
    { intros m w body rest Hm. apply Hp. right. exact Hm. }
    destruct seg as [ch|m]; unfold bind, ret.
    + rewrite H1, H2. eexists. split; reflexivity.
    + assert (Hh : exists x,
                TemplateProcessor.outputRepl c m d1 = Done (x, d1) /\
                Embedded.TemplateProcessor.outputRepl c m d2 = Done (x, d2)).
      { unfold TemplateProcessor.outputRepl,
          Embedded.TemplateProcessor.outputRepl.
        destruct (Regexp.FindStringSubmatch outputRegex m)
          as [|w [|body rest]] eqn:E;
          try (eexists; split; reflexivity).
        rewrite (evaluate_agree c d1 d2 _ Hs (Hp m w body rest ltac:(left) E)).
        eexists. split; reflexivity. }
      destruct Hh as (x & Hx1 & Hx2). rewrite Hx1, Hx2, H1, H2.
      eexists. split; reflexivity.
Qed.

Lemma hit_outputExpression content m w body rest :
  Regexp.Hit m ∈ Regexp.segments outputRegex content ->
  Regexp.FindStringSubmatch outputRegex m = w :: body :: rest ->
  Strings.TrimSpace body ∈ outputExpressions content.
Proof.
  intros Hm Hsub. unfold outputExpressions. rewrite list_elem_of_In, in_flat_map.
  exists (Regexp.Hit m). split; [apply list_elem_of_In; exact Hm|].
  rewrite Hsub. left. reflexivity.
Qed.

Lemma initialData_agree : scopesAgree initialData Embedded.initialData.
Proof.
  intros k. unfold initialData, Embedded.initialData.
  destruct (decide (str "form" = k)) as [<-|Hf].
  { left. rewrite !lookup_insert_eq. reflexivity. }
  rewrite !(lookup_insert_ne _ (str "form")) by exact Hf.
  destruct (decide (str "query" = k)) as [<-|Hq].
  { left. rewrite !lookup_insert_eq. reflexivity. }
  rewrite !(lookup_insert_ne _ (str "query")) by exact Hq.
  destruct (decide (str "params" = k)) as [<-|Hp].
  { right. rewrite lookup_insert_eq. split; [reflexivity|].
    rewrite lookup_insert_ne by discriminate. apply lookup_empty. }
  rewrite (lookup_insert_ne _ (str "params")) by exact Hp. left. reflexivity.
Qed.

Lemma registerMethod_agree ToUpper route method :
  ToUpper method <> str "PATCH" ->
  Embedded.registerMethod ToUpper route method =
  registerMethod ToUpper route method.
Proof.
  intros H. unfold Embedded.registerMethod, registerMethod.
  destruct (decide (ToUpper method = str "GET")); [reflexivity|].
  destruct (decide (ToUpper method = str "POST")); [reflexivity|].
  destruct (decide (ToUpper method = str "PUT")); [reflexivity|].
  destruct (decide (ToUpper method = str "DELETE")); [reflexivity|].
  destruct (decide (ToUpper method = str "PATCH")); [contradiction|].
  reflexivity.
Qed.

Lemma flat_map_ext_in {A B} (f g : A -> list B) l :
  (forall x, x ∈ l -> f x = g x) -> flat_map f l = flat_map g l.
Proof.
  induction l as [|a l IH]; intros H; simpl; [reflexivity|].
  rewrite (H a) by left. rewrite IH; [reflexivity|].
  intros x Hx. apply H. right. exact Hx.
Qed.

(** C2, as amended.  The generated program is a simplified copy of the
    server.  It registers the same routes except those for PATCH, and for a
    document that both registries hold, together with every file its
    includes reach, it answers as the server does provided no output
    expression of the expanded document is bound only to the server's
    [params] entry, names [request.remoteaddr], or falls through to the
    arithmetic rule. *)
Theorem embedded_agrees_on_common_fragment
    (fs : FileSystem) (rootPath : gostring)
    (embeddedTemplates : gmap gostring gostring) (c : Context)
    (ToUpper : gostring -> gostring) (routes : list Route)
    (depth : nat) (filename content : gostring) :
  (forall route method,
     route ∈ routes -> method ∈ Methods route ->
     ToUpper method <> str "PATCH") ->
  NotExist fs (Join fs rootPath filename) = false ->
  ReadFile fs (Join fs rootPath filename) = inl content ->
  embeddedTemplates !! filename = Some content ->
  snapshotAgrees fs rootPath embeddedTemplates depth content ->
  (forall expanded d,
     beforeOutput fs rootPath depth content initialData = Done (expanded, d) ->
     Forall (portable d) (outputExpressions expanded)) ->
  Embedded.setupRoutes ToUpper routes = setupRoutes ToUpper routes /\
  Embedded.processTemplate embeddedTemplates c depth filename =
  processTemplate fs rootPath c depth filename.
Proof.
  intros Hroutes Hex Hread Htab Hsnap Hport. split.
  { unfold Embedded.setupRoutes, setupRoutes. f_equal.
    apply flat_map_ext_in. intros route Hr.
    apply flat_map_ext_in. intros method Hm.
    apply registerMethod_agree. eapply Hroutes; eassumption. }
  unfold Embedded.processTemplate, processTemplate.
  rewrite Hex, Hread, Htab.
  unfold Embedded.TemplateProcessor.processTemplate,
    TemplateProcessor.processTemplate.
  unfold beforeOutput in Hport. unfold bind in *.
  rewrite (includes_agree fs rootPath embeddedTemplates depth content Hsnap).
  destruct (processIncludes_oblivious fs rootPath depth content) as [[c1 Hi]|Hi];
    rewrite !Hi; [|reflexivity].
  rewrite Hi in Hport.
  change Embedded.TemplateProcessor.processCodeExpressions
    with TemplateProcessor.processCodeExpressions.
  unfold TemplateProcessor.processCodeExpressions, ReplaceAllStringFunc in *.
  pose proof (code_pass_agree (Regexp.segments codeRegex c1) _ _
                initialData_agree) as Hc.
  destruct (replaceSegments TemplateProcessor.codeRepl
              (Regexp.segments codeRegex c1) initialData)
    as [[c2 d1]| |];
    destruct (replaceSegments TemplateProcessor.codeRepl
                (Regexp.segments codeRegex c1) Embedded.initialData)
    as [[c2' d2]| |];
    try contradiction.
  - destruct Hc as [<- Hs]. specialize (Hport c2 d1 eq_refl).
    rewrite Forall_forall in Hport.
    unfold Embedded.TemplateProcessor.processOutputTags,
      TemplateProcessor.processOutputTags, ReplaceAllStringFunc.
    destruct (output_pass_agree c (Regexp.segments outputRegex c2) d1 d2 Hs)
      as (r & H1 & H2).
    { intros m w body rest Hm Hsub. apply Hport.
      eapply hit_outputExpression; eassumption. }
    rewrite H1, H2. reflexivity.
  - subst. reflexivity.
Qed.

Lemma embedded_agrees_on_common_fragment_witness :
  Embedded.setupRoutes Sample.toUpper Sample.routes =
  setupRoutes Sample.toUpper Sample.routes /\
  Embedded.processTemplate Sample.embedded Sample.ctx 3 (str "page.html") =
  processTemplate Sample.fs Sample.root Sample.ctx 3 (str "page.html").
Proof.
  apply (embedded_agrees_on_common_fragment Sample.fs Sample.root
           Sample.embedded Sample.ctx Sample.toUpper Sample.routes 3
           (str "page.html")
           (str "<%@include file=" ++ [dquote] ++ str "footer.html" ++
            [dquote] ++ str " %><%= request.method %> <%= query.lang %>")).
  - intros route method Hr Hm.
    apply list_elem_of_In in Hr. destruct Hr as [<-|[]].
    apply list_elem_of_In in Hm. destruct Hm as [<-|[<-|[]]]; vm_compute; discriminate.
  - vm_compute. reflexivity.
  - vm_compute. reflexivity.
  - vm_compute. reflexivity.
  - change (Forall
              (fun f => exists included,
                 ReadFile Sample.fs (Join Sample.fs Sample.root f) = inl included /\
                 Sample.embedded !! f = Some included /\
                 snapshotAgrees Sample.fs Sample.root Sample.embedded 2 included)
              [str "footer.html"]).
    constructor; [|constructor].
    exists (str "<hr>"). split; [reflexivity|]. split; [vm_compute; reflexivity|].
    change (Forall
              (fun f => exists included,
                 ReadFile Sample.fs (Join Sample.fs Sample.root f) = inl included /\
                 Sample.embedded !! f = Some included /\
                 snapshotAgrees Sample.fs Sample.root Sample.embedded 1 included)
              []).
    constructor.
  - intros expanded d H. vm_compute in H. injection H as <- <-.
    change (Forall
              (portable initialData)
              [str "request.method"; str "query.lang"]).
    repeat constructor; try discriminate.
Defined.

(** The generated evaluator has no arithmetic rule: the sum the server
    computes is echoed as written by the compiled program. *)
Lemma embedded_arithmetic_counterexample :
  processTemplate Sample.fs Sample.root Sample.ctx 1 (str "sum.html") =
  Done (HTMLResponse 200 (str "5")) /\
  Embedded.processTemplate Sample.embedded Sample.ctx 1 (str "sum.html") =
  Done (HTMLResponse 200 (str "2 + 3")).
Proof. split; vm_compute; reflexivity. Qed.


(** ** What the patterns match *)

Lemma star_then_inv p k s : forall pos r,
  Regexp.star_then p k s pos = Some r ->
  exists u s',
    s = u ++ s' /\ Forall (fun x => p x = true) u /\
    k s' (pos + length u) = Some r.
Proof.
  induction s as [|x s IH]; intros pos r; simpl.
  - intros H. exists [], []. rewrite Nat.add_0_r. repeat split; [constructor | exact H].
  - destruct (p x) eqn:Hp.
    + destruct (Regexp.star_then p k s (S pos)) as [r'|] eqn:E.
      * intros [= <-]. destruct (IH _ _ E) as (u & s' & -> & Hu & Hk).
        exists (x :: u), s'. repeat split.
        -- constructor; assumption.
        -- simpl. rewrite <- Hk. f_equal. lia.
      * intros H. exists [], (x :: s). rewrite Nat.add_0_r.
        repeat split; [constructor | exact H].
    + intros H. exists [], (x :: s). rewrite Nat.add_0_r.
      repeat split; [constructor | exact H].
Qed.

(** Every anchored match spells a string of the pattern's language. *)
Lemma exec_sound re : forall s pos g e g',
  Regexp.exec re s pos g = Some (e, g') ->
  exists w rest, s = w ++ rest /\ e = pos + length w /\ lang re w.
Proof.
  induction re as [|a re IH]; intros s pos g e g'; simpl.
  - intros [= <- <-]. exists [], s. repeat split. simpl. lia.
  - destruct a as [c|k|k|k| |].
    + destruct s as [|x s]; [discriminate|].
      destruct (Ascii.eqb x c) eqn:E; [|discriminate].
      apply Ascii.eqb_eq in E. subst x. intros H.
      destruct (IH _ _ _ _ _ H) as (w & rest & -> & -> & Hl).
      exists (c :: w), rest. repeat split; [simpl; lia|].
      exists w. split; [reflexivity | exact Hl].
    + destruct s as [|x s]; [discriminate|].
      destruct (Regexp.cmatch k x) eqn:E; [|discriminate]. intros H.
      destruct (IH _ _ _ _ _ H) as (w & rest & -> & -> & Hl).
      exists (x :: w), rest. repeat split; [simpl; lia|].
      exists x, w. repeat split; assumption.
    + intros H. destruct (star_then_inv _ _ _ _ _ H) as (u & s' & -> & Hu & Hk).
      destruct (IH _ _ _ _ _ Hk) as (w & rest & -> & -> & Hl).
      exists (u ++ w), rest. repeat split.
      * rewrite app_assoc. reflexivity.
      * rewrite length_app. lia.
      * exists u, w. repeat split; assumption.
    + destruct s as [|x s]; [discriminate|].
      destruct (Regexp.cmatch k x) eqn:E; [|discriminate]. intros H.
      destruct (star_then_inv _ _ _ _ _ H) as (u & s' & -> & Hu & Hk).
      destruct (IH _ _ _ _ _ Hk) as (w & rest & -> & -> & Hl).
      exists (x :: u ++ w), rest. repeat split.
      * simpl. rewrite app_assoc. reflexivity.
      * simpl. rewrite length_app. lia.
      * exists x, u, w. repeat split; assumption.
    + intros H. destruct (IH _ _ _ _ _ H) as (w & rest & -> & -> & Hl).
      exists w, rest. repeat split. exact Hl.
    + intros H. destruct (IH _ _ _ _ _ H) as (w & rest & -> & -> & Hl).
      exists w, rest. repeat split. exact Hl.
Qed.

Lemma cnot_neq c x : Regexp.cmatch (Regexp.CNot c) x = true -> x <> c.
Proof.
  simpl. intros H ->. rewrite Ascii.eqb_refl in H. discriminate.
Qed.

Lemma Forall_cnot_notin c u :
  Forall (fun x => Regexp.cmatch (Regexp.CNot c) x = true) u -> c ∉ u.
Proof.
  induction 1 as [|x u Hx _ IH]; [intros H; inversion H|].
  apply not_elem_of_cons. split; [|exact IH].
  intros ->. apply cnot_neq in Hx. contradiction.
Qed.

Lemma Forall_space_notin u :
  Forall (fun x => Regexp.cmatch Regexp.CSpace x = true) u -> "%"%char ∉ u.
Proof.
  induction 1 as [|x u Hx _ IH]; [intros H; inversion H|].
  apply not_elem_of_cons. split; [|exact IH].
  intros <-. discriminate Hx.
Qed.

(** A code-block match: [<%], white space, one byte other than [=], a run
    free of [%], [%>]. *)
Lemma code_shape s e g :
  Regexp.matchHere codeRegex s = Some (e, g) ->
  exists ws x rest tail,
    s = str "<%" ++ ws ++ x :: rest ++ str "%>" ++ tail /\
    e = 2 + length ws + 1 + length rest + 2 /\
    Forall (fun y => Regexp.cmatch Regexp.CSpace y = true) ws /\
    x <> "="%char /\ "%"%char ∉ rest.
Proof.
  intros H. apply exec_sound in H as (w & tail & -> & -> & Hl).
  cbn in Hl.
  destruct Hl as (w1 & -> & w2 & -> & ws & w3 & -> & Hws & x & w4 & -> & Hx &
                  r1 & w5 & -> & Hr1 & ws2 & w6 & -> & Hws2 &
                  w7 & -> & w8 & -> & ->).
  exists ws, x, (r1 ++ ws2), tail. repeat split.
  - cbn. rewrite <- !app_assoc. cbn. rewrite <- !app_assoc. reflexivity.
  - cbn. rewrite !length_app. cbn. rewrite !length_app. cbn. lia.
  - exact Hws.
  - apply cnot_neq in Hx. exact Hx.
  - intros Hin. apply elem_of_app in Hin as [Hin|Hin].
    + revert Hin. apply Forall_cnot_notin. exact Hr1.
    + revert Hin. apply Forall_space_notin. exact Hws2.
Qed.

(** An output match: [<%=], a non-empty run free of [%], [%>]. *)
Lemma output_shape s e g :
  Regexp.matchHere outputRegex s = Some (e, g) ->
  exists body tail,
    s = str "<%=" ++ body ++ str "%>" ++ tail /\
    e = 3 + length body + 2 /\
    body <> [] /\ "%"%char ∉ body.
Proof.
  intros H. apply exec_sound in H as (w & tail & -> & -> & Hl).
  cbn in Hl.
  destruct Hl as (w1 & -> & w2 & -> & w2' & -> & ws & w3 & -> & Hws &
                  x & r1 & w5 & -> & Hx & Hr1 & ws2 & w6 & -> & Hws2 &
                  w7 & -> & w8 & -> & ->).
  exists (ws ++ x :: r1 ++ ws2), tail. repeat split.
  - cbn. rewrite <- !app_assoc. cbn. rewrite <- !app_assoc. reflexivity.
  - cbn. rewrite !length_app. cbn. rewrite !length_app. cbn. lia.
  - destruct ws; discriminate.
  - intros Hin. apply elem_of_app in Hin as [Hin|Hin].
    + revert Hin. apply Forall_space_notin. exact Hws.
    + apply elem_of_cons in Hin as [Hin|Hin].
      * apply cnot_neq in Hx. congruence.
      * apply elem_of_app in Hin as [Hin|Hin].
        -- revert Hin. apply Forall_cnot_notin. exact Hr1.
        -- revert Hin. apply Forall_space_notin. exact Hws2.
Qed.


(** ** Aligning two readings of one text *)


Lemma Contains_cons_false s sub x :
  Strings.Contains (x :: s) sub = false ->
  Strings.HasPrefix (x :: s) sub = false /\ Strings.Contains s sub = false.
Proof. simpl. intros H. apply orb_false_iff in H. exact H. Qed.

Lemma HasPrefix_app p r : Strings.HasPrefix (p ++ r) p = true.
Proof.
  induction p as [|a p IH]; simpl; [destruct r; reflexivity|].
  rewrite Ascii.eqb_refl. exact IH.
Qed.




(** ** Positions where no match can start *)

Lemma find_all_None re : forall s off,
  (forall k, Regexp.matchHere re (drop k s) = None) ->
  Regexp.find re s off = None.
Proof.
  induction s as [|c s IH]; intros off H; simpl;
    pose proof (H 0) as H0; simpl in H0; rewrite H0.
  - reflexivity.
  - apply IH. intros k. exact (H (S k)).
Qed.

Lemma MatchString_false re s :
  (forall k, Regexp.matchHere re (drop k s) = None) ->
  Regexp.MatchString re s = false.
Proof.
  intros H. unfold Regexp.MatchString. rewrite find_all_None by exact H.
  reflexivity.
Qed.

Lemma opensTag_head re x s :
  opensTag re -> x <> "<"%char -> Regexp.matchHere re (x :: s) = None.
Proof.
  intros [re' ->] Hx. unfold Regexp.matchHere. simpl.
  destruct (Ascii.eqb x "<") eqn:E; [|reflexivity].
  apply Ascii.eqb_eq in E. contradiction.
Qed.

Lemma opensTag_second re x y s :
  opensTag re -> y <> "%"%char -> Regexp.matchHere re (x :: y :: s) = None.
Proof.
  intros [re' ->] Hy. unfold Regexp.matchHere. simpl.
  destruct (Ascii.eqb x "<"); [|reflexivity].
  destruct (Ascii.eqb y "%") eqn:E; [|reflexivity].
  apply Ascii.eqb_eq in E. contradiction.
Qed.

Lemma opensTag_nil re : opensTag re -> Regexp.matchHere re [] = None.
Proof. intros [re' ->]. reflexivity. Qed.

Lemma opensTag_single re x : opensTag re -> Regexp.matchHere re [x] = None.
Proof.
  intros [re' ->]. unfold Regexp.matchHere. simpl.
  destruct (Ascii.eqb x "<"); reflexivity.
Qed.


(** ** Tags with a [%] in the body *)





Lemma includeRegex_opensTag : opensTag includeRegex.
Proof. eexists. reflexivity. Qed.

Lemma codeRegex_opensTag : opensTag codeRegex.
Proof. eexists. reflexivity. Qed.

Lemma outputRegex_opensTag : opensTag outputRegex.
Proof. eexists. reflexivity. Qed.

#[export] Hint Resolve includeRegex_opensTag codeRegex_opensTag
  outputRegex_opensTag : patterns.





(** ** Matching a well-formed tag *)

(** A greedy repetition runs to the first byte outside its class. *)
Lemma star_then_run p k u : forall s pos r,
  Forall (fun x => p x = true) u ->
  match s with [] => True | x :: _ => p x = false end ->
  k s (pos + length u) = Some r ->
  Regexp.star_then p k (u ++ s) pos = Some r.
Proof.
  induction u as [|a u IH]; intros s pos r Hu Hs Hk; simpl in *.
  - rewrite Nat.add_0_r in Hk.
    destruct s as [|x s]; simpl; [exact Hk|]. rewrite Hs. exact Hk.
  - inversion Hu as [|? ? Ha Hu']; subst. rewrite Ha.
    rewrite (IH s (S pos) r Hu' Hs); [reflexivity|].
    rewrite <- Hk. f_equal. lia.
Qed.

Lemma notin_Forall_cnot c (u : gostring) :
  c ∉ u -> Forall (fun x => Regexp.cmatch (Regexp.CNot c) x = true) u.
Proof.
  induction u as [|x u IH]; intros H; constructor.
  - simpl. apply not_elem_of_cons in H as [H _].
    destruct (Ascii.eqb x c) eqn:E; [|reflexivity].
    apply Ascii.eqb_eq in E. congruence.
  - apply IH. apply not_elem_of_cons in H as [_ H]. exact H.
Qed.

Lemma code_match_tag ws x body tail :
  Forall (fun y => Regexp.cmatch Regexp.CSpace y = true) ws ->
  Regexp.cmatch Regexp.CSpace x = false ->
  x <> "="%char -> "%"%char ∉ body ->
  Regexp.matchHere codeRegex
    (str "<%" ++ ws ++ x :: body ++ str "%>" ++ tail) =
  Some (length (str "<%" ++ ws ++ x :: body ++ str "%>"),
        (2 + length ws, 2 + length ws + S (length body))).
Proof.
  intros Hws Hx Hne Hbody. unfold Regexp.matchHere.
  change codeRegex with
    (Regexp.Lit "<" :: Regexp.Lit "%" :: Regexp.Star Regexp.CSpace ::
     Regexp.Open :: Regexp.Cls (Regexp.CNot "=") ::
     Regexp.Star (Regexp.CNot "%") :: Regexp.Close ::
     Regexp.Star Regexp.CSpace :: Regexp.Lit "%" :: Regexp.Lit ">" :: []).
  cbn [Regexp.exec str list_ascii_of_string app Ascii.eqb Bool.eqb].
  erewrite star_then_run; [reflexivity | exact Hws | exact Hx |].
  cbn [Regexp.exec fst snd].
  assert (Hx' : Regexp.cmatch (Regexp.CNot "=") x = true).
  { simpl. destruct (Ascii.eqb x "=") eqn:E; [|reflexivity].
    apply Ascii.eqb_eq in E. contradiction. }
  rewrite Hx'.
  erewrite star_then_run;
    [reflexivity | apply notin_Forall_cnot; exact Hbody | reflexivity |].
  cbn [Regexp.exec fst snd Regexp.star_then Regexp.cmatch Ascii.eqb Bool.eqb
         negb orb].
  replace (2 + length ws + S (length body))
    with (S (2 + length ws) + length body) by lia.
  match goal with
  | |- _ = Some (?L, _) =>
      replace L with (S (S (S (2 + length ws) + length body)));
      [reflexivity|]
  end.
  simpl. rewrite length_app. simpl. rewrite length_app. simpl. lia.
Qed.

Lemma output_match_tag ws x body tail :
  Forall (fun y => Regexp.cmatch Regexp.CSpace y = true) ws ->
  Regexp.cmatch Regexp.CSpace x = false ->
  x <> "%"%char -> "%"%char ∉ body ->
  Regexp.matchHere outputRegex
    (str "<%=" ++ ws ++ x :: body ++ str "%>" ++ tail) =
  Some (length (str "<%=" ++ ws ++ x :: body ++ str "%>"),
        (3 + length ws, 3 + length ws + S (length body))).
Proof.
  intros Hws Hx Hne Hbody. unfold Regexp.matchHere.
  change outputRegex with
    (Regexp.Lit "<" :: Regexp.Lit "%" :: Regexp.Lit "=" ::
     Regexp.Star Regexp.CSpace :: Regexp.Open ::
     Regexp.Plus (Regexp.CNot "%") :: Regexp.Close ::
     Regexp.Star Regexp.CSpace :: Regexp.Lit "%" :: Regexp.Lit ">" :: []).
  cbn [Regexp.exec str list_ascii_of_string app Ascii.eqb Bool.eqb].
  erewrite star_then_run; [reflexivity | exact Hws | exact Hx |].
  cbn [Regexp.exec fst snd].
  assert (Hx' : Regexp.cmatch (Regexp.CNot "%") x = true).
  { simpl. destruct (Ascii.eqb x "%") eqn:E; [|reflexivity].
    apply Ascii.eqb_eq in E. contradiction. }
  rewrite Hx'.
  erewrite star_then_run;
    [reflexivity | apply notin_Forall_cnot; exact Hbody | reflexivity |].
  cbn [Regexp.exec fst snd Regexp.star_then Regexp.cmatch Ascii.eqb Bool.eqb
         negb orb].
  replace (3 + length ws + S (length body))
    with (S (3 + length ws) + length body) by lia.
  match goal with
  | |- _ = Some (?L, _) =>
      replace L with (S (S (S (3 + length ws) + length body)));
      [reflexivity|]
  end.
  simpl. rewrite length_app. simpl. rewrite length_app. simpl. lia.
Qed.

Lemma slice_middle (a b c' : gostring) :
  Regexp.slice (a ++ b ++ c') (length a) (length a + length b) = b.
Proof.
  unfold Regexp.slice. rewrite drop_app_length.
  replace (length a + length b - length a) with (length b) by lia.
  apply take_app_length.
Qed.

Lemma find_at_head re s e gs ge :
  Regexp.matchHere re s = Some (e, (gs, ge)) ->
  Regexp.FindStringSubmatch re s =
  [Regexp.slice s 0 e; Regexp.slice s gs ge].
Proof.
  intros H. unfold Regexp.FindStringSubmatch.
  destruct s as [|c s]; simpl; rewrite H; reflexivity.
Qed.

Lemma code_submatch_tag ws x body :
  Forall (fun y => Regexp.cmatch Regexp.CSpace y = true) ws ->
  Regexp.cmatch Regexp.CSpace x = false ->
  x <> "="%char -> "%"%char ∉ body ->
  Regexp.FindStringSubmatch codeRegex
    (str "<%" ++ ws ++ x :: body ++ str "%>") =
  [str "<%" ++ ws ++ x :: body ++ str "%>"; x :: body].
Proof.
  intros Hws Hx Hne Hbody.
  pose proof (code_match_tag ws x body [] Hws Hx Hne Hbody) as H.
  rewrite app_nil_r in H. rewrite (find_at_head _ _ _ _ _ H). f_equal.
  - unfold Regexp.slice. rewrite drop_0, Nat.sub_0_r. apply take_ge. lia.
  - f_equal.
    change (str "<%" ++ ws ++ x :: body ++ str "%>")
      with ((str "<%" ++ ws) ++ (x :: body) ++ str "%>").
    replace (2 + length ws) with (length (str "<%" ++ ws)) by reflexivity.
    change (S (length body)) with (length (x :: body)).
    apply slice_middle.
Qed.

Lemma output_submatch_tag ws x body :
  Forall (fun y => Regexp.cmatch Regexp.CSpace y = true) ws ->
  Regexp.cmatch Regexp.CSpace x = false ->
  x <> "%"%char -> "%"%char ∉ body ->
  Regexp.FindStringSubmatch outputRegex
    (str "<%=" ++ ws ++ x :: body ++ str "%>") =
  [str "<%=" ++ ws ++ x :: body ++ str "%>"; x :: body].
Proof.
  intros Hws Hx Hne Hbody.
  pose proof (output_match_tag ws x body [] Hws Hx Hne Hbody) as H.
  rewrite app_nil_r in H. rewrite (find_at_head _ _ _ _ _ H). f_equal.
  - unfold Regexp.slice. rewrite drop_0, Nat.sub_0_r. apply take_ge. lia.
  - f_equal.
    change (str "<%=" ++ ws ++ x :: body ++ str "%>")
      with ((str "<%=" ++ ws) ++ (x :: body) ++ str "%>").
    replace (3 + length ws) with (length (str "<%=" ++ ws)) by reflexivity.
    change (S (length body)) with (length (x :: body)).
    apply slice_middle.
Qed.

(** ** Matches and tag boundaries *)

(** A match cannot run from the text before a tag into the tag: it would
    have to hold the [%] of the tag's [<%]. *)
Lemma align_rest : forall (rest u t tail : gostring) c,
  "%"%char ∉ rest -> c <> ">"%char ->
  u ++ "<"%char :: "%"%char :: c :: t = rest ++ "%"%char :: ">"%char :: tail ->
  length rest + 2 <= length u.
Proof.
  induction rest as [|r rest IH]; intros u t tail c Hr Hc H; simpl in *.
  - destruct u as [|a [|b u]]; simpl in *; try lia; discriminate.
  - apply not_elem_of_cons in Hr as [Hr0 Hr].
    destruct u as [|a u]; simpl in *.
    + injection H as <- H. destruct rest as [|r' rest]; simpl in H.
      * injection H as ->. contradiction.
      * injection H as <- _. exfalso. apply Hr. left.
    + injection H as _ H. apply IH in H; [lia | assumption | assumption].
Qed.

Lemma align_ws : forall (ws u t rest tail : gostring) c x,
  Forall (fun y => Regexp.cmatch Regexp.CSpace y = true) ws ->
  "%"%char ∉ rest -> c <> ">"%char ->
  u ++ "<"%char :: "%"%char :: c :: t =
  ws ++ x :: rest ++ "%"%char :: ">"%char :: tail ->
  length ws + 1 + length rest + 2 <= length u.
Proof.
  induction ws as [|w ws IH]; intros u t rest tail c x Hws Hr Hc H; simpl in *.
  - destruct u as [|a u]; simpl in *.
    + injection H as <- H. destruct rest as [|r' rest]; simpl in H.
      * injection H as ->. contradiction.
      * injection H as <- _. exfalso. apply Hr. left.
    + injection H as _ H. apply align_rest in H; [lia | assumption | assumption].
  - inversion Hws as [|? ? Hw Hws']; subst.
    destruct u as [|a u]; simpl in *.
    + injection H as <- _. discriminate Hw.
    + injection H as _ H. apply IH in H; [lia | assumption..].
Qed.

Lemma code_no_straddle (u t : gostring) c e g :
  u <> [] -> c <> ">"%char ->
  Regexp.matchHere codeRegex (u ++ "<"%char :: "%"%char :: c :: t)
  = Some (e, g) ->
  e <= length u.
Proof.
  intros Hu Hc E.
  apply code_shape in E as (ws & x & rest & tail & H & -> & Hws & _ & Hrest).
  destruct u as [|a [|b u]]; [contradiction|discriminate|].
  simpl in H. injection H as _ _ H.
  apply align_ws in H; [simpl; lia | assumption..].
Qed.

Lemma output_no_straddle (u t : gostring) c e g :
  u <> [] -> c <> ">"%char ->
  Regexp.matchHere outputRegex (u ++ "<"%char :: "%"%char :: c :: t)
  = Some (e, g) ->
  e <= length u.
Proof.
  intros Hu Hc E.
  apply output_shape in E as (body & tail & H & -> & _ & Hbody).
  destruct u as [|a [|b [|c0 u]]]; [contradiction|discriminate|discriminate|].
  simpl in H. injection H as _ _ _ H.
  apply align_rest in H; [simpl; lia | assumption..].
Qed.

Lemma code_boundary_before_tag (u t : gostring) c :
  c <> ">"%char ->
  exists segsU,
    Regexp.segments codeRegex (u ++ "<"%char :: "%"%char :: c :: t) =
    segsU ++ Regexp.segments codeRegex ("<"%char :: "%"%char :: c :: t).
Proof.
  intros Hc.
  apply (segments_boundary codeRegex ltac:(auto with patterns) _ (length u) u);
    [lia|].
  intros k e g Hk E. rewrite <- length_drop.
  eapply code_no_straddle; [|exact Hc|exact E].
  intros Hnil. apply (f_equal length) in Hnil. rewrite length_drop in Hnil.
  simpl in Hnil. lia.
Qed.

Lemma output_boundary_before_tag (u t : gostring) c :
  c <> ">"%char ->
  exists segsU,
    Regexp.segments outputRegex (u ++ "<"%char :: "%"%char :: c :: t) =
    segsU ++ Regexp.segments outputRegex ("<"%char :: "%"%char :: c :: t).
Proof.
  intros Hc.
  apply (segments_boundary outputRegex ltac:(auto with patterns) _
           (length u) u); [lia|].
  intros k e g Hk E. rewrite <- length_drop.
  eapply output_no_straddle; [|exact Hc|exact E].
  intros Hnil. apply (f_equal length) in Hnil. rewrite length_drop in Hnil.
  simpl in Hnil. lia.
Qed.

(** ** An output tag under the code-block pattern *)

Lemma name_suffix_no_match re (name rest : gostring) :
  opensTag re -> "%"%char ∉ name ->
  forall j, j < length name + 3 ->
    Regexp.matchHere re (drop j (name ++ str " %>") ++ rest) = None.
Proof.
  intros Hre. induction name as [|x name IH]; intros Hn j Hj.
  - destruct j as [|[|[|j]]]; simpl in *; try lia;
      apply opensTag_head; (exact Hre || discriminate).
  - apply not_elem_of_cons in Hn as [Hx Hn].
    destruct j as [|j]; [|simpl; apply IH; [exact Hn | simpl in Hj; lia]].
    simpl. destruct name as [|y name]; simpl.
    + apply opensTag_second; [exact Hre | discriminate].
    + apply opensTag_second; [exact Hre|].
      intros ->. apply Hn. left.
Qed.

Lemma code_output_tag_text (name rest : gostring) :
  "%"%char ∉ name ->
  Regexp.segments codeRegex (outputTag name ++ rest) =
  map Regexp.Text (outputTag name) ++ Regexp.segments codeRegex rest.
Proof.
  intros Hn. apply segments_text_run.
  intros k Hk. unfold outputTag in *.
  destruct k as [|[|[|[|j]]]].
  - reflexivity.
  - simpl. apply opensTag_head; [exact codeRegex_opensTag | discriminate].
  - simpl. apply opensTag_head; [exact codeRegex_opensTag | discriminate].
  - simpl. apply opensTag_head; [exact codeRegex_opensTag | discriminate].
  - change (drop (S (S (S (S j)))) (str "<%= " ++ name ++ str " %>"))
      with (drop j (name ++ str " %>")).
    apply name_suffix_no_match;
      [exact codeRegex_opensTag | exact Hn|].
    simpl in Hk. rewrite length_app in Hk. simpl in Hk. lia.
Qed.

(** ** Trimming a tidy string *)

Lemma plain_not_space a : plain a = true -> Strings.asciiSpace a = false.
Proof.
  unfold plain. intros H. apply andb_true_iff in H as [H _].
  apply negb_true_iff in H. exact H.
Qed.

Lemma plain_not_high a c :
  plain a = true -> 128 <= nat_of_ascii c -> Ascii.eqb a c = false.
Proof.
  unfold plain. intros H Hc. apply andb_true_iff in H as [_ H].
  apply Nat.ltb_lt in H.
  destruct (Ascii.eqb a c) eqn:E; [|reflexivity].
  apply Ascii.eqb_eq in E. subst. lia.
Qed.

Lemma plain_not_cspace a :
  plain a = true -> Regexp.cmatch Regexp.CSpace a = false.
Proof.
  intros H. apply plain_not_space in H. unfold Strings.asciiSpace in H.
  simpl. repeat (apply orb_false_iff in H as [H ?]).
  repeat match goal with E : _ = false |- _ => rewrite E; clear E end.
  reflexivity.
Qed.

Lemma TrimLeft_plain a r :
  plain a = true -> Strings.TrimLeft (a :: r) = a :: r.
Proof.
  intros H. simpl. rewrite (plain_not_space _ H).
  assert (H2 : forall b, Strings.space2 a b = false).
  { intros b. unfold Strings.space2.
    rewrite (plain_not_high a "194" H) by (vm_compute; lia). reflexivity. }
  assert (H3 : forall b b', Strings.space3 a b b' = false).
  { intros b b'. unfold Strings.space3.
    rewrite (plain_not_high a "225" H) by (vm_compute; lia).
    rewrite (plain_not_high a "226" H) by (vm_compute; lia).
    rewrite (plain_not_high a "227" H) by (vm_compute; lia). reflexivity. }
  destruct r as [|b2 [|b3 r3]]; rewrite ?H2, ?H3; reflexivity.
Qed.

Lemma trimRev_plain a r :
  plain a = true -> Strings.trimRev (a :: r) = a :: r.
Proof.
  intros H. simpl. rewrite (plain_not_space _ H).
  assert (H2 : forall b, Strings.space2 b a = false).
  { intros b. unfold Strings.space2.
    rewrite (plain_not_high a "133" H) by (vm_compute; lia).
    rewrite (plain_not_high a "160" H) by (vm_compute; lia).
    apply andb_false_r. }
  assert (H3 : forall b b', Strings.space3 b b' a = false).
  { intros b b'. unfold Strings.space3.
    rewrite (plain_not_high a "128" H) by (vm_compute; lia).
    rewrite (plain_not_high a "168" H) by (vm_compute; lia).
    rewrite (plain_not_high a "169" H) by (vm_compute; lia).
    rewrite (plain_not_high a "175" H) by (vm_compute; lia).
    rewrite (plain_not_high a "159" H) by (vm_compute; lia).
    assert (Hlo : (128 <=? nat_of_ascii a) = false).
    { unfold plain in H. apply andb_true_iff in H as [_ H].
      apply Nat.ltb_lt in H. apply Nat.leb_gt. exact H. }
    rewrite Hlo. simpl. rewrite !andb_false_r. reflexivity. }
  destruct r as [|b2 [|b3 r3]]; rewrite ?H2, ?H3; reflexivity.
Qed.

Lemma TrimLeft_spaces ws s :
  Forall (fun y => Strings.asciiSpace y = true) ws ->
  Strings.TrimLeft (ws ++ s) = Strings.TrimLeft s.
Proof.
  induction 1 as [|w ws Hw _ IH]; [reflexivity|].
  simpl. rewrite Hw. exact IH.
Qed.

Lemma trimRev_spaces ws s :
  Forall (fun y => Strings.asciiSpace y = true) ws ->
  Strings.trimRev (ws ++ s) = Strings.trimRev s.
Proof.
  induction 1 as [|w ws Hw _ IH]; [reflexivity|].
  simpl. rewrite Hw. exact IH.
Qed.

Lemma TrimSpace_tidy ws1 core ws2 :
  Forall (fun y => Strings.asciiSpace y = true) ws1 ->
  Forall (fun y => Strings.asciiSpace y = true) ws2 ->
  tidy core = true ->
  Strings.TrimSpace (ws1 ++ core ++ ws2) = core.
Proof.
  intros H1 H2 Ht. unfold tidy in Ht.
  destruct core as [|a r]; [discriminate|]. simpl head in Ht.
  destruct (last (a :: r)) as [b|] eqn:El; [|discriminate].
  apply andb_true_iff in Ht as [Ha Hb].
  apply last_Some in El as [l' El].
  unfold Strings.TrimSpace. rewrite TrimLeft_spaces by exact H1.
  change ((a :: r) ++ ws2) with (a :: (r ++ ws2)).
  rewrite TrimLeft_plain by exact Ha.
  change (a :: (r ++ ws2)) with ((a :: r) ++ ws2).
  unfold Strings.TrimRight. rewrite rev_app_distr.
  rewrite trimRev_spaces by (apply Forall_rev; exact H2).
  rewrite El, rev_unit, trimRev_plain by exact Hb.
  rewrite <- rev_unit. apply rev_involutive.
Qed.

Lemma SplitN_one s sep : Strings.SplitN s sep 1 = [s].
Proof. destruct s; reflexivity. Qed.

Lemma SplitN_first sep (l r : gostring) :
  sep ∉ l -> Strings.SplitN (l ++ sep :: r) sep 2 = [l; r].
Proof.
  induction l as [|x l IH]; intros H.
  - simpl. rewrite Ascii.eqb_refl, SplitN_one. reflexivity.
  - apply not_elem_of_cons in H as [Hx Hl].
    change (Strings.SplitN ((x :: l) ++ sep :: r) sep 2)
      with (if Ascii.eqb x sep then [] :: Strings.SplitN (l ++ sep :: r) sep 1
            else match Strings.SplitN (l ++ sep :: r) sep 2 with
                 | h :: t => (x :: h) :: t
                 | [] => [[x]]
                 end).
    destruct (Ascii.eqb x sep) eqn:E.
    + apply Ascii.eqb_eq in E. congruence.
    + rewrite IH by exact Hl. reflexivity.
Qed.

(** ** The two directives of an assignment and its use *)

Lemma wellFormedName_head name :
  wellFormedName name ->
  exists n0 name',
    name = n0 :: name' /\ plain n0 = true /\
    n0 <> "="%char /\ n0 <> "%"%char /\
    ("%"%char ∉ name') /\ ("="%char ∉ name').
Proof.
  intros (Ht & Hp & He). unfold tidy in Ht.
  destruct name as [|n0 name']; [discriminate|]. simpl head in Ht.
  destruct (last (n0 :: name')); [|discriminate].
  apply andb_true_iff in Ht as [Hn0 _].
  apply not_elem_of_cons in Hp as [Hp0 Hp].
  apply not_elem_of_cons in He as [He0 He].
  exists n0, name'. repeat split; try assumption; congruence.
Qed.

Lemma tidy_quoted value : tidy (dquote :: value ++ [dquote]) = true.
Proof.
  unfold tidy. simpl head.
  change (dquote :: value ++ [dquote]) with ((dquote :: value) ++ [dquote]).
  rewrite last_snoc. reflexivity.
Qed.

Lemma tidy_assignment name value :
  tidy name = true ->
  tidy (name ++ str " = " ++ [dquote] ++ value ++ [dquote]) = true.
Proof.
  unfold tidy. destruct name as [|n0 name']; [discriminate|]. simpl head.
  destruct (last (n0 :: name')); [|discriminate]. intros H.
  apply andb_true_iff in H as [H _].
  replace ((n0 :: name') ++ str " = " ++ [dquote] ++ value ++ [dquote])
    with (((n0 :: name') ++ str " = " ++ [dquote] ++ value) ++ [dquote])
    by (rewrite <- !app_assoc; reflexivity).
  rewrite last_snoc. cbn [head app]. rewrite H. reflexivity.
Qed.

Lemma codeRepl_assign name value d :
  wellFormedName name -> "%"%char ∉ value ->
  TemplateProcessor.codeRepl (assignTag name value) d =
  Done ([], <[name := VString value]> d).
Proof.
  intros Hwf Hv. pose proof Hwf as (Htidy & Hnp & Hne).
  destruct (wellFormedName_head _ Hwf)
    as (n0 & name' & -> & Hn0 & Hn0e & Hn0p & Hp' & He').
  assert (Htag : assignTag (n0 :: name') value =
                 str "<%" ++ [" "%char] ++
                 n0 :: (name' ++ str " = " ++ [dquote] ++ value ++
                        [dquote] ++ [" "%char]) ++ str "%>").
  { unfold assignTag. simpl. rewrite <- !app_assoc. simpl.
    rewrite <- !app_assoc. reflexivity. }
  unfold TemplateProcessor.codeRepl. rewrite Htag.
  rewrite code_submatch_tag.
  2: { repeat constructor. }
  2: { apply plain_not_cspace. exact Hn0. }
  2: { exact Hn0e. }
  2: { intros Hin. apply elem_of_app in Hin as [Hin|Hin]; [contradiction|].
       simpl in Hin.
       repeat (apply elem_of_cons in Hin as [Hin|Hin]; [discriminate|]).
       apply elem_of_app in Hin as [Hin|Hin]; [contradiction|].
       repeat (apply elem_of_cons in Hin as [Hin|Hin]; [discriminate|]).
       inversion Hin. }
  replace (n0 :: name' ++ str " = " ++ [dquote] ++ value ++ [dquote] ++
           [" "%char])
    with ([] ++ ((n0 :: name') ++ str " = " ++ [dquote] ++ value ++ [dquote])
          ++ [" "%char])
    by (simpl; rewrite <- !app_assoc; simpl; rewrite <- !app_assoc; reflexivity).
  rewrite TrimSpace_tidy;
    [|constructor|repeat constructor|apply tidy_assignment; exact Htidy].
  assert (Hc : Strings.Contains
                 ((n0 :: name') ++ str " = " ++ [dquote] ++ value ++ [dquote])
                 (str "=") = true).
  { apply Contains_singleton. apply elem_of_app. right.
    apply elem_of_cons. right. left. }
  rewrite Hc.
  replace ((n0 :: name') ++ str " = " ++ [dquote] ++ value ++ [dquote])
    with (((n0 :: name') ++ [" "%char]) ++
          "="%char :: (" "%char :: dquote :: value ++ [dquote]))
    by (rewrite <- !app_assoc; reflexivity).
  rewrite SplitN_first.
  2: { intros Hin. apply elem_of_app in Hin as [Hin|Hin]; [contradiction|].
       apply elem_of_cons in Hin as [Hin|Hin]; [discriminate|inversion Hin]. }
  replace ((n0 :: name') ++ [" "%char])
    with ([] ++ (n0 :: name') ++ [" "%char]) by reflexivity.
  rewrite TrimSpace_tidy; [|constructor|repeat constructor|exact Htidy].
  replace (" "%char :: dquote :: value ++ [dquote])
    with ([" "%char] ++ (dquote :: value ++ [dquote]) ++ [])
    by (rewrite app_nil_r; reflexivity).
  rewrite TrimSpace_tidy;
    [|repeat constructor|constructor|apply tidy_quoted].
  assert (Hs : Strings.HasSuffix (dquote :: value ++ [dquote]) [dquote] = true).
  { unfold Strings.HasSuffix.
    change (dquote :: value ++ [dquote]) with ((dquote :: value) ++ [dquote]).
    rewrite rev_unit. reflexivity. }
  rewrite Hs. simpl Strings.HasPrefix. simpl andb.
  assert (HL : length (dquote :: value ++ [dquote]) = S (S (length value))).
  { simpl. rewrite length_app. simpl. lia. }
  unfold bind, sliceOrPanic, setData, ret. rewrite HL.
  replace (S (S (length value)) - 1) with (S (length value)) by lia.
  replace ((1 <=? S (length value)) &&
           (S (length value) <=? S (S (length value)))) with true.
  2: { symmetry. apply andb_true_iff. split; apply Nat.leb_le; lia. }
  unfold Regexp.slice.
  change (drop 1 (dquote :: value ++ [dquote])) with (value ++ [dquote]).
  replace (S (length value) - 1) with (length value) by lia.
  rewrite take_app_length. reflexivity.
Qed.

Lemma outputRepl_tag c name d :
  wellFormedName name ->
  TemplateProcessor.outputRepl c (outputTag name) d =
  Done (TemplateProcessor.evaluate c d name, d).
Proof.
  intros Hwf. pose proof Hwf as (Htidy & Hnp & Hne).
  destruct (wellFormedName_head _ Hwf)
    as (n0 & name' & -> & Hn0 & Hn0e & Hn0p & Hp' & He').
  assert (Htag : outputTag (n0 :: name') =
                 str "<%=" ++ [" "%char] ++
                 n0 :: (name' ++ [" "%char]) ++ str "%>").
  { unfold outputTag. simpl. rewrite <- !app_assoc. reflexivity. }
  unfold TemplateProcessor.outputRepl. rewrite Htag.
  rewrite output_submatch_tag.
  2: { repeat constructor. }
  2: { apply plain_not_cspace. exact Hn0. }
  2: { exact Hn0p. }
  2: { intros Hin. apply elem_of_app in Hin as [Hin|Hin]; [contradiction|].
       apply elem_of_cons in Hin as [Hin|Hin]; [discriminate|inversion Hin]. }
  replace (n0 :: name' ++ [" "%char])
    with ([] ++ (n0 :: name') ++ [" "%char]) by reflexivity.
  rewrite TrimSpace_tidy; [|constructor|repeat constructor|exact Htidy].
  reflexivity.
Qed.


(** ** Where the scanner cuts around the two directives *)

Lemma assignTag_shape name value :
  wellFormedName name -> "%"%char ∉ value ->
  exists n0 body,
    assignTag name value = str "<%" ++ [" "%char] ++ n0 :: body ++ str "%>" /\
    Regexp.cmatch Regexp.CSpace n0 = false /\
    n0 <> "="%char /\ "%"%char ∉ body.
Proof.
  intros Hwf Hv.
  destruct (wellFormedName_head _ Hwf)
    as (n0 & name' & -> & Hn0 & Hn0e & Hn0p & Hp' & He').
  exists n0, (name' ++ str " = " ++ [dquote] ++ value ++ [dquote] ++ [" "%char]).
  repeat split.
  - unfold assignTag. simpl. rewrite <- !app_assoc. simpl.
    rewrite <- !app_assoc. reflexivity.
  - apply plain_not_cspace. exact Hn0.
  - exact Hn0e.
  - intros Hin. apply elem_of_app in Hin as [Hin|Hin]; [contradiction|].
    simpl in Hin.
    repeat (apply elem_of_cons in Hin as [Hin|Hin]; [discriminate|]).
    apply elem_of_app in Hin as [Hin|Hin]; [contradiction|].
    repeat (apply elem_of_cons in Hin as [Hin|Hin]; [discriminate|]).
    inversion Hin.
Qed.

Lemma outputTag_shape name :
  wellFormedName name ->
  exists n0 body,
    outputTag name = str "<%=" ++ [" "%char] ++ n0 :: body ++ str "%>" /\
    Regexp.cmatch Regexp.CSpace n0 = false /\
    n0 <> "%"%char /\ "%"%char ∉ body.
Proof.
  intros Hwf.
  destruct (wellFormedName_head _ Hwf)
    as (n0 & name' & -> & Hn0 & Hn0e & Hn0p & Hp' & He').
  exists n0, (name' ++ [" "%char]). repeat split.
  - unfold outputTag. simpl. rewrite <- !app_assoc. reflexivity.
  - apply plain_not_cspace. exact Hn0.
  - exact Hn0p.
  - intros Hin. apply elem_of_app in Hin as [Hin|Hin]; [contradiction|].
    apply elem_of_cons in Hin as [Hin|Hin]; [discriminate|inversion Hin].
Qed.

Lemma code_hit_assign name value post :
  wellFormedName name -> "%"%char ∉ value ->
  Regexp.segments codeRegex (assignTag name value ++ post) =
  Regexp.Hit (assignTag name value) :: Regexp.segments codeRegex post.
Proof.
  intros Hwf Hv.
  destruct (assignTag_shape name value Hwf Hv)
    as (n0 & body & Htag & Hn0 & Hne & Hbody).
  pose proof (code_match_tag [" "%char] n0 body post
                ltac:(repeat constructor) Hn0 Hne Hbody) as Hm.
  rewrite <- Htag in Hm.
  replace (str "<%" ++ [" "%char] ++ n0 :: body ++ str "%>" ++ post)
    with (assignTag name value ++ post) in Hm
    by (rewrite Htag; simpl; rewrite <- !app_assoc; reflexivity).
  rewrite (segments_hit codeRegex ltac:(auto with patterns) _ _ _ Hm).
  rewrite take_app_length, drop_app_length. reflexivity.
Qed.

Lemma output_hit_tag name rest :
  wellFormedName name ->
  Regexp.segments outputRegex (outputTag name ++ rest) =
  Regexp.Hit (outputTag name) :: Regexp.segments outputRegex rest.
Proof.
  intros Hwf.
  destruct (outputTag_shape name Hwf) as (n0 & body & Htag & Hn0 & Hne & Hbody).
  pose proof (output_match_tag [" "%char] n0 body rest
                ltac:(repeat constructor) Hn0 Hne Hbody) as Hm.
  rewrite <- Htag in Hm.
  replace (str "<%=" ++ [" "%char] ++ n0 :: body ++ str "%>" ++ rest)
    with (outputTag name ++ rest) in Hm
    by (rewrite Htag; simpl; rewrite <- !app_assoc; reflexivity).
  rewrite (segments_hit outputRegex ltac:(auto with patterns) _ _ _ Hm).
  rewrite take_app_length, drop_app_length. reflexivity.
Qed.

Lemma code_split_at_assign pre name value post :
  wellFormedName name -> "%"%char ∉ value ->
  exists segsPre,
    Regexp.segments codeRegex (pre ++ assignTag name value ++ post) =
    segsPre ++ Regexp.Hit (assignTag name value)
            :: Regexp.segments codeRegex post.
Proof.
  intros Hwf Hv.
  destruct (code_boundary_before_tag pre
              (name ++ str " = " ++ [dquote] ++ value ++ [dquote] ++
               str " %>" ++ post) " "%char ltac:(discriminate))
    as [segs Hsegs].
  exists segs. rewrite <- code_hit_assign by assumption.
  assert (Heq : assignTag name value ++ post =
                "<"%char :: "%"%char :: " "%char ::
                name ++ str " = " ++ [dquote] ++ value ++ [dquote] ++
                str " %>" ++ post).
  { unfold assignTag. simpl. rewrite <- !app_assoc. simpl.
    rewrite <- !app_assoc. reflexivity. }
  rewrite Heq. exact Hsegs.
Qed.

Lemma code_split_at_output pre name rest :
  "%"%char ∉ name ->
  exists segsPre,
    Regexp.segments codeRegex (pre ++ outputTag name ++ rest) =
    segsPre ++ map Regexp.Text (outputTag name)
            ++ Regexp.segments codeRegex rest.
Proof.
  intros Hn.
  destruct (code_boundary_before_tag pre
              (" "%char :: name ++ str " %>" ++ rest) "="%char
              ltac:(discriminate))
    as [segs Hsegs].
  exists segs. rewrite <- code_output_tag_text by assumption.
  assert (Heq : outputTag name ++ rest =
                "<"%char :: "%"%char :: "="%char :: " "%char ::
                name ++ str " %>" ++ rest).
  { unfold outputTag. simpl. rewrite <- !app_assoc. reflexivity. }
  rewrite Heq. exact Hsegs.
Qed.

Lemma output_split_at_output pre name rest :
  wellFormedName name ->
  exists segsPre,
    Regexp.segments outputRegex (pre ++ outputTag name ++ rest) =
    segsPre ++ Regexp.Hit (outputTag name)
            :: Regexp.segments outputRegex rest.
Proof.
  intros Hwf.
  destruct (output_boundary_before_tag pre
              (" "%char :: name ++ str " %>" ++ rest) "="%char
              ltac:(discriminate))
    as [segs Hsegs].
  exists segs. rewrite <- output_hit_tag by assumption.
  assert (Heq : outputTag name ++ rest =
                "<"%char :: "%"%char :: "="%char :: " "%char ::
                name ++ str " %>" ++ rest).
  { unfold outputTag. simpl. rewrite <- !app_assoc. reflexivity. }
  rewrite Heq. exact Hsegs.
Qed.

(** ** Running the passes over the pieces *)

Lemma replaceSegments_app_Done repl l1 l2 d r d' :
  replaceSegments repl (l1 ++ l2) d = Done (r, d') ->
  exists r1 d1 r2,
    replaceSegments repl l1 d = Done (r1, d1) /\
    replaceSegments repl l2 d1 = Done (r2, d') /\
    r = r1 ++ r2.
Proof.
  rewrite replaceSegments_app. unfold bind, ret.
  destruct (replaceSegments repl l1 d) as [[r1 d1]| |] eqn:E1; try discriminate.
  destruct (replaceSegments repl l2 d1) as [[r2 d2]| |] eqn:E2; try discriminate.
  intros [= <- <-]. exists r1, d1, r2.
  split; [reflexivity|]. split; [exact E2 | reflexivity].
Qed.

Lemma replaceSegments_hit_Done repl m l d r d' :
  replaceSegments repl (Regexp.Hit m :: l) d = Done (r, d') ->
  exists x dx r2,
    repl m d = Done (x, dx) /\
    replaceSegments repl l dx = Done (r2, d') /\
    r = x ++ r2.
Proof.
  simpl. unfold bind, ret.
  destruct (repl m d) as [[x dx]| |] eqn:E1; try discriminate.
  destruct (replaceSegments repl l dx) as [[r2 d2]| |] eqn:E2; try discriminate.
  intros [= <- <-]. exists x, dx, r2.
  split; [reflexivity|]. split; [exact E2 | reflexivity].
Qed.

(** Code blocks that do not write [name] leave its binding alone. *)
Lemma replaceSegments_keeps_key (name : gostring) segs : forall d r d',
  (forall m, Regexp.Hit m ∈ segs ->
     forall d1 r1 d1', TemplateProcessor.codeRepl m d1 = Done (r1, d1') ->
                       d1' !! name = d1 !! name) ->
  replaceSegments TemplateProcessor.codeRepl segs d = Done (r, d') ->
  d' !! name = d !! name.
Proof.
  induction segs as [|seg segs IH]; intros d r d' Hk H.
  - simpl in H. injection H as _ <-. reflexivity.
  - assert (Hk' : forall m, Regexp.Hit m ∈ segs ->
              forall d1 r1 d1',
                TemplateProcessor.codeRepl m d1 = Done (r1, d1') ->
                d1' !! name = d1 !! name).
    { intros m Hm. apply Hk. right. exact Hm. }
    destruct seg as [ch|m].
    + simpl in H. unfold bind, ret in H.
      destruct (replaceSegments _ segs d) as [[r2 d2]| |] eqn:E;
        try discriminate.
      injection H as _ <-. eapply IH; eassumption.
    + apply replaceSegments_hit_Done in H as (x & dx & r2 & Hm & Hrest & _).
      rewrite (IH _ _ _ Hk' Hrest). eapply Hk; [left | exact Hm].
Qed.

(** The code pass never exceeds a depth. *)
Lemma code_pass_not_OutOfFuel segs : forall d,
  replaceSegments TemplateProcessor.codeRepl segs d <> OutOfFuel.
Proof.
  induction segs as [|seg segs IH]; intros d; simpl; [discriminate|].
  destruct seg as [ch|m]; unfold bind, ret.
  - specialize (IH d).
    destruct (replaceSegments _ segs d) as [[r d']| |];
      [discriminate | discriminate | contradiction].
  - destruct (codeRepl_cases m) as [[msg Hm]|[[r Hm]|(r & k & v & Hm)]];
      rewrite Hm; [discriminate| |].
    + specialize (IH d).
      destruct (replaceSegments _ segs d) as [[r' d']| |];
        [discriminate | discriminate | contradiction].
    + specialize (IH (<[k:=VString v]> d)).
      destruct (replaceSegments _ segs _) as [[r' d']| |];
        [discriminate | discriminate | contradiction].
Qed.

Lemma code_pass_at_assign pre name value post d c2 d4 :
  wellFormedName name -> "%"%char ∉ value ->
  (forall m, Regexp.Hit m ∈ Regexp.segments codeRegex post ->
     forall d1 r1 d1', TemplateProcessor.codeRepl m d1 = Done (r1, d1') ->
                       d1' !! name = d1 !! name) ->
  TemplateProcessor.processCodeExpressions
    (pre ++ assignTag name value ++ post) d = Done (c2, d4) ->
  d4 !! name = Some (VString value) /\
  exists xpre d3 xpost,
    c2 = xpre ++ xpost /\
    TemplateProcessor.processCodeExpressions post d3 = Done (xpost, d4).
Proof.
  intros Hwf Hv Hlast H.
  unfold TemplateProcessor.processCodeExpressions, ReplaceAllStringFunc in *.
  destruct (code_split_at_assign pre name value post Hwf Hv) as [segs Hsegs].
  rewrite Hsegs in H.
  apply replaceSegments_app_Done in H as (xpre & d2 & r2 & Hpre & H & ->).
  apply replaceSegments_hit_Done in H as (x & dx & xpost & Hm & Hpost & ->).
  rewrite codeRepl_assign in Hm by assumption. injection Hm as <- <-.
  split.
  - rewrite (replaceSegments_keeps_key name _ _ _ _ Hlast Hpost).
    apply lookup_insert_eq.
  - exists xpre, (<[name:=VString value]> d2), xpost. split; [reflexivity|].
    exact Hpost.
Qed.

Lemma code_pass_through_output u name v d r d' :
  "%"%char ∉ name ->
  TemplateProcessor.processCodeExpressions (u ++ outputTag name ++ v) d
  = Done (r, d') ->
  exists xu du xv,
    r = xu ++ outputTag name ++ xv /\
    TemplateProcessor.processCodeExpressions v du = Done (xv, d').
Proof.
  intros Hn H.
  unfold TemplateProcessor.processCodeExpressions, ReplaceAllStringFunc in *.
  destruct (code_split_at_output u name v Hn) as [segs Hsegs].
  rewrite Hsegs in H.
  apply replaceSegments_app_Done in H as (xu & du & r2 & Hu & H & ->).
  apply replaceSegments_app_Done in H as (xo & do & xv & Ho & Hv & ->).
  rewrite replaceSegments_text in Ho. injection Ho as <- <-.
  exists xu, du, xv. split; [reflexivity | exact Hv].
Qed.

Lemma code_pass_result pre name value post d c2 d4 :
  wellFormedName name -> "%"%char ∉ value ->
  occursIn (outputTag name) pre \/ occursIn (outputTag name) post ->
  (forall m, Regexp.Hit m ∈ Regexp.segments codeRegex post ->
     forall d1 r1 d1', TemplateProcessor.codeRepl m d1 = Done (r1, d1') ->
                       d1' !! name = d1 !! name) ->
  TemplateProcessor.processCodeExpressions
    (pre ++ assignTag name value ++ post) d = Done (c2, d4) ->
  d4 !! name = Some (VString value) /\
  exists X Y, c2 = X ++ outputTag name ++ Y.
Proof.
  intros Hwf Hv Hocc Hlast H. pose proof Hwf as (_ & Hnp & _).
  destruct Hocc as [(p1 & p2 & ->)|(q1 & q2 & ->)].
  - rewrite <- !app_assoc in H.
    apply code_pass_through_output in H as (xu & du & xv & -> & H);
      [|exact Hnp].
    apply code_pass_at_assign in H as [Hd _]; try assumption.
    split; [exact Hd|]. exists xu, xv. reflexivity.
  - apply code_pass_at_assign in H as [Hd (xpre & d3 & xpost & -> & H)];
      try assumption.
    split; [exact Hd|].
    apply code_pass_through_output in H as (xu & du & xv & -> & _);
      [|exact Hnp].
    exists (xpre ++ xu), xv. rewrite <- app_assoc. reflexivity.
Qed.

Lemma output_pass_at_tag c X name Y value d :
  wellFormedName name ->
  d !! name = Some (VString value) ->
  exists r,
    TemplateProcessor.processOutputTags c (X ++ outputTag name ++ Y) d
    = Done (r, d) /\
    occursIn value r.
Proof.
  intros Hwf Hd.
  unfold TemplateProcessor.processOutputTags, ReplaceAllStringFunc.
  destruct (output_split_at_output X name Y Hwf) as [segs Hsegs].
  rewrite Hsegs, replaceSegments_app. unfold bind at 1.
  destruct (output_pass_total c segs d) as [rx Hx]. rewrite Hx.
  unfold bind at 1. simpl replaceSegments. unfold bind at 1.
  rewrite outputRepl_tag by exact Hwf. unfold bind at 1.
  destruct (output_pass_total c (Regexp.segments outputRegex Y) d) as [ry Hy].
  rewrite Hy. unfold ret.
  unfold TemplateProcessor.evaluate. rewrite Hd. simpl formatValue.
  eexists. split; [reflexivity|]. exists rx, ry. reflexivity.
Qed.

(** ** Assignments are visible across the document *)

(** C5, as amended.  Code blocks are all processed, left to right, before
    any output expression.  For a well-formed assignment
    [<% name = "value" %>] in the expanded document that no later code
    block overwrites, and an output tag [<%= name %>] anywhere before or
    after it, the render returns, unless some code block panics, and its
    output contains the value verbatim. *)
Theorem assignment_visible_document_wide
    (fs : FileSystem) (rootPath : gostring) (c : Context) (depth : nat)
    (d0 d1 : gmap gostring value)
    (content pre post name value : gostring) :
  wellFormedName name ->
  "%"%char ∉ value ->
  TemplateProcessor.processIncludes fs rootPath depth content d0 =
  Done (pre ++ assignTag name value ++ post, d1) ->
  occursIn (outputTag name) pre \/ occursIn (outputTag name) post ->
  (forall m, Regexp.Hit m ∈ Regexp.segments codeRegex post ->
     forall d r d', TemplateProcessor.codeRepl m d = Done (r, d') ->
                    d' !! name = d !! name) ->
  (forall msg,
     TemplateProcessor.processCodeExpressions
       (pre ++ assignTag name value ++ post) d1 <> Panic msg) ->
  exists out dEnd,
    TemplateProcessor.processTemplate fs rootPath c depth content d0 =
    Done ((out, None), dEnd) /\
    dEnd !! name = Some (VString value) /\
    occursIn value out.
Proof.
  intros Hwf Hv Hinc Hocc Hlast Hnopanic.
  unfold TemplateProcessor.processTemplate. unfold bind at 1. rewrite Hinc.
  unfold bind at 1.
  destruct (TemplateProcessor.processCodeExpressions
              (pre ++ assignTag name value ++ post) d1)
    as [[c2 d4]|msg|] eqn:Hcode.
  - destruct (code_pass_result _ _ _ _ _ _ _ Hwf Hv Hocc Hlast Hcode)
      as [Hd (X & Y & ->)].
    destruct (output_pass_at_tag c X name Y value d4 Hwf Hd) as (r & Hr & Ho).
    unfold bind. rewrite Hr. exists r, d4. repeat split; assumption.
  - exfalso. eapply Hnopanic. reflexivity.
  - exfalso. revert Hcode.
    unfold TemplateProcessor.processCodeExpressions, ReplaceAllStringFunc.
    apply code_pass_not_OutOfFuel.
Qed.

Lemma assignment_visible_document_wide_witness :
  exists out dEnd,
    TemplateProcessor.processTemplate Sample.fs Sample.root Sample.ctx 1
      ((str "<% greeting = " ++ [dquote] ++ str "Hi" ++ [dquote] ++
        str " %><%= who %>, ") ++
       assignTag (str "who") (str "World") ++
       str "<h1>Hello <%= who %></h1>") ∅ =
    Done ((out, None), dEnd) /\
    dEnd !! str "who" = Some (VString (str "World")) /\
    occursIn (str "World") out.
Proof.
  apply (assignment_visible_document_wide Sample.fs Sample.root Sample.ctx 1
           ∅ ∅ _
           (str "<% greeting = " ++ [dquote] ++ str "Hi" ++ [dquote] ++
            str " %><%= who %>, ")
           (str "<h1>Hello <%= who %></h1>")
           (str "who") (str "World")).
  - split; [reflexivity|].
    split; rewrite list_elem_of_In; simpl; intuition discriminate.
  - rewrite list_elem_of_In; simpl; intuition discriminate.
  - vm_compute. reflexivity.
  - right. exists (str "<h1>Hello "), (str "</h1>"). reflexivity.
  - intros m Hm. vm_compute in Hm. apply list_elem_of_In in Hm. simpl in Hm.
    repeat (destruct Hm as [Hm|Hm]; [discriminate|]). contradiction.
  - intros msg. vm_compute. discriminate.
Defined.

(** An assignment that a later code block overwrites is not visible: only
    the last value written to a name is rendered. *)
Lemma overwritten_assignment_counterexample :
  TemplateProcessor.processTemplate Sample.fs Sample.root Sample.ctx 1
    (assignTag (str "x") (str "1") ++ assignTag (str "x") (str "2") ++
     outputTag (str "x")) ∅ =
  Done ((str "2", None), <[str "x" := VString (str "2")]> ∅) /\
  ~ occursIn (str "1") (str "2").
Proof.
  split; [vm_compute; reflexivity|].
  intros (a & b & H). destruct a as [|x [|y a]]; simpl in H; discriminate.
Qed.


(** * Further properties of the code *)

(** ** Route registration *)

Section RouteFacts.
Context (ToUpper : gostring -> gostring).

Lemma registerMethod_elem route method r :
  r ∈ registerMethod ToUpper route method <->
  exists v, r = (v, Path route, TemplateHandler (File route)) /\
            ToUpper method = verbName v.
Proof.
  unfold registerMethod. split.
  - intros H. cbv zeta in H.
    repeat case_decide;
      try (apply list_elem_of_singleton in H; subst r; eexists; split;
           [reflexivity | eassumption]).
    inversion H.
  - intros (v & -> & Hv). rewrite Hv.
    destruct v; simpl; repeat (case_decide; try discriminate);
      try (apply list_elem_of_singleton; reflexivity);
      exfalso; auto.
Qed.

Lemma registerMethod_length route method :
  length (registerMethod ToUpper route method) <= 1.
Proof.
  unfold registerMethod. repeat case_decide; simpl; lia.
Qed.

Lemma registerMethod_template route method :
  Forall (fun r => exists f, r.2 = TemplateHandler f)
    (registerMethod ToUpper route method).
Proof.
  unfold registerMethod.
  repeat case_decide; repeat constructor; eexists; reflexivity.
Qed.

Lemma flat_map_length_le {A B} (f : A -> list B) l :
  (forall x, length (f x) <= 1) -> length (flat_map f l) <= length l.
Proof.
  intros H. induction l as [|x l IH]; simpl; [lia|].
  rewrite length_app. specialize (H x). lia.
Qed.

Lemma filter_flat_map {A B} (p : B -> bool) (f : A -> list B) l :
  List.filter p (flat_map f l) = flat_map (fun x => List.filter p (f x)) l.
Proof.
  induction l as [|x l IH]; simpl; [reflexivity|].
  rewrite List.filter_app, IH. reflexivity.
Qed.

Lemma registerMethod_embedded route method :
  Embedded.registerMethod ToUpper route method =
  List.filter (fun r => negb (isPatch r)) (registerMethod ToUpper route method).
Proof.
  unfold Embedded.registerMethod, registerMethod.
  repeat case_decide; try reflexivity;
    match goal with
    | H1 : ?x = str ?a, H2 : ?x = str ?b |- _ =>
        rewrite H1 in H2; discriminate H2
    end.
Qed.

End RouteFacts.

(** X1. The registrations of configured routes are exactly these: one for
    each method of each route whose upper-cased name is GET, POST, PUT,
    DELETE, PATCH or ANY, under the route's path and for the route's file.
    Any other method name registers nothing. *)
Theorem setupRoutes_registrations (ToUpper : gostring -> gostring)
    (routes : list Route) (v : verb) (path file : gostring) :
  (v, path, TemplateHandler file) ∈ setupRoutes ToUpper routes <->
  exists route method,
    route ∈ routes /\ method ∈ Methods route /\
    ToUpper method = verbName v /\
    Path route = path /\ File route = file.
Proof.
  unfold setupRoutes. rewrite elem_of_app, list_elem_of_singleton.
  rewrite list_elem_of_In, in_flat_map. split.
  - intros [(route & Hr & Hin)|H]; [|discriminate H].
    apply in_flat_map in Hin as (method & Hm & Hin).
    apply list_elem_of_In, registerMethod_elem in Hin as (v' & E & Hv).
    injection E as -> -> ->.
    exists route, method. rewrite !list_elem_of_In. auto.
  - intros (route & method & Hr & Hm & Hv & <- & <-). left.
    exists route. split; [apply list_elem_of_In; exact Hr|].
    apply in_flat_map. exists method.
    split; [apply list_elem_of_In; exact Hm|].
    apply list_elem_of_In, registerMethod_elem. exists v. auto.
Qed.

(** X2. The catch-all [/*] is registered once, after every configured
    route, and it is the only registration that is not bound to a route's
    file; each configured method accounts for at most one registration. *)
Theorem setupRoutes_catch_all_last (ToUpper : gostring -> gostring)
    (routes : list Route) :
  exists configured,
    setupRoutes ToUpper routes = configured ++ [catchAll] /\
    Forall (fun r => exists f, r.2 = TemplateHandler f) configured /\
    length configured <= length (flat_map Methods routes).
Proof.
  eexists. split; [reflexivity|]. split.
  - induction routes as [|route routes IH]; simpl; [constructor|].
    apply Forall_app. split; [|exact IH].
    induction (Methods route) as [|m ms IHm]; simpl; [constructor|].
    apply Forall_app. split; [apply registerMethod_template | exact IHm].
  - induction routes as [|route routes IH]; simpl; [lia|].
    rewrite !length_app.
    pose proof (flat_map_length_le (registerMethod ToUpper route)
                  (Methods route) (registerMethod_length ToUpper route)).
    lia.
Qed.

(** X3. The generated program registers what the server registers, in the
    same order, without the PATCH registrations. *)
Theorem embedded_routes_drop_patch (ToUpper : gostring -> gostring)
    (routes : list Route) :
  Embedded.setupRoutes ToUpper routes =
  List.filter (fun r => negb (isPatch r)) (setupRoutes ToUpper routes).
Proof.
  unfold Embedded.setupRoutes, setupRoutes.
  rewrite List.filter_app. f_equal.
  rewrite filter_flat_map. apply flat_map_ext. intros route.
  rewrite filter_flat_map. apply flat_map_ext. intros method.
  apply registerMethod_embedded.
Qed.


(** ** A match matches again on its own text

    The replacement functions run [FindStringSubmatch] on the text of the
    match they are handed.  The search finds that text again, whole: a
    match depends on no byte after its end. *)

Section Rematch.

(** A pattern that fails on a string fails on each of its prefixes. *)
Lemma star_then_extend p k (u : gostring) :
  (forall s pos, k (s ++ u) pos = None -> k s pos = None) ->
  forall s pos,
    Regexp.star_then p k (s ++ u) pos = None ->
    Regexp.star_then p k s pos = None.
Proof.
  intros Hk. induction s as [|x s IH]; intros pos H.
  - simpl. apply (Hk [] pos). simpl.
    destruct u as [|y u]; [exact H|]. simpl in H.
    destruct (p y); [|exact H].
    destruct (Regexp.star_then p k u (S pos)); [discriminate | exact H].
  - simpl in *. destruct (p x); [|apply Hk; exact H].
    destruct (Regexp.star_then p k (s ++ u) (S pos)) eqn:E; [discriminate|].
    rewrite (IH _ E). apply Hk. exact H.
Qed.

Lemma exec_extend re (u : gostring) : forall s pos g,
  Regexp.exec re (s ++ u) pos g = None -> Regexp.exec re s pos g = None.
Proof.
  induction re as [|a re IH]; intros s pos g; simpl.
  - discriminate.
  - destruct a as [c|k|k|k| |].
    + destruct s as [|x s]; [reflexivity|]. simpl.
      destruct (Ascii.eqb x c); [apply IH | reflexivity].
    + destruct s as [|x s]; [reflexivity|]. simpl.
      destruct (Regexp.cmatch k x); [apply IH | reflexivity].
    + apply star_then_extend. intros s' pos'. apply IH.
    + destruct s as [|x s]; [reflexivity|]. simpl.
      destruct (Regexp.cmatch k x); [|reflexivity].
      apply star_then_extend. intros s' pos'. apply IH.
    + apply IH.
    + apply IH.
Qed.

Lemma take_succ_cons (x : ascii) (s : gostring) pos e :
  pos < e -> take (e - pos) (x :: s) = x :: take (e - S pos) s.
Proof.
  intros H. replace (e - pos) with (S (e - S pos)) by lia. reflexivity.
Qed.

Lemma star_then_truncate p k :
  (forall s pos e g, k s pos = Some (e, g) -> pos <= e <= pos + length s) ->
  (forall s u pos, k (s ++ u) pos = None -> k s pos = None) ->
  (forall s pos e g,
     k s pos = Some (e, g) -> k (take (e - pos) s) pos = Some (e, g)) ->
  forall s pos e g,
    Regexp.star_then p k s pos = Some (e, g) ->
    Regexp.star_then p k (take (e - pos) s) pos = Some (e, g).
Proof.
  intros Hb Hx Ht.
  assert (Hk : forall s pos e g,
            k s pos = Some (e, g) ->
            Regexp.star_then p k (take (e - pos) s) pos = Some (e, g) \/
            exists x t, take (e - pos) s = x :: t /\ s = x :: t ++ drop (e - pos) s).
  { intros s pos e g H. destruct (take (e - pos) s) as [|x t] eqn:E.
    - left. simpl. rewrite <- E. apply Ht. exact H.
    - right. exists x, t. split; [reflexivity|].
      rewrite <- (take_drop (e - pos) s) at 1. rewrite E. reflexivity. }
  induction s as [|x s IH]; intros pos e g H.
  - simpl in H. rewrite take_nil. simpl.
    rewrite <- (take_nil (e - pos)). apply Ht. exact H.
  - simpl in H. destruct (p x) eqn:Hp.
    + destruct (Regexp.star_then p k s (S pos)) as [r|] eqn:E.
      * injection H as ->.
        pose proof (star_then_bound _ _ _ _ _ _ Hb E) as Hbd.
        rewrite take_succ_cons by lia. simpl. rewrite Hp.
        rewrite (IH _ _ _ E). reflexivity.
      * pose proof (Hb _ _ _ _ H) as Hbd.
        destruct (decide (e = pos)) as [->|Hne].
        -- rewrite Nat.sub_diag. simpl.
           pose proof (Ht _ _ _ _ H) as H0. rewrite Nat.sub_diag in H0.
           exact H0.
        -- pose proof (Ht _ _ _ _ H) as H0.
           rewrite take_succ_cons in H0 |- * by lia. simpl. rewrite Hp.
           assert (En : Regexp.star_then p k (take (e - S pos) s) (S pos)
                        = None).
           { apply (star_then_extend p k (drop (e - S pos) s)).
             - intros s' pos'. apply Hx.
             - rewrite take_drop. exact E. }
           rewrite En. exact H0.
    + pose proof (Hb _ _ _ _ H) as Hbd.
      destruct (decide (e = pos)) as [->|Hne].
      * rewrite Nat.sub_diag. simpl.
        pose proof (Ht _ _ _ _ H) as H0. rewrite Nat.sub_diag in H0.
        exact H0.
      * pose proof (Ht _ _ _ _ H) as H0.
        rewrite take_succ_cons in H0 |- * by lia. simpl. rewrite Hp.
        exact H0.
Qed.

Lemma exec_truncate re : forall s pos g e g',
  Regexp.exec re s pos g = Some (e, g') ->
  Regexp.exec re (take (e - pos) s) pos g = Some (e, g').
Proof.
  induction re as [|a re IH]; intros s pos g e g' H.
  - simpl in H. injection H as <- <-. rewrite Nat.sub_diag.
    destruct s; reflexivity.
  - pose proof (exec_bound _ _ _ _ _ _ H) as Hbd.
    simpl in H. destruct a as [c|k|k|k| |].
    + destruct s as [|x s]; [discriminate|].
      destruct (Ascii.eqb x c) eqn:E; [|discriminate].
      pose proof (exec_bound _ _ _ _ _ _ H) as Hb'.
      rewrite take_succ_cons by lia. simpl. rewrite E. apply IH. exact H.
    + destruct s as [|x s]; [discriminate|].
      destruct (Regexp.cmatch k x) eqn:E; [|discriminate].
      pose proof (exec_bound _ _ _ _ _ _ H) as Hb'.
      rewrite take_succ_cons by lia. simpl. rewrite E. apply IH. exact H.
    + simpl. apply star_then_truncate; try exact H.
      * intros s' pos' e' g''. apply exec_bound.
      * intros s' u pos'. apply exec_extend.
      * intros s' pos' e' g''. apply IH.
    + destruct s as [|x s]; [discriminate|].
      destruct (Regexp.cmatch k x) eqn:E; [|discriminate].
      assert (Hb' : S pos <= e).
      { eapply star_then_bound in H; [lia|].
        intros s' pos' e' g''. apply exec_bound. }
      rewrite take_succ_cons by lia. simpl. rewrite E.
      apply star_then_truncate; try exact H.
      * intros s' pos' e' g''. apply exec_bound.
      * intros s' u pos'. apply exec_extend.
      * intros s' pos' e' g''. apply IH.
    + simpl. apply IH. exact H.
    + simpl. apply IH. exact H.
Qed.

Lemma matchHere_truncate re s e g :
  Regexp.matchHere re s = Some (e, g) ->
  Regexp.matchHere re (take e s) = Some (e, g).
Proof.
  unfold Regexp.matchHere. intros H. apply exec_truncate in H.
  rewrite Nat.sub_0_r in H. exact H.
Qed.

Lemma scan_hit re : forall fuel s m,
  Regexp.Hit m ∈ Regexp.scan re fuel s ->
  exists s' e g, Regexp.matchHere re s' = Some (e, g) /\ m = take e s'.
Proof.
  induction fuel as [|fuel IH]; intros s m H; [inversion H|].
  simpl in H. destruct s as [|c s]; [inversion H|].
  destruct (Regexp.matchHere re (c :: s)) as [[e g]|] eqn:E.
  - apply elem_of_cons in H as [[= ->]|H]; [eauto | eapply IH; exact H].
  - apply elem_of_cons in H as [H|H]; [discriminate | eapply IH; exact H].
Qed.

(** Each match found in a document is matched again, in full and at its
    start, by a search on its own text. *)
Lemma hit_rematch re s m :
  Regexp.Hit m ∈ Regexp.segments re s ->
  exists group, Regexp.FindStringSubmatch re m = [m; group].
Proof.
  intros H. apply scan_hit in H as (s' & e & [gs ge] & Hm & ->).
  pose proof (matchHere_bound _ _ _ _ Hm) as Hb.
  apply matchHere_truncate in Hm. rewrite (find_at_head _ _ _ _ _ Hm).
  eexists. f_equal. unfold Regexp.slice.
  rewrite drop_0, Nat.sub_0_r. apply take_ge. rewrite length_take. lia.
Qed.

End Rematch.

(** X7. The guard [len(matches) < 2] of the three replacement functions
    never fires: for every match the include, code and output passes find
    in a document, [FindStringSubmatch] on the text of the match returns
    that text and its capture group. *)
Theorem submatch_guard_never_fires (re : Regexp.regex)
    (content m : gostring) :
  re = includeRegex \/ re = codeRegex \/ re = outputRegex ->
  Regexp.Hit m ∈ Regexp.segments re content ->
  exists group, Regexp.FindStringSubmatch re m = [m; group].
Proof. intros _. apply hit_rematch. Qed.

Lemma submatch_guard_never_fires_witness :
  exists group,
    Regexp.FindStringSubmatch codeRegex (str "<% x = 1 %>")
    = [str "<% x = 1 %>"; group].
Proof.
  apply (submatch_guard_never_fires codeRegex (str "a<% x = 1 %>b")
           (str "<% x = 1 %>")).
  - right. left. reflexivity.
  - rewrite list_elem_of_In. vm_compute. right. left. reflexivity.
Defined.


(** ** The segments of a document *)

Section Partition.
Context (re : Regexp.regex) (Hp : progressive re).

(** Scanning partitions the document: the segments spell it out again. *)
Lemma segments_concat : forall n s, length s <= n ->
  flat_map segmentText (Regexp.segments re s) = s.
Proof.
  induction n as [|n IH]; intros s Hn.
  - destruct s; [reflexivity | simpl in Hn; lia].
  - destruct s as [|c s]; [reflexivity|]. simpl in Hn.
    destruct (Regexp.matchHere re (c :: s)) as [[e g]|] eqn:E.
    + rewrite (segments_hit re Hp _ _ _ E). simpl.
      pose proof (Hp _ _ _ E) as He.
      rewrite IH by (rewrite length_drop; simpl; lia).
      apply take_drop.
    + rewrite segments_miss by exact E. simpl. f_equal. apply IH. lia.
Qed.

Lemma hit_bytes s m x :
  Regexp.Hit m ∈ Regexp.segments re s -> x ∈ m -> x ∈ s.
Proof.
  intros Hm Hx. rewrite <- (segments_concat (length s) s (le_n _)).
  apply list_elem_of_In, in_flat_map. exists (Regexp.Hit m).
  split; apply list_elem_of_In; assumption.
Qed.

End Partition.

Lemma slice_bytes (s : gostring) lo hi x :
  x ∈ Regexp.slice s lo hi -> x ∈ s.
Proof.
  unfold Regexp.slice. intros H.
  apply (subseteq_drop lo s), (subseteq_take (hi - lo)). exact H.
Qed.

Lemma submatch_bytes re m w body rest x :
  Regexp.FindStringSubmatch re m = w :: body :: rest -> x ∈ body -> x ∈ m.
Proof.
  unfold Regexp.FindStringSubmatch.
  destruct (Regexp.find re m 0) as [[b [e [gs ge]]]|]; [|discriminate].
  intros [= _ <- _]. apply slice_bytes.
Qed.

Lemma TrimSpace_bytes s x : x ∈ Strings.TrimSpace s -> x ∈ s.
Proof.
  destruct (TrimSpace_split s) as (u1 & u2 & H & _). intros Hx.
  rewrite H. apply elem_of_app. right. apply elem_of_app. left. exact Hx.
Qed.

Lemma SplitN_two sep : forall s p0 p1,
  Strings.SplitN s sep 2 = [p0; p1] -> s = p0 ++ sep :: p1 /\ sep ∉ p0.
Proof.
  induction s as [|x s IH]; intros p0 p1; [discriminate|].
  change (Strings.SplitN (x :: s) sep 2)
    with (if Ascii.eqb x sep then [] :: Strings.SplitN s sep 1
          else match Strings.SplitN s sep 2 with
               | h :: t => (x :: h) :: t
               | [] => [[x]]
               end).
  destruct (Ascii.eqb x sep) eqn:E.
  - apply Ascii.eqb_eq in E. subst x. rewrite SplitN_one.
    intros [= <- <-]. split; [reflexivity | apply not_elem_of_nil].
  - apply Ascii.eqb_neq in E.
    destruct (Strings.SplitN s sep 2) as [|h [|h' t]] eqn:Es;
      try discriminate.
    intros [= <- <-]. subst t.
    destruct (IH _ _ eq_refl) as [-> Hn]. split; [reflexivity|].
    apply not_elem_of_cons. split; [congruence | exact Hn].
Qed.

Lemma HasPrefix_singleton (v : gostring) c :
  Strings.HasPrefix v [c] = true -> exists v', v = c :: v'.
Proof.
  destruct v as [|x v']; [discriminate|]. simpl.
  destruct (Ascii.eqb x c) eqn:E; [|discriminate].
  apply Ascii.eqb_eq in E. subst. eauto.
Qed.

(** ** What a code block does *)

Section CodeBlocks.

(** The three ways a code block ends: no assignment, an assignment, or
    the slice of a lone double quote. *)
Lemma codeRepl_run m d :
  match Regexp.FindStringSubmatch codeRegex m with
  | _ :: body :: _ =>
      match Strings.SplitN (Strings.TrimSpace body) "=" 2 with
      | [p0; p1] =>
          if Strings.Contains (Strings.TrimSpace body) (str "=") then
            if decide (Strings.TrimSpace p1 = [dquote])
            then TemplateProcessor.codeRepl m d =
                 Panic (str "runtime error: slice bounds out of range")
            else TemplateProcessor.codeRepl m d =
                 Done ([], <[Strings.TrimSpace p0 :=
                               VString (unquote (Strings.TrimSpace p1))]> d)
          else TemplateProcessor.codeRepl m d = Done ([], d)
      | _ => TemplateProcessor.codeRepl m d = Done ([], d)
      end
  | _ => TemplateProcessor.codeRepl m d = Done (m, d)
  end.
Proof.
  unfold TemplateProcessor.codeRepl, unquote.
  destruct (Regexp.FindStringSubmatch codeRegex m) as [|w [|body rest]];
    try reflexivity.
  destruct (Strings.SplitN (Strings.TrimSpace body) "=" 2)
    as [|p0 [|p1 [|p2 ps]]];
    try (destruct (Strings.Contains _ _); reflexivity).
  destruct (Strings.Contains _ _); [|reflexivity].
  set (v := Strings.TrimSpace p1).
  destruct (decide (v = [dquote])) as [->|Hv]; [reflexivity|].
  destruct (Strings.HasPrefix v [dquote]) eqn:Hpre; [|reflexivity].
  destruct (Strings.HasSuffix v [dquote]) eqn:Hsuf; [|reflexivity].
  simpl andb. cbv iota.
  apply HasPrefix_singleton in Hpre as [v' ->].
  destruct v' as [|y v']; [contradiction|].
  unfold sliceOrPanic, bind, ret, setData.
  replace ((1 <=? length (dquote :: y :: v') - 1) &&
           (length (dquote :: y :: v') - 1 <=? length (dquote :: y :: v')))
    with true; [reflexivity|].
  symmetry. apply andb_true_iff. split; apply Nat.leb_le; simpl; lia.
Qed.

Lemma codeRepl_output m d x dx :
  TemplateProcessor.codeRepl m d = Done (x, dx) -> x = [] \/ x = m.
Proof.
  pose proof (codeRepl_run m d) as H.
  destruct (Regexp.FindStringSubmatch codeRegex m) as [|w [|body rest]];
    try (rewrite H; intros [= <- _]; right; reflexivity).
  destruct (Strings.SplitN _ _ _) as [|p0 [|p1 [|p2 ps]]];
    try (rewrite H; intros [= <- _]; left; reflexivity).
  destruct (Strings.Contains _ _);
    [|rewrite H; intros [= <- _]; left; reflexivity].
  destruct (decide _); rewrite H; [discriminate|].
  intros [= <- _]; left; reflexivity.
Qed.

Lemma code_pass_sublist_segs segs : forall d out d',
  replaceSegments TemplateProcessor.codeRepl segs d = Done (out, d') ->
  sublist out (flat_map segmentText segs).
Proof.
  induction segs as [|seg segs IH]; intros d out d' H.
  - simpl in H. injection H as <- _. constructor.
  - destruct seg as [ch|m].
    + simpl in H. unfold bind, ret in H.
      destruct (replaceSegments _ segs d) as [[r2 d2]| |] eqn:E;
        try discriminate.
      injection H as <- _. simpl. apply sublist_skip. eapply IH. exact E.
    + apply replaceSegments_hit_Done in H as (x & dx & r2 & Hm & Hrest & ->).
      simpl. apply sublist_app; [|eapply IH; exact Hrest].
      apply codeRepl_output in Hm as [->| ->];
        [apply sublist_nil_l | reflexivity].
Qed.

End CodeBlocks.

Lemma codeRepl_hit_output content m d x dx :
  Regexp.Hit m ∈ Regexp.segments codeRegex content ->
  TemplateProcessor.codeRepl m d = Done (x, dx) -> x = [].
Proof.
  intros Hm H. apply hit_rematch in Hm as [body Hb].
  pose proof (codeRepl_run m d) as Hr. rewrite Hb in Hr.
  destruct (Strings.SplitN _ _ _) as [|p0 [|p1 [|p2 ps]]];
    try (rewrite Hr in H; injection H as <- _; reflexivity).
  destruct (Strings.Contains _ _);
    [|rewrite Hr in H; injection H as <- _; reflexivity].
  destruct (decide _); rewrite Hr in H; [discriminate|].
  injection H as <- _. reflexivity.
Qed.

Lemma code_pass_without_hits content segs : forall d out d',
  (forall m, Regexp.Hit m ∈ segs ->
             Regexp.Hit m ∈ Regexp.segments codeRegex content) ->
  replaceSegments TemplateProcessor.codeRepl segs d = Done (out, d') ->
  out = withoutHits segs.
Proof.
  induction segs as [|seg segs IH]; intros d out d' Hs H.
  - simpl in H. injection H as <- _. reflexivity.
  - assert (Hs' : forall m, Regexp.Hit m ∈ segs ->
              Regexp.Hit m ∈ Regexp.segments codeRegex content).
    { intros m Hm. apply Hs. right. exact Hm. }
    destruct seg as [ch|m].
    + simpl in H. unfold bind, ret in H.
      destruct (replaceSegments _ segs d) as [[r2 d2]| |] eqn:E;
        try discriminate.
      injection H as <- _. simpl. f_equal. eapply IH; eassumption.
    + apply replaceSegments_hit_Done in H as (x & dx & r2 & Hm & Hrest & ->).
      apply (codeRepl_hit_output content) in Hm; [|apply Hs; left].
      subst x. simpl. eapply IH; eassumption.
Qed.

(** X4. Code blocks render as nothing.  When the code pass returns, its
    result is the document without the code blocks, whatever they hold: it
    is the document with bytes deleted, and never longer. *)
Theorem code_pass_only_deletes (content out : gostring)
    (d d' : gmap gostring value) :
  TemplateProcessor.processCodeExpressions content d = Done (out, d') ->
  out = withoutHits (Regexp.segments codeRegex content) /\
  sublist out content /\ length out <= length content.
Proof.
  intros H. unfold TemplateProcessor.processCodeExpressions,
    ReplaceAllStringFunc in H.
  split.
  { apply (code_pass_without_hits content _ d out d'); [auto | exact H]. }
  apply code_pass_sublist_segs in H.
  rewrite (segments_concat codeRegex codeRegex_progressive _ _ (le_n _)) in H.
  split; [exact H | apply sublist_length; exact H].
Qed.

Lemma code_pass_only_deletes_witness :
  str "<b>ok</b>" =
  withoutHits
    (Regexp.segments codeRegex (str "<b><% n = 1 %>ok<% note %></b>")) /\
  sublist (str "<b>ok</b>")
    (str "<b><% n = 1 %>ok<% note %></b>") /\
  length (str "<b>ok</b>") <= length (str "<b><% n = 1 %>ok<% note %></b>").
Proof.
  apply (code_pass_only_deletes (str "<b><% n = 1 %>ok<% note %></b>")
           (str "<b>ok</b>") ∅ (<[str "n" := VString (str "1")]> ∅)).
  vm_compute. reflexivity.
Defined.

(** ** When the code pass panics, and when it cannot *)

Lemma codeRepl_panic m msg d :
  TemplateProcessor.codeRepl m d = Panic msg <->
  msg = str "runtime error: slice bounds out of range" /\
  exists w body rest p0 p1,
    Regexp.FindStringSubmatch codeRegex m = w :: body :: rest /\
    Strings.SplitN (Strings.TrimSpace body) "=" 2 = [p0; p1] /\
    Strings.TrimSpace p1 = [dquote].
Proof.
  pose proof (codeRepl_run m d) as H. split.
  - intros Hp.
    destruct (Regexp.FindStringSubmatch codeRegex m) as [|w [|body rest]];
      try (rewrite H in Hp; discriminate).
    destruct (Strings.SplitN _ _ _) as [|p0 [|p1 [|p2 ps]]] eqn:Es;
      try (rewrite H in Hp; discriminate).
    destruct (Strings.Contains _ _); [|rewrite H in Hp; discriminate].
    destruct (decide _) as [E|E]; rewrite H in Hp; [|discriminate].
    injection Hp as <-. split; [reflexivity|].
    exists w, body, rest, p0, p1. auto.
  - intros (-> & w & body & rest & p0 & p1 & Hm & Hs & Hv).
    rewrite Hm, Hs in H.
    destruct (SplitN_two _ _ _ _ Hs) as [Hc _].
    assert (Hin : Strings.Contains (Strings.TrimSpace body) (str "=") = true).
    { apply Contains_singleton. rewrite Hc. apply elem_of_app. right. left. }
    rewrite Hin in H. destruct (decide _); [exact H | contradiction].
Qed.

(** X5. A code block panics in exactly one case: it holds an assignment
    whose trimmed value is a lone double quote.  The panic is the
    out-of-range slice. *)
Theorem code_block_panics_on_lone_quote_only (m msg : gostring)
    (d : gmap gostring value) :
  TemplateProcessor.codeRepl m d = Panic msg <->
  msg = str "runtime error: slice bounds out of range" /\
  exists w body rest p0 p1,
    Regexp.FindStringSubmatch codeRegex m = w :: body :: rest /\
    Strings.SplitN (Strings.TrimSpace body) "=" 2 = [p0; p1] /\
    Strings.TrimSpace p1 = [dquote].
Proof. apply codeRepl_panic. Qed.

Lemma codeRepl_quote_free m d :
  dquote ∉ m -> exists x dx, TemplateProcessor.codeRepl m d = Done (x, dx).
Proof.
  intros Hq.
  destruct (TemplateProcessor.codeRepl m d) as [[x dx]|msg|] eqn:E.
  - eauto.
  - exfalso. apply Hq.
    apply codeRepl_panic in E as (_ & w & body & rest & p0 & p1 & Hm & Hs & Hv).
    apply (submatch_bytes _ _ _ _ _ _ Hm), TrimSpace_bytes.
    destruct (SplitN_two _ _ _ _ Hs) as [-> _].
    apply elem_of_app. right. right. apply TrimSpace_bytes.
    rewrite Hv. left.
  - exfalso. revert E. pose proof (code_pass_not_OutOfFuel [Regexp.Hit m] d) as H.
    simpl in H. unfold bind, ret in H. intros E. rewrite E in H.
    apply H. reflexivity.
Qed.

Lemma code_pass_quote_free segs : forall d,
  (forall m, Regexp.Hit m ∈ segs -> dquote ∉ m) ->
  exists out d', replaceSegments TemplateProcessor.codeRepl segs d
                 = Done (out, d').
Proof.
  induction segs as [|seg segs IH]; intros d Hq; simpl.
  - eexists _, _. reflexivity.
  - assert (Hq' : forall m, Regexp.Hit m ∈ segs -> dquote ∉ m).
    { intros m Hm. apply Hq. right. exact Hm. }
    destruct seg as [ch|m]; unfold bind, ret.
    + destruct (IH d Hq') as (out & d' & ->). eexists _, _. reflexivity.
    + destruct (codeRepl_quote_free m d (Hq m ltac:(left))) as (x & dx & ->).
      destruct (IH dx Hq') as (out & d' & ->). eexists _, _. reflexivity.
Qed.

Lemma quote_free_code_pass_returns_aux content d :
  dquote ∉ content ->
  exists out d',
    TemplateProcessor.processCodeExpressions content d = Done (out, d').
Proof.
  intros Hq. apply code_pass_quote_free. intros m Hm Hin.
  apply Hq.
  exact (hit_bytes codeRegex ltac:(auto with patterns) _ _ _ Hm Hin).
Qed.

(** X6. A document without a double quote never panics in the code pass:
    the pass returns. *)
Theorem quote_free_code_pass_returns (content : gostring)
    (d : gmap gostring value) :
  dquote ∉ content ->
  exists out d',
    TemplateProcessor.processCodeExpressions content d = Done (out, d').
Proof. apply quote_free_code_pass_returns_aux. Qed.

Lemma quote_free_code_pass_returns_witness :
  exists out d',
    TemplateProcessor.processCodeExpressions
      (str "<% a = 1 %><% b = 'two' %>x") ∅ = Done (out, d').
Proof.
  apply (quote_free_code_pass_returns (str "<% a = 1 %><% b = 'two' %>x") ∅).
  rewrite list_elem_of_In. vm_compute. intuition discriminate.
Defined.

(** ** The scope through the passes *)

Lemma code_pass_scope segs : forall d out d',
  replaceSegments TemplateProcessor.codeRepl segs d = Done (out, d') ->
  forall k, d' !! k = d !! k \/ exists s, d' !! k = Some (VString s).
Proof.
  induction segs as [|seg segs IH]; intros d out d' H k.
  - simpl in H. injection H as _ <-. left. reflexivity.
  - destruct seg as [ch|m].
    + simpl in H. unfold bind, ret in H.
      destruct (replaceSegments _ segs d) as [[r2 d2]| |] eqn:E;
        try discriminate.
      injection H as _ <-. eapply IH. exact E.
    + apply replaceSegments_hit_Done in H as (x & dx & r2 & Hm & Hrest & _).
      destruct (IH _ _ _ Hrest k) as [Hk|Hk]; [|right; exact Hk].
      rewrite Hk.
      destruct (codeRepl_cases m) as [[msg Hc]|[[r Hc]|(r & k' & v & Hc)]];
        rewrite Hc in Hm; try discriminate.
      * injection Hm as _ <-. left. reflexivity.
      * injection Hm as _ <-.
        destruct (decide (k' = k)) as [->|Hne].
        -- right. exists v. apply lookup_insert_eq.
        -- left. apply lookup_insert_ne. exact Hne.
Qed.

(** X8. Expanding a document never removes a binding from the scope, and
    every binding it adds or changes holds a string: the request objects
    stored by the handler stay, unless a code block shadows them with
    text. *)
Theorem scope_only_gains_strings (fs : FileSystem) (rootPath : gostring)
    (c : Context) (depth : nat) (content out : gostring)
    (err : option gostring) (d d' : gmap gostring value) :
  TemplateProcessor.processTemplate fs rootPath c depth content d
  = Done ((out, err), d') ->
  forall k, d' !! k = d !! k \/ exists s, d' !! k = Some (VString s).
Proof.
  unfold TemplateProcessor.processTemplate, bind, ret. intros H.
  destruct (oblivious_pure _
              (processIncludes_oblivious fs rootPath depth content) d)
    as [E|[c1 E]]; rewrite E in H; [discriminate|].
  destruct (TemplateProcessor.processCodeExpressions c1 d)
    as [[c2 d2]| |] eqn:Ec; try discriminate.
  unfold TemplateProcessor.processOutputTags, ReplaceAllStringFunc in H.
  destruct (output_pass_total c (Regexp.segments outputRegex c2) d2)
    as [c3 Eo].
  rewrite Eo in H. injection H as _ _ <-.
  eapply code_pass_scope. exact Ec.
Qed.

Lemma scope_only_gains_strings_witness :
  <[str "request" := VString (str "mine")]> initialData !! str "request"
  = initialData !! str "request" \/
  exists s,
    <[str "request" := VString (str "mine")]> initialData !! str "request"
    = Some (VString s).
Proof.
  apply (scope_only_gains_strings Sample.fs Sample.root Sample.ctx 1
           (str "<% request = mine %><%= request %>") (str "mine") None
           initialData).
  vm_compute. reflexivity.
Defined.

(** ** Code blocks without an assignment, and with one *)

Lemma codeRepl_no_equals content m d :
  Regexp.Hit m ∈ Regexp.segments codeRegex content ->
  "="%char ∉ m ->
  TemplateProcessor.codeRepl m d = Done ([], d).
Proof.
  intros Hm Hne. apply hit_rematch in Hm as [body Hb].
  pose proof (codeRepl_run m d) as Hr. rewrite Hb in Hr.
  assert (Hc : Strings.Contains (Strings.TrimSpace body) (str "=") = false).
  { destruct (Strings.Contains _ _) eqn:E; [|reflexivity].
    exfalso. apply Hne. apply Contains_singleton in E.
    apply (submatch_bytes _ _ _ _ _ _ Hb), TrimSpace_bytes. exact E. }
  rewrite Hc in Hr.
  destruct (Strings.SplitN _ _ _) as [|p0 [|p1 [|p2 ps]]]; exact Hr.
Qed.

Lemma code_pass_no_equals content segs : forall d,
  (forall m, Regexp.Hit m ∈ segs ->
             Regexp.Hit m ∈ Regexp.segments codeRegex content) ->
  (forall m, Regexp.Hit m ∈ segs -> "="%char ∉ m) ->
  replaceSegments TemplateProcessor.codeRepl segs d
  = Done (withoutHits segs, d).
Proof.
  induction segs as [|seg segs IH]; intros d Hs Hne; [reflexivity|].
  assert (Hs' : forall m, Regexp.Hit m ∈ segs ->
            Regexp.Hit m ∈ Regexp.segments codeRegex content).
  { intros m Hm. apply Hs. right. exact Hm. }
  assert (Hne' : forall m, Regexp.Hit m ∈ segs -> "="%char ∉ m).
  { intros m Hm. apply Hne. right. exact Hm. }
  destruct seg as [ch|m]; simpl; unfold bind, ret.
  - rewrite (IH d Hs' Hne'). reflexivity.
  - rewrite (codeRepl_no_equals content m d (Hs m ltac:(left))
               (Hne m ltac:(left))).
    rewrite (IH d Hs' Hne'). reflexivity.
Qed.

(** X9. A document without an equals sign assigns nothing: the code pass
    returns the document without its code blocks and leaves the scope as it
    was. *)
Theorem code_pass_without_equals (content : gostring)
    (d : gmap gostring value) :
  "="%char ∉ content ->
  TemplateProcessor.processCodeExpressions content d =
  Done (withoutHits (Regexp.segments codeRegex content), d).
Proof.
  intros Hne. apply (code_pass_no_equals content); [auto|].
  intros m Hm Hin. apply Hne.
  exact (hit_bytes codeRegex ltac:(auto with patterns) _ _ _ Hm Hin).
Qed.

Lemma code_pass_without_equals_witness :
  TemplateProcessor.processCodeExpressions
    (str "<p><% a note %>text<%-- old --%></p>") initialData =
  Done (str "<p>text</p>", initialData).
Proof.
  apply (code_pass_without_equals
           (str "<p><% a note %>text<%-- old --%></p>") initialData).
  rewrite list_elem_of_In. vm_compute. intuition discriminate.
Defined.

(** X10. A code block that holds an equals sign is an assignment, cut at
    the first one: the trimmed text before it names the variable, the
    trimmed text after it, later equals signs included and one pair of
    enclosing double quotes removed, is the value.  The block renders as
    nothing. *)
Theorem code_block_assigns_at_first_equals (ws body l r : gostring)
    (x : ascii) (d : gmap gostring value) :
  Forall (fun y => Regexp.cmatch Regexp.CSpace y = true) ws ->
  Regexp.cmatch Regexp.CSpace x = false ->
  x <> "="%char -> "%"%char ∉ body ->
  Strings.TrimSpace (x :: body) = l ++ "="%char :: r ->
  "="%char ∉ l ->
  Strings.TrimSpace r <> [dquote] ->
  TemplateProcessor.codeRepl (str "<%" ++ ws ++ x :: body ++ str "%>") d =
  Done ([], <[Strings.TrimSpace l := VString (unquote (Strings.TrimSpace r))]> d).
Proof.
  intros Hws Hx Hne Hbody Ht Hl Hr.
  pose proof (codeRepl_run (str "<%" ++ ws ++ x :: body ++ str "%>") d) as H.
  rewrite (code_submatch_tag ws x body Hws Hx Hne Hbody) in H.
  rewrite Ht, (SplitN_first _ _ _ Hl) in H.
  assert (Hc : Strings.Contains (l ++ "="%char :: r) (str "=") = true).
  { apply Contains_singleton. apply elem_of_app. right. left. }
  rewrite Hc in H. destruct (decide _); [contradiction | exact H].
Qed.

Lemma code_block_assigns_at_first_equals_witness :
  TemplateProcessor.codeRepl (str "<% next = /a?x=1 %>") ∅ =
  Done ([], <[str "next" := VString (str "/a?x=1")]> ∅).
Proof.
  apply (code_block_assigns_at_first_equals (str " ") (str "ext = /a?x=1 ")
           (str "next ") (str " /a?x=1") "n" ∅).
  - repeat constructor.
  - reflexivity.
  - discriminate.
  - rewrite list_elem_of_In. vm_compute. intuition discriminate.
  - vm_compute. reflexivity.
  - rewrite list_elem_of_In. vm_compute. intuition discriminate.
  - vm_compute. discriminate.
Defined.


(** ** The handlers *)

Lemma HasSuffix_app (p s : gostring) : Strings.HasSuffix (p ++ s) s = true.
Proof.
  unfold Strings.HasSuffix. rewrite rev_app_distr. apply HasPrefix_app.
Qed.

Lemma servedFile_html path :
  Strings.HasSuffix (servedFile path) (str ".html") = true.
Proof.
  unfold servedFile. destruct (decide _); [reflexivity|].
  destruct (stripPrefix _ _); apply HasSuffix_app.
Qed.

Lemma servedFile_filename path :
  Strings.TrimPrefix (if decide (path = str "/") then str "/index" else path)
    (str "/") ++ str ".html" = servedFile path.
Proof.
  unfold servedFile. destruct (decide (path = str "/")) as [->|Hne];
    [reflexivity|].
  unfold Strings.TrimPrefix.
  destruct (Strings.HasPrefix path (str "/")) eqn:E.
  - destruct (HasPrefix_stripPrefix _ _ E) as [-> _]. reflexivity.
  - rewrite (HasPrefix_false_stripPrefix _ _ E). reflexivity.
Qed.

(** X11. The catch-all handler only ever serves [.html] files: the path
    [/] stands for [index.html], any other path loses its leading slash
    and gains the extension.  The generated program maps paths the same
    way. *)
Theorem fileBasedHandler_serves_html (fs : FileSystem) (rootPath : gostring)
    (embeddedTemplates : gmap gostring gostring) (c : Context) (depth : nat) :
  fileBasedHandler fs rootPath c depth =
  processTemplate fs rootPath c depth (servedFile (URLPath c)) /\
  Embedded.fileBasedHandler embeddedTemplates c depth =
  Embedded.processTemplate embeddedTemplates c depth (servedFile (URLPath c)) /\
  Strings.HasSuffix (servedFile (URLPath c)) (str ".html") = true /\
  servedFile (str "/") = str "index.html" /\
  (forall p, p <> [] -> servedFile ("/"%char :: p) = p ++ str ".html").
Proof.
  split; [|split; [|split; [|split]]].
  - unfold fileBasedHandler. rewrite servedFile_filename. reflexivity.
  - unfold Embedded.fileBasedHandler. rewrite servedFile_filename. reflexivity.
  - apply servedFile_html.
  - reflexivity.
  - intros p Hp. unfold servedFile.
    destruct (decide _) as [[= ->]|_]; [contradiction | reflexivity].
Qed.

(** ** Responses *)

Lemma processTemplate_nil_error fs rootPath c depth content d :
  match TemplateProcessor.processTemplate fs rootPath c depth content d with
  | Done ((_, err), _) => err = None
  | Panic _ | OutOfFuel => True
  end.
Proof.
  unfold TemplateProcessor.processTemplate, bind, ret.
  destruct (TemplateProcessor.processIncludes fs rootPath depth content d)
    as [[c1 d1]| |]; try exact I.
  destruct (TemplateProcessor.processCodeExpressions c1 d1)
    as [[c2 d2]| |]; try exact I.
  destruct (TemplateProcessor.processOutputTags c c2 d2)
    as [[c3 d3]| |]; try exact I.
  reflexivity.
Qed.

(** X12. The answers of the server's handler: 404 with the file name
    exactly when the file does not exist; 500 with the read error when it
    exists and cannot be read; otherwise 200 with the expanded content.
    No other answer is produced. *)
Theorem handler_answers (fs : FileSystem) (rootPath : gostring) (c : Context)
    (depth : nat) (filename : gostring) (r : response) :
  processTemplate fs rootPath c depth filename = Done r ->
  match r with
  | StringResponse status body =>
      (status = 404 /\ NotExist fs (Join fs rootPath filename) = true /\
       body = str "File not found: " ++ filename) \/
      (status = 500 /\ NotExist fs (Join fs rootPath filename) = false /\
       exists err,
         ReadFile fs (Join fs rootPath filename) = inr err /\
         body = str "Error reading file: " ++ err)
  | HTMLResponse status body =>
      status = 200 /\ NotExist fs (Join fs rootPath filename) = false /\
      exists content d,
        ReadFile fs (Join fs rootPath filename) = inl content /\
        TemplateProcessor.processTemplate fs rootPath c depth content
          initialData = Done ((body, None), d)
  end.
Proof.
  unfold processTemplate.
  destruct (NotExist fs (Join fs rootPath filename)) eqn:En.
  { intros [= <-]. left. auto. }
  destruct (ReadFile fs (Join fs rootPath filename)) as [content|err] eqn:Er.
  - pose proof (processTemplate_nil_error fs rootPath c depth content
                  initialData) as Hn.
    destruct (TemplateProcessor.processTemplate fs rootPath c depth content
                initialData) as [[[pc e] d']| |] eqn:Ep; try discriminate.
    subst e. intros [= <-]. repeat split. exists content, d'. auto.
  - intros [= <-]. right. repeat split. exists err. auto.
Qed.

Lemma handler_answers_witness :
  200 = 200 /\
  NotExist Sample.fs (Join Sample.fs Sample.root (str "sum.html")) = false /\
  exists content d,
    ReadFile Sample.fs (Join Sample.fs Sample.root (str "sum.html"))
    = inl content /\
    TemplateProcessor.processTemplate Sample.fs Sample.root Sample.ctx 1
      content initialData = Done ((str "5", None), d).
Proof.
  apply (handler_answers Sample.fs Sample.root Sample.ctx 1 (str "sum.html")
           (HTMLResponse 200 (str "5"))).
  vm_compute. reflexivity.
Defined.

(** X13. The generated program answers 404 exactly for the names its
    table does not hold and 200 otherwise; it has no 500 answer. *)
Theorem embedded_handler_answers (embeddedTemplates : gmap gostring gostring)
    (c : Context) (depth : nat) (filename : gostring) (r : response) :
  Embedded.processTemplate embeddedTemplates c depth filename = Done r ->
  match embeddedTemplates !! filename with
  | None => r = StringResponse 404 (str "Template not found: " ++ filename)
  | Some content =>
      exists out d,
        Embedded.TemplateProcessor.processTemplate embeddedTemplates c depth
          content Embedded.initialData = Done ((out, None), d) /\
        r = HTMLResponse 200 out
  end.
Proof.
  unfold Embedded.processTemplate.
  destruct (embeddedTemplates !! filename) as [content|];
    [|intros [= <-]; reflexivity].
  unfold Embedded.TemplateProcessor.processTemplate, bind, ret.
  destruct (Embedded.TemplateProcessor.processIncludes embeddedTemplates
              depth content Embedded.initialData) as [[c1 d1]| |];
    try discriminate.
  destruct (Embedded.TemplateProcessor.processCodeExpressions c1 d1)
    as [[c2 d2]| |]; try discriminate.
  destruct (Embedded.TemplateProcessor.processOutputTags c c2 d2)
    as [[c3 d3]| |]; try discriminate.
  intros [= <-]. eauto.
Qed.

Lemma embedded_handler_answers_witness :
  exists out d,
    Embedded.TemplateProcessor.processTemplate Sample.embedded Sample.ctx 1
      (str "<%= 2 + 3 %>") Embedded.initialData = Done ((out, None), d) /\
    HTMLResponse 200 (str "2 + 3") = HTMLResponse 200 out.
Proof.
  apply (embedded_handler_answers Sample.embedded Sample.ctx 1
           (str "sum.html") (HTMLResponse 200 (str "2 + 3"))).
  vm_compute. reflexivity.
Defined.

(** ** Documents without a double quote *)

Lemma lang_lit re : forall (w : gostring) c,
  lang re w -> Regexp.Lit c ∈ re -> c ∈ w.
Proof.
  induction re as [|a re IH]; intros w c Hl Hin; [inversion Hin|].
  apply elem_of_cons in Hin.
  destruct a as [c'|k|k|k| |]; simpl in Hl.
  - destruct Hl as (w' & -> & Hl). destruct Hin as [[= ->]|Hin]; [left|].
    right. eapply IH; eassumption.
  - destruct Hl as (x & w' & -> & _ & Hl).
    destruct Hin as [Hin|Hin]; [discriminate|]. right. eapply IH; eassumption.
  - destruct Hl as (u & w' & -> & _ & Hl).
    destruct Hin as [Hin|Hin]; [discriminate|].
    apply elem_of_app. right. eapply IH; eassumption.
  - destruct Hl as (x & u & w' & -> & _ & _ & Hl).
    destruct Hin as [Hin|Hin]; [discriminate|].
    right. apply elem_of_app. right. eapply IH; eassumption.
  - destruct Hin as [Hin|Hin]; [discriminate|]. eapply IH; eassumption.
  - destruct Hin as [Hin|Hin]; [discriminate|]. eapply IH; eassumption.
Qed.

Lemma include_needs_quote content :
  dquote ∉ content -> Regexp.MatchString includeRegex content = false.
Proof.
  intros Hq. apply MatchString_false. intros k.
  destruct (Regexp.matchHere includeRegex (drop k content))
    as [[e g]|] eqn:E; [|reflexivity].
  exfalso. apply Hq. unfold Regexp.matchHere in E.
  apply exec_sound in E as (w & rest & Hw & _ & Hl).
  apply (subseteq_drop k content). rewrite Hw. apply elem_of_app. left.
  apply (lang_lit includeRegex); [exact Hl|].
  rewrite list_elem_of_In. vm_compute. tauto.
Qed.

(** X14. A file that exists, can be read and holds no double quote is
    always answered with status 200: it includes nothing, its code blocks
    cannot panic, and no depth is exceeded. *)
Theorem quote_free_file_renders (fs : FileSystem) (rootPath : gostring)
    (c : Context) (depth : nat) (filename content : gostring) :
  NotExist fs (Join fs rootPath filename) = false ->
  ReadFile fs (Join fs rootPath filename) = inl content ->
  dquote ∉ content ->
  exists out,
    processTemplate fs rootPath c (S depth) filename
    = Done (HTMLResponse 200 out).
Proof.
  intros Hn Hr Hq. unfold processTemplate. rewrite Hn, Hr.
  unfold TemplateProcessor.processTemplate.
  simpl TemplateProcessor.processIncludes.
  erewrite bind_Done;
    [|apply ReplaceAllStringFunc_no_match, include_needs_quote; exact Hq].
  destruct (quote_free_code_pass_returns_aux content initialData Hq)
    as (c2 & d2 & Hc).
  erewrite bind_Done by exact Hc.
  unfold TemplateProcessor.processOutputTags, ReplaceAllStringFunc.
  destruct (output_pass_total c (Regexp.segments outputRegex c2) d2)
    as [c3 Ho].
  erewrite bind_Done by exact Ho. exists c3. reflexivity.
Qed.

Lemma quote_free_file_renders_witness :
  exists out,
    processTemplate Sample.fs Sample.root Sample.ctx 1 (str "sum.html")
    = Done (HTMLResponse 200 out).
Proof.
  apply (quote_free_file_renders Sample.fs Sample.root Sample.ctx 0
           (str "sum.html") (str "<%= 2 + 3 %>")).
  - reflexivity.
  - reflexivity.
  - rewrite list_elem_of_In. vm_compute. intuition discriminate.
Defined.


(** ** Include directives *)


Section IncludeDirectives.
Context (ws1 file ws2 : gostring).
Context (Hws1 : Forall (fun z => Regexp.cmatch Regexp.CSpace z = true) ws1)
  (Hne1 : ws1 <> [])
  (Hfile : file <> []) (Hq : dquote ∉ file)
  (Hws2 : Forall (fun z => Regexp.cmatch Regexp.CSpace z = true) ws2).




Lemma replace_at_directive repl (pre : gostring) tag segs d :
  replaceSegments repl (map Regexp.Text pre ++ Regexp.Hit tag :: segs) d =
  (let* y := repl tag in
   let* z := replaceSegments repl segs in
   ret (pre ++ y ++ z)) d.
Proof.
  rewrite replaceSegments_app. unfold bind at 1.
  rewrite replaceSegments_text. simpl. unfold bind, ret.
  destruct (repl tag d) as [[y d1]| |]; try reflexivity.
  destruct (replaceSegments repl segs d1) as [[z d2]| |]; reflexivity.
Qed.

End IncludeDirectives.





(** ** The depth of include expansion *)






(** ** Include expansion and the scope *)

Lemma embedded_includeRepl_oblivious table self :
  (forall s, oblivious (self s)) ->
  forall m, oblivious (Embedded.TemplateProcessor.includeRepl table self m).
Proof.
  intros Hself m. unfold Embedded.TemplateProcessor.includeRepl.
  destruct (Regexp.FindStringSubmatch includeRegex m) as [|w [|f rest]];
    try (left; eexists; intros d; reflexivity).
  destruct (table !! f); [apply Hself|].
  left. eexists. intros d. reflexivity.
Qed.

Lemma embedded_processIncludes_oblivious table depth : forall content,
  oblivious (Embedded.TemplateProcessor.processIncludes table depth content).
Proof.
  induction depth as [|depth IH]; intros content; simpl.
  - right. intros d. reflexivity.
  - unfold ReplaceAllStringFunc. apply replaceSegments_oblivious.
    apply embedded_includeRepl_oblivious. exact IH.
Qed.

(** X18. Include expansion neither reads nor writes the scope and never
    panics: for a given document it either returns the same expansion
    under every scope, leaving the scope as it was, or exceeds its depth
    under every scope.  The same holds in the generated program. *)
Theorem include_pass_ignores_scope (fs : FileSystem) (rootPath : gostring)
    (embeddedTemplates : gmap gostring gostring) (depth : nat)
    (content : gostring) :
  oblivious (TemplateProcessor.processIncludes fs rootPath depth content) /\
  oblivious (Embedded.TemplateProcessor.processIncludes embeddedTemplates
               depth content).
Proof.
  split;
    [apply processIncludes_oblivious | apply embedded_processIncludes_oblivious].
Qed.


(** ** Command lines *)



Lemma fieldsFrom_blank s :
  Forall (fun b => Strings.asciiSpace b = true) s -> fieldsFrom s [] = [].
Proof.
  induction 1 as [|b s Hb _ IH]; [reflexivity|].
  cbn [fieldsFrom]. rewrite Hb. exact IH.
Qed.

Lemma space2_before_blank b : Strings.space2 b " " = false.
Proof. unfold Strings.space2. simpl. apply andb_false_r. Qed.

Lemma space3_before_blank b1 b2 : Strings.space3 b1 b2 " " = false.
Proof.
  unfold Strings.space3. simpl. rewrite !andb_false_r. reflexivity.
Qed.

Lemma space3_around_blank b1 b3 : Strings.space3 b1 " " b3 = false.
Proof.
  unfold Strings.space3. simpl. rewrite !andb_false_r. reflexivity.
Qed.

(** An ASCII blank separates: the fields before it, then those after. *)
Lemma fieldsFrom_app_blank (b : gostring) : forall n a cur, length a <= n ->
  fieldsFrom (a ++ " "%char :: b) cur = fieldsFrom a cur ++ fieldsFrom b [].
Proof.
  induction n as [|n IH]; intros a cur Hn.
  - destruct a; [reflexivity | simpl in Hn; lia].
  - destruct a as [|b1 r1]; [reflexivity|]. simpl in Hn.
    cbn [fieldsFrom app].
    destruct (Strings.asciiSpace b1).
    { rewrite IH by lia. rewrite app_assoc. reflexivity. }
    destruct r1 as [|b2 r2].
    { cbn [app]. rewrite space2_before_blank.
      destruct b as [|b3 r3]; [reflexivity|].
      rewrite space3_around_blank. reflexivity. }
    simpl in Hn. cbn [app].
    destruct (Strings.space2 b1 b2).
    { rewrite IH by lia. rewrite app_assoc. reflexivity. }
    destruct r2 as [|b3 r3].
    { cbn [app]. rewrite space3_before_blank.
      apply (IH [b2]). simpl. lia. }
    simpl in Hn. cbn [app].
    destruct (Strings.space3 b1 b2 b3).
    { rewrite IH by lia. rewrite app_assoc. reflexivity. }
    apply (IH (b2 :: b3 :: r3)). simpl. lia.
Qed.

Lemma Fields_app_blank a b :
  Fields (a ++ " "%char :: b) = Fields a ++ Fields b.
Proof. apply (fieldsFrom_app_blank b (length a)). lia. Qed.




Lemma fieldsFrom_plain : forall s cur,
  Forall (fun b => plain b = true) s ->
  fieldsFrom s cur = flushField (rev s ++ cur).
Proof.
  induction s as [|b1 r1 IH]; intros cur H; [reflexivity|].
  inversion H as [|? ? Hb Hr]; subst.
  assert (H2 : forall b, Strings.space2 b1 b = false).
  { intros b. unfold Strings.space2.
    rewrite (plain_not_high b1 "194" Hb) by (vm_compute; lia). reflexivity. }
  assert (H3 : forall b b', Strings.space3 b1 b b' = false).
  { intros b b'. unfold Strings.space3.
    rewrite (plain_not_high b1 "225" Hb) by (vm_compute; lia).
    rewrite (plain_not_high b1 "226" Hb) by (vm_compute; lia).
    rewrite (plain_not_high b1 "227" Hb) by (vm_compute; lia). reflexivity. }
  cbn [fieldsFrom]. rewrite (plain_not_space _ Hb).
  replace (rev (b1 :: r1) ++ cur) with (rev r1 ++ b1 :: cur)
    by (simpl; rewrite <- app_assoc; reflexivity).
  destruct r1 as [|b2 [|b3 r3]]; rewrite ?H2, ?H3; apply IH; exact Hr.
Qed.

(** X20. The build step runs [go] with the arguments [build], [-o], the
    white-space separated words of the output path, and [main.go].  The
    output path is one argument when it is a single word; a blank inside it
    cuts it in two. *)
Theorem build_command_arguments
    (Run : gostring -> list gostring -> option gostring)
    (absOutputPath : gostring) :
  executeCommand Run (buildCommand absOutputPath) =
  Run (str "go")
      ([str "build"; str "-o"] ++ Fields absOutputPath ++ [str "main.go"]) /\
  (absOutputPath <> [] -> Forall (fun b => plain b = true) absOutputPath ->
   Fields absOutputPath = [absOutputPath]) /\
  (forall dir name,
     absOutputPath = dir ++ " "%char :: name ->
     Fields absOutputPath = Fields dir ++ Fields name).
Proof.
  split; [|split].
  - unfold executeCommand, buildCommand.
    change (str "go build -o " ++ absOutputPath ++ str " main.go")
      with (str "go build -o" ++
            " "%char :: (absOutputPath ++ " "%char :: str "main.go")).
    rewrite !Fields_app_blank. reflexivity.
  - intros Hne Hp. unfold Fields. rewrite (fieldsFrom_plain _ _ Hp).
    rewrite app_nil_r. destruct absOutputPath as [|x p]; [contradiction|].
    destruct (rev (x :: p)) as [|y q] eqn:E.
    + apply (f_equal length) in E. rewrite length_rev in E. discriminate E.
    + cbn [flushField]. rewrite <- E, rev_involutive. reflexivity.
  - intros dir name ->. apply Fields_app_blank.
Qed.

Lemma build_command_arguments_witness :
  Fields (str "/tmp/out/app") = [str "/tmp/out/app"] /\
  Fields (str "/tmp/my app") = Fields (str "/tmp/my") ++ Fields (str "app").
Proof.
  split.
  - apply (proj1 (proj2 (build_command_arguments (fun _ _ => None)
                           (str "/tmp/out/app"))));
      [discriminate | repeat constructor].
  - apply (proj2 (proj2 (build_command_arguments (fun _ _ => None)
                           (str "/tmp/my app")))
             (str "/tmp/my") (str "app")).
    reflexivity.
Defined.


(** ** The file watcher *)

Section WatcherFacts.
Context (Write Create : Z) (isDir : gostring -> bool).

Lemma onEvent_added op name n :
  Added n ∈ onEvent Write Create isDir op name <->
  n = name /\ Z.land op Create = Create /\ isDir name = true.
Proof.
  unfold onEvent. rewrite elem_of_app. split.
  - intros [H|H].
    + destruct (Z.land op Write =? Write)%Z; [|inversion H].
      apply list_elem_of_singleton in H. discriminate H.
    + destruct (Z.land op Create =? Create)%Z eqn:E; [|inversion H].
      apply Z.eqb_eq in E. apply elem_of_cons in H as [H|H]; [discriminate|].
      destruct (isDir name) eqn:Ed; [|inversion H].
      apply list_elem_of_singleton in H. injection H as ->. auto.
  - intros (-> & Hc & Hd). right.
    apply Z.eqb_eq in Hc. rewrite Hc, Hd. right. left.
Qed.

Lemma watchFiles_added inbox n :
  Added n ∈ (watchFiles Write Create isDir inbox).1 <->
  exists op, Event op n ∈ beforeClose inbox /\
             Z.land op Create = Create /\ isDir n = true.
Proof.
  induction inbox as [|r rest IH]; simpl.
  - split; [intros H; inversion H | intros (op & H & _); inversion H].
  - destruct r as [op name| |err|]; simpl.
    + destruct (watchFiles Write Create isDir rest) as [effects returned].
      simpl in *. rewrite elem_of_app, onEvent_added, IH. split.
      * intros [(-> & Hc & Hd)|(op' & Hin & Hc & Hd)].
        -- exists op. split; [left | auto].
        -- exists op'. split; [right; exact Hin | auto].
      * intros (op' & Hin & Hc & Hd).
        apply elem_of_cons in Hin as [[= -> ->]|Hin]; [left; auto|].
        right. exists op'. auto.
    + split; [intros H; inversion H | intros (op & H & _); inversion H].
    + destruct (watchFiles Write Create isDir rest) as [effects returned].
      simpl in *. rewrite elem_of_cons, IH. split.
      * intros [H|(op' & Hin & Hc & Hd)]; [discriminate|].
        exists op'. split; [right; exact Hin | auto].
      * intros (op' & Hin & Hc & Hd).
        apply elem_of_cons in Hin as [Hin|Hin]; [discriminate|].
        right. exists op'. auto.
    + split; [intros H; inversion H | intros (op & H & _); inversion H].
Qed.

Lemma watchFiles_closed pre post closing :
  closing = EventsClosed \/ closing = ErrorsClosed ->
  watchFiles Write Create isDir (pre ++ closing :: post) =
  ((watchFiles Write Create isDir pre).1, true).
Proof.
  intros Hc. induction pre as [|r pre IH]; simpl.
  - destruct Hc as [-> | ->]; reflexivity.
  - destruct r as [op name| |err|]; simpl; try reflexivity.
    + rewrite IH. destruct (watchFiles Write Create isDir pre). reflexivity.
    + rewrite IH. destruct (watchFiles Write Create isDir pre). reflexivity.
Qed.

End WatcherFacts.

(** X21. The watcher starts watching a name exactly when, before either
    channel closed, it received an event for that name with the Create bit
    set and the name is a directory.  When a channel closes the loop
    returns, and nothing delivered afterwards has an effect. *)
Theorem watcher_follows_new_directories (Write Create : Z)
    (isDir : gostring -> bool) (inbox : list received) :
  (forall name,
     Added name ∈ (watchFiles Write Create isDir inbox).1 <->
     exists op, Event op name ∈ beforeClose inbox /\
                Z.land op Create = Create /\ isDir name = true) /\
  (forall pre post closing,
     closing = EventsClosed \/ closing = ErrorsClosed ->
     inbox = pre ++ closing :: post ->
     watchFiles Write Create isDir inbox =
     ((watchFiles Write Create isDir pre).1, true)).
Proof.
  split.
  - intros name. apply watchFiles_added.
  - intros pre post closing Hc ->. apply watchFiles_closed. exact Hc.
Qed.

Lemma watcher_follows_new_directories_witness :
  watchFiles 2 1 (fun name => bool_decide (name = str "root_http/docs"))
    [Event 1 (str "root_http/docs"); Event 3 (str "root_http/a.html");
     WatcherError (str "overflow"); EventsClosed;
     Event 1 (str "root_http/docs")] =
  ([Logged (str "File created: root_http/docs");
    Added (str "root_http/docs");
    Logged (str "File modified: root_http/a.html");
    Logged (str "File created: root_http/a.html");
    Logged (str "Watcher error: overflow")], true).
Proof.
  etransitivity.
  - apply (proj2 (watcher_follows_new_directories 2 1
                    (fun name => bool_decide (name = str "root_http/docs"))
                    _)
             [Event 1 (str "root_http/docs"); Event 3 (str "root_http/a.html");
              WatcherError (str "overflow")]
             [Event 1 (str "root_http/docs")] EventsClosed);
      [left; reflexivity | reflexivity].
  - vm_compute. reflexivity.
Defined.


(** ** Building the binary *)

Lemma commandCalls_build absOutputPath :
  commandCalls (buildCommand absOutputPath) =
  [Command (str "go")
     ([str "build"; str "-o"] ++ Fields absOutputPath ++ [str "main.go"])].
Proof.
  unfold commandCalls, buildCommand.
  change (str "go build -o " ++ absOutputPath ++ str " main.go")
    with (str "go build -o" ++
          " "%char :: (absOutputPath ++ " "%char :: str "main.go")).
  rewrite !Fields_app_blank. reflexivity.
Qed.

Lemma commandCalls_tidy :
  commandCalls (str "go mod tidy") =
  [Command (str "go") [str "mod"; str "tidy"]].
Proof. reflexivity. Qed.

Lemma systemCalls_app a b :
  systemCalls (a ++ b) = systemCalls a ++ systemCalls b.
Proof. apply List.filter_app. Qed.

Section BuildFacts.
Context (sys : System) (templates : gmap gostring gostring)
  (routes : list Route) (outputPath : gostring).

(** The steps of [generateCompiledBinary] once the temporary directory
    exists, up to the deferred calls. *)
Lemma generateCompiledBinary_calls dir :
  sysTempDir sys = inl dir ->
  exists body,
    systemCalls (generateCompiledBinary sys templates routes outputPath).2 =
    TempDir :: body ++ [RemoveAll dir] /\
    (forall orig,
       sysGetwd sys = inl orig -> sysChdir sys dir = None ->
       Chdir dir ∈ body ->
       exists body', body = body' ++ [Chdir orig]) /\
    (forall name args,
       Command name args ∈ body ->
       sysGenerateMainGo sys templates routes (sysJoin sys dir (str "main.go"))
       = None /\
       sysGenerateGoMod sys (sysJoin sys dir (str "go.mod")) = None /\
       sysChdir sys dir = None /\
       (args <> [str "mod"; str "tidy"] ->
        sysRun sys (str "go") [str "mod"; str "tidy"] = None)).
Proof.
  intros Ht. unfold generateCompiledBinary, attempt, deferring, logged, check,
    command. rewrite Ht. cbn [fst snd].
  destruct (sysGenerateMainGo sys templates routes
              (sysJoin sys dir (str "main.go"))) as [e1|] eqn:E1.
  { exists [GenerateMainGo (sysJoin sys dir (str "main.go"))].
    split; [reflexivity|]. split.
    - intros orig _ _ H. apply list_elem_of_singleton in H. discriminate H.
    - intros name args H. apply list_elem_of_singleton in H. discriminate H. }
  destruct (sysGenerateGoMod sys (sysJoin sys dir (str "go.mod")))
    as [e2|] eqn:E2.
  { eexists [_; _]. split; [reflexivity|]. split.
    - intros orig _ _ H. repeat (apply elem_of_cons in H as [H|H];
        [discriminate H|]). inversion H.
    - intros name args H. repeat (apply elem_of_cons in H as [H|H];
        [discriminate H|]). inversion H. }
  destruct (sysAbs sys outputPath) as [absOutputPath|e3] eqn:E3.
  2:{ eexists [_; _; _]. split; [reflexivity|]. split.
      - intros orig _ _ H. repeat (apply elem_of_cons in H as [H|H];
          [discriminate H|]). inversion H.
      - intros name args H. repeat (apply elem_of_cons in H as [H|H];
          [discriminate H|]). inversion H. }
  destruct (sysGetwd sys) as [originalDir|e4] eqn:E4.
  2:{ eexists [_; _; _; _]. split; [reflexivity|]. split.
      - intros orig H. discriminate H.
      - intros name args H. repeat (apply elem_of_cons in H as [H|H];
          [discriminate H|]). inversion H. }
  destruct (sysChdir sys dir) as [e5|] eqn:E5.
  { eexists [_; _; _; _; _]. split; [reflexivity|]. split.
    - intros orig _ H. discriminate H.
    - intros name args H. repeat (apply elem_of_cons in H as [H|H];
        [discriminate H|]). inversion H. }
  rewrite commandCalls_tidy, commandCalls_build.
  assert (Etidy : executeCommand (sysRun sys) (str "go mod tidy") =
                  sysRun sys (str "go") [str "mod"; str "tidy"])
    by reflexivity.
  rewrite Etidy.
  set (steps := [GenerateMainGo (sysJoin sys dir (str "main.go"));
                 GenerateGoMod (sysJoin sys dir (str "go.mod"));
                 Abs outputPath; Getwd; Chdir dir;
                 Command (str "go") [str "mod"; str "tidy"]]).
  set (build := Command (str "go")
                  ([str "build"; str "-o"] ++ Fields absOutputPath ++
                   [str "main.go"])).
  assert (Hsteps : forall name args more,
            Command name args ∈ steps ++ more ->
            (args <> [str "mod"; str "tidy"] ->
             Command name args ∈ more)).
  { intros name args more H Hne. apply elem_of_app in H as [H|H]; [|exact H].
    unfold steps in H.
    repeat (apply elem_of_cons in H as [H|H]; try discriminate H).
    - injection H as _ ->. contradiction.
    - inversion H. }
  destruct (sysRun sys (str "go") [str "mod"; str "tidy"]) as [e6|] eqn:E6.
  { exists (steps ++ [Chdir originalDir]). split; [reflexivity|]. split.
    - intros orig [= <-] _ _. eauto.
    - intros name args H. repeat split; try reflexivity.
      intros Hne. apply (Hsteps _ _ _ H) in Hne.
      apply list_elem_of_singleton in Hne. discriminate Hne. }
  destruct (executeCommand (sysRun sys) (buildCommand absOutputPath))
    as [e7|] eqn:E7.
  - exists ((steps ++ [build]) ++ [Chdir originalDir]).
    split; [reflexivity|]. split.
    + intros orig [= <-] _ _. eauto.
    + intros name args H. repeat split; reflexivity.
  - exists ((steps ++ [build]) ++ [Chdir originalDir]).
    split; [reflexivity|]. split.
    + intros orig [= <-] _ _. eauto.
    + intros name args H. repeat split; reflexivity.
Qed.

End BuildFacts.

Lemma systemCalls_elem c calls :
  c ∈ systemCalls calls <->
  c ∈ calls /\ match c with Printed _ => False | _ => True end.
Proof.
  unfold systemCalls. rewrite !list_elem_of_In, List.filter_In.
  destruct c; simpl; intuition discriminate.
Qed.

(** ** Scanning the templates *)

Section ScanFacts.
Context (sys : System) (rootPath : gostring).

Lemma walkFn_lines templates v :
  systemCalls (walkFn sys rootPath templates v).2 = [].
Proof.
  unfold walkFn. destruct (visitErr v); [reflexivity|].
  destruct (negb _ && _); [|reflexivity].
  destruct (sysRel sys rootPath (visitPath v)); [|reflexivity].
  destruct (sysReadFile sys (visitPath v)); reflexivity.
Qed.

Lemma walk_lines visits : forall templates,
  systemCalls (walk sys rootPath visits templates).2 = [].
Proof.
  induction visits as [|v rest IH]; intros templates; [reflexivity|].
  simpl. pose proof (walkFn_lines templates v) as Hv.
  destruct (walkFn sys rootPath templates v) as [[t'|err] lines];
    simpl in *; [|exact Hv].
  rewrite systemCalls_app, Hv, IH. reflexivity.
Qed.

(** What one visit does to the table. *)
Lemma walkFn_table templates v templates' :
  (walkFn sys rootPath templates v).1 = inl templates' ->
  visitErr v = None /\
  if isTemplate v
  then exists rel content,
         sysRel sys rootPath (visitPath v) = inl rel /\
         sysReadFile sys (visitPath v) = inl content /\
         templates' = <[sysToSlash sys rel := content]> templates
  else templates' = templates.
Proof.
  unfold walkFn, isTemplate. destruct (visitErr v); [discriminate|].
  destruct (negb _ && _); [|intros [= <-]; auto].
  destruct (sysRel sys rootPath (visitPath v)) as [rel|]; [|discriminate].
  destruct (sysReadFile sys (visitPath v)) as [content|]; [|discriminate].
  intros [= <-]. split; [reflexivity|]. eauto.
Qed.

Lemma walk_table visits : forall templates table,
  (walk sys rootPath visits templates).1 = inl table ->
  (forall key content,
     table !! key = Some content ->
     templates !! key = Some content \/
     exists v rel,
       v ∈ visits /\ isTemplate v = true /\
       sysRel sys rootPath (visitPath v) = inl rel /\
       key = sysToSlash sys rel /\
       sysReadFile sys (visitPath v) = inl content) /\
  (forall key, is_Some (templates !! key) -> is_Some (table !! key)) /\
  (forall v, v ∈ visits ->
     visitErr v = None /\
     (isTemplate v = true ->
      exists rel,
        sysRel sys rootPath (visitPath v) = inl rel /\
        is_Some (table !! sysToSlash sys rel))).
Proof.
  induction visits as [|v rest IH]; intros templates table H.
  - simpl in H. injection H as <-. repeat split; auto;
      intros; match goal with H : _ ∈ [] |- _ => inversion H end.
  - simpl in H.
    destruct (walkFn sys rootPath templates v) as [[t'|err] lines] eqn:Ev;
      [|discriminate H].
    simpl in H. destruct (IH _ _ H) as (Hs & Hm & Hc).
    pose proof (walkFn_table templates v t') as Hv. rewrite Ev in Hv.
    destruct (Hv eq_refl) as [Herr Hstep]. clear Hv.
    split; [|split].
    + intros key content Hk.
      destruct (Hs _ _ Hk) as [Hk'|(v' & rel & Hin & Hrest)];
        [|right; exists v', rel; split; [right; exact Hin | exact Hrest]].
      destruct (isTemplate v) eqn:Et; [|subst t'; left; exact Hk'].
      destruct Hstep as (rel & c0 & Hrel & Hread & ->).
      destruct (decide (sysToSlash sys rel = key)) as [<-|Hne].
      * rewrite lookup_insert_eq in Hk'. injection Hk' as <-.
        right. exists v, rel. split; [left|]. auto.
      * rewrite lookup_insert_ne in Hk' by exact Hne. left. exact Hk'.
    + intros key Hk. apply Hm.
      destruct (isTemplate v); [|subst t'; exact Hk].
      destruct Hstep as (rel & c0 & _ & _ & ->).
      destruct (decide (sysToSlash sys rel = key)) as [<-|Hne].
      * rewrite lookup_insert_eq. eauto.
      * rewrite lookup_insert_ne by exact Hne. exact Hk.
    + intros v' Hin. apply elem_of_cons in Hin as [->|Hin]; [|apply Hc, Hin].
      split; [exact Herr|]. intros Et. rewrite Et in Hstep.
      destruct Hstep as (rel & c0 & Hrel & _ & ->).
      exists rel. split; [exact Hrel|]. apply Hm.
      rewrite lookup_insert_eq. eauto.
Qed.

End ScanFacts.

(** X22. The table of templates a compilation embeds holds the readable
    files, not directories, whose path ends in [.html], and nothing else:
    each is filed under its slash-separated path relative to the root with
    the content read from it.  The scan succeeds only when no visit carries
    an error. *)
Theorem scan_embeds_html_files (sys : System) (rootPath : gostring)
    (visits : list visit) (table : gmap gostring gostring) :
  (walk sys rootPath visits ∅).1 = inl table ->
  (forall key content,
     table !! key = Some content ->
     exists v rel,
       v ∈ visits /\ isTemplate v = true /\
       sysRel sys rootPath (visitPath v) = inl rel /\
       key = sysToSlash sys rel /\
       sysReadFile sys (visitPath v) = inl content) /\
  (forall v, v ∈ visits ->
     visitErr v = None /\
     (isTemplate v = true ->
      exists rel,
        sysRel sys rootPath (visitPath v) = inl rel /\
        is_Some (table !! sysToSlash sys rel))).
Proof.
  intros H. destruct (walk_table sys rootPath visits ∅ table H)
    as (Hs & _ & Hc).
  split; [|exact Hc].
  intros key content Hk. destruct (Hs _ _ Hk) as [Hk'|Hv]; [|exact Hv].
  rewrite lookup_empty in Hk'. discriminate Hk'.
Qed.

Lemma scan_embeds_html_files_witness :
  exists v rel,
    v ∈ SampleBuild.visits /\ isTemplate v = true /\
    sysRel SampleBuild.sys Sample.root (visitPath v) = inl rel /\
    str "sum.html" = sysToSlash SampleBuild.sys rel /\
    sysReadFile SampleBuild.sys (visitPath v) = inl (str "<%= 2 + 3 %>").
Proof.
  apply (proj1 (scan_embeds_html_files SampleBuild.sys Sample.root
                  SampleBuild.visits SampleBuild.table
                  ltac:(vm_compute; reflexivity))
           (str "sum.html") (str "<%= 2 + 3 %>")).
  vm_compute. reflexivity.
Defined.

(** X23. Compilation removes its temporary directory on every path, as its
    last call, and when it has changed the working directory it changes
    back first.  No process is started unless both source files were
    written and the working directory changed, and the build only after
    [go mod tidy] succeeded. *)
Theorem build_cleans_up (sys : System) (templates : gmap gostring gostring)
    (routes : list Route) (outputPath dir : gostring) :
  sysTempDir sys = inl dir ->
  exists body,
    systemCalls (generateCompiledBinary sys templates routes outputPath).2 =
    TempDir :: body ++ [RemoveAll dir] /\
    (forall orig,
       sysGetwd sys = inl orig -> sysChdir sys dir = None ->
       Chdir dir ∈ body ->
       exists body', body = body' ++ [Chdir orig]) /\
    (forall name args,
       Command name args ∈ body ->
       sysGenerateMainGo sys templates routes (sysJoin sys dir (str "main.go"))
       = None /\
       sysGenerateGoMod sys (sysJoin sys dir (str "go.mod")) = None /\
       sysChdir sys dir = None /\
       (args <> [str "mod"; str "tidy"] ->
        sysRun sys (str "go") [str "mod"; str "tidy"] = None)).
Proof. apply generateCompiledBinary_calls. Qed.

Lemma build_cleans_up_witness :
  exists body,
    systemCalls
      (generateCompiledBinary SampleBuild.sys SampleBuild.table []
         (str "app")).2 =
    TempDir :: body ++ [RemoveAll (str "/tmp/webframework-compile-1")] /\
    (forall orig,
       sysGetwd SampleBuild.sys = inl orig ->
       sysChdir SampleBuild.sys (str "/tmp/webframework-compile-1") = None ->
       Chdir (str "/tmp/webframework-compile-1") ∈ body ->
       exists body', body = body' ++ [Chdir orig]) /\
    (forall name args,
       Command name args ∈ body ->
       sysGenerateMainGo SampleBuild.sys SampleBuild.table []
         (sysJoin SampleBuild.sys (str "/tmp/webframework-compile-1")
            (str "main.go")) = None /\
       sysGenerateGoMod SampleBuild.sys
         (sysJoin SampleBuild.sys (str "/tmp/webframework-compile-1")
            (str "go.mod")) = None /\
       sysChdir SampleBuild.sys (str "/tmp/webframework-compile-1") = None /\
       (args <> [str "mod"; str "tidy"] ->
        sysRun SampleBuild.sys (str "go") [str "mod"; str "tidy"] = None)).
Proof.
  apply (build_cleans_up SampleBuild.sys SampleBuild.table [] (str "app")
           (str "/tmp/webframework-compile-1")).
  reflexivity.
Defined.

(** X24. [compileTemplates] generates nothing when the scan fails, and
    goes on without routes when the route configuration cannot be loaded:
    its calls to the system are then those of [generateCompiledBinary] on
    the scanned table and no route. *)
Theorem compile_without_route_config (sys : System)
    (rootPath configFile output : gostring) (visits : list visit) :
  (forall err lines,
     walk sys rootPath visits ∅ = (inr err, lines) ->
     (compileTemplates sys rootPath configFile output visits).1 =
     Some (str "❌ Error scanning templates:" ++ err) /\
     systemCalls (compileTemplates sys rootPath configFile output visits).2
     = []) /\
  (forall table lines err,
     walk sys rootPath visits ∅ = (inl table, lines) ->
     sysLoadRouteConfig sys configFile = inr err ->
     systemCalls (compileTemplates sys rootPath configFile output visits).2 =
     systemCalls (generateCompiledBinary sys table [] output).2 /\
     (compileTemplates sys rootPath configFile output visits).1 =
     match (generateCompiledBinary sys table [] output).1 with
     | Some e => Some (str "❌ Error generating binary:" ++ e)
     | None => None
     end).
Proof.
  split.
  - intros err lines Hw. unfold compileTemplates, logged.
    pose proof (walk_lines sys rootPath visits ∅) as Hl. rewrite Hw in *.
    simpl in *. split; [reflexivity | exact Hl].
  - intros table lines err Hw Hload. unfold compileTemplates, logged.
    pose proof (walk_lines sys rootPath visits ∅) as Hl. rewrite Hw, Hload in *.
    cbn [fst snd] in *.
    destruct (generateCompiledBinary sys table [] output) as [[e|] calls];
      cbn [fst snd]; (split; [|reflexivity]);
      cbn [systemCalls List.filter]; fold (systemCalls lines);
      rewrite !systemCalls_app, Hl; cbn [systemCalls List.filter app];
      rewrite ?app_nil_r; reflexivity.
Qed.

Lemma compile_without_route_config_witness :
  systemCalls
    (compileTemplates SampleBuild.sys Sample.root (str "routes.xml")
       (str "app") SampleBuild.visits).2 =
  systemCalls
    (generateCompiledBinary SampleBuild.sys SampleBuild.table []
       (str "app")).2 /\
  (compileTemplates SampleBuild.sys Sample.root (str "routes.xml")
     (str "app") SampleBuild.visits).1 =
  match (generateCompiledBinary SampleBuild.sys SampleBuild.table []
           (str "app")).1 with
  | Some e => Some (str "❌ Error generating binary:" ++ e)
  | None => None
  end.
Proof.
  apply (proj2 (compile_without_route_config SampleBuild.sys Sample.root
                  (str "routes.xml") (str "app") SampleBuild.visits)
           SampleBuild.table
           [Printed (str "✅ Added template: footer.html");
            Printed (str "✅ Added template: sum.html")]
           (str "open routes.xml: no such file or directory")).
  - vm_compute. reflexivity.
  - reflexivity.
Defined.


(** ** Request parameters in the output *)

Section Verbatim.

(** A document whose only [<] opens a tag the pattern does not match is
    free of matches. *)
Lemma single_tag_no_match re (pre rest : gostring) :
  opensTag re ->
  "<"%char ∉ pre -> "<"%char ∉ rest ->
  Regexp.matchHere re ("<"%char :: rest) = None ->
  Regexp.MatchString re (pre ++ "<"%char :: rest) = false.
Proof.
  intros Hre Hpre Hrest Hm. apply MatchString_false. intros k.
  destruct (drop k (pre ++ "<"%char :: rest)) as [|x s] eqn:E;
    [apply opensTag_nil; exact Hre|].
  destruct (decide (x = "<"%char)) as [->|Hx];
    [|apply opensTag_head; assumption].
  assert (Hk : k = length pre).
  { destruct (Nat.lt_trichotomy k (length pre)) as [Hlt|[Heq|Hgt]];
      [exfalso | exact Heq | exfalso].
    - rewrite drop_app_le in E by lia.
      destruct (drop k pre) as [|y t] eqn:Ed.
      + apply (f_equal length) in Ed. rewrite length_drop in Ed.
        simpl in Ed. lia.
      + injection E as -> _. apply Hpre.
        apply (subseteq_drop k pre). rewrite Ed. left.
    - rewrite drop_app_ge in E by lia.
      destruct (k - length pre) as [|j] eqn:Ej; [lia|]. simpl in E.
      apply Hrest. apply (subseteq_drop j rest). rewrite E. left. }
  subst k. rewrite drop_app_length in E. injection E as <-. exact Hm.
Qed.

Lemma prefixed_name_wellFormed (prefix name : gostring) a :
  plain a = true -> "%"%char ∉ a :: prefix -> "="%char ∉ a :: prefix ->
  wellFormedName name ->
  wellFormedName ((a :: prefix) ++ name).
Proof.
  intros Ha Hp He (Ht & Hnp & Hne). repeat split.
  - unfold tidy in *. destruct name as [|n0 name']; [discriminate|].
    cbn [head app]. simpl head in Ht.
    destruct (last (n0 :: name')) as [b|] eqn:El; [|discriminate].
    apply andb_true_iff in Ht as [_ Hb].
    change (a :: prefix ++ n0 :: name') with ((a :: prefix) ++ n0 :: name').
    rewrite last_app, El. rewrite Ha, Hb. reflexivity.
  - intros H. apply elem_of_app in H as [H|H]; contradiction.
  - intros H. apply elem_of_app in H as [H|H]; contradiction.
Qed.

(** The render of a document that is plain text around one output tag. *)
Lemma single_output_tag fs rootPath c depth (pre name post : gostring) d :
  "<"%char ∉ pre -> "<"%char ∉ name -> "<"%char ∉ post ->
  wellFormedName name ->
  TemplateProcessor.processTemplate fs rootPath c (S depth)
    (pre ++ outputTag name ++ post) d =
  Done ((pre ++ TemplateProcessor.evaluate c d name ++ post, None), d).
Proof.
  intros Hpre Hname Hpost Hwf.
  assert (Htag : outputTag name ++ post =
                 "<"%char :: str "%= " ++ name ++ str " %>" ++ post).
  { unfold outputTag. simpl. rewrite <- !app_assoc. reflexivity. }
  assert (Hrest : "<"%char ∉ str "%= " ++ name ++ str " %>" ++ post).
  { intros H. repeat (apply elem_of_cons in H as [H|H]; [discriminate H|]).
    apply elem_of_app in H as [H|H]; [contradiction|].
    repeat (apply elem_of_cons in H as [H|H]; [discriminate H|]).
    contradiction. }
  unfold TemplateProcessor.processTemplate.
  cbn [TemplateProcessor.processIncludes].
  erewrite bind_Done.
  2:{ apply ReplaceAllStringFunc_no_match. rewrite Htag.
      apply single_tag_no_match; auto with patterns. }
  unfold TemplateProcessor.processCodeExpressions.
  erewrite bind_Done.
  2:{ apply ReplaceAllStringFunc_no_match. rewrite Htag.
      apply single_tag_no_match; auto with patterns. }
  unfold TemplateProcessor.processOutputTags, ReplaceAllStringFunc.
  assert (Hseg : Regexp.segments outputRegex (pre ++ outputTag name ++ post) =
                 map Regexp.Text pre ++
                 Regexp.Hit (outputTag name) :: map Regexp.Text post).
  { rewrite segments_text_run.
    - f_equal. rewrite output_hit_tag by exact Hwf. f_equal.
      apply segments_no_match. apply MatchString_false. intros k.
      destruct (drop k post) as [|x s] eqn:E;
        [apply opensTag_nil; auto with patterns|].
      apply opensTag_head; [auto with patterns|].
      intros ->. apply Hpost. apply (subseteq_drop k post). rewrite E. left.
    - intros k Hk. destruct (drop k pre) as [|x s] eqn:E.
      + apply (f_equal length) in E. rewrite length_drop in E. simpl in E. lia.
      + simpl. apply opensTag_head; [auto with patterns|].
        intros ->. apply Hpre. apply (subseteq_drop k pre). rewrite E. left. }
  rewrite Hseg. unfold bind at 1. rewrite replace_at_directive.
  unfold bind at 1. rewrite outputRepl_tag by exact Hwf.
  unfold bind at 1. rewrite replaceSegments_text. reflexivity.
Qed.

End Verbatim.

(** X25. Request parameters are written into the page as they came, with
    no escaping: in a page that is plain text around one output tag
    [<%= query.name %>] or [<%= form.name %>], with no variable of that
    name in scope, the tag is replaced by exactly the bytes of the query
    or form parameter. *)
Theorem request_parameters_rendered_verbatim (fs : FileSystem)
    (rootPath : gostring) (c : Context) (depth : nat)
    (pre name post : gostring) (d : gmap gostring value) :
  "<"%char ∉ pre -> "<"%char ∉ name -> "<"%char ∉ post ->
  wellFormedName name ->
  (d !! (str "query." ++ name) = None ->
   TemplateProcessor.processTemplate fs rootPath c (S depth)
     (pre ++ outputTag (str "query." ++ name) ++ post) d =
   Done ((pre ++ QueryParam c name ++ post, None), d)) /\
  (d !! (str "form." ++ name) = None ->
   TemplateProcessor.processTemplate fs rootPath c (S depth)
     (pre ++ outputTag (str "form." ++ name) ++ post) d =
   Done ((pre ++ FormValue c name ++ post, None), d)).
Proof.
  intros Hpre Hname Hpost Hwf. split; intros Hd.
  - rewrite single_output_tag; try assumption.
    + unfold TemplateProcessor.evaluate. rewrite Hd.
      change (Strings.HasPrefix (str "query." ++ name) (str "request."))
        with false.
      cbv iota. rewrite HasPrefix_app. unfold Strings.TrimPrefix.
      rewrite HasPrefix_app, drop_app_length. reflexivity.
    + intros H. apply elem_of_app in H as [H|H]; [|contradiction].
      apply list_elem_of_In in H. simpl in H. intuition discriminate.
    + apply (prefixed_name_wellFormed (str "uery.") name "q");
        [reflexivity | | | exact Hwf];
        rewrite list_elem_of_In; simpl; intuition discriminate.
  - rewrite single_output_tag; try assumption.
    + unfold TemplateProcessor.evaluate. rewrite Hd.
      change (Strings.HasPrefix (str "form." ++ name) (str "request."))
        with false.
      change (Strings.HasPrefix (str "form." ++ name) (str "query."))
        with false.
      cbv iota. rewrite HasPrefix_app. unfold Strings.TrimPrefix.
      rewrite HasPrefix_app, drop_app_length. reflexivity.
    + intros H. apply elem_of_app in H as [H|H]; [|contradiction].
      apply list_elem_of_In in H. simpl in H. intuition discriminate.
    + apply (prefixed_name_wellFormed (str "orm.") name "f");
        [reflexivity | | | exact Hwf];
        rewrite list_elem_of_In; simpl; intuition discriminate.
Qed.

Lemma request_parameters_rendered_verbatim_witness :
  TemplateProcessor.processTemplate Sample.fs Sample.root Sample.ctx 1
    (str "Language: " ++ outputTag (str "query." ++ str "lang") ++
     str ".") initialData =
  Done ((str "Language: " ++ QueryParam Sample.ctx (str "lang") ++ str ".",
         None), initialData).
Proof.
  apply (proj1 (request_parameters_rendered_verbatim Sample.fs Sample.root
                  Sample.ctx 0 (str "Language: ") (str "lang") (str ".")
                  initialData
                  ltac:(rewrite list_elem_of_In; vm_compute;
                        intuition discriminate)
                  ltac:(rewrite list_elem_of_In; vm_compute;
                        intuition discriminate)
                  ltac:(rewrite list_elem_of_In; vm_compute;
                        intuition discriminate)
                  ltac:(split;
                        [reflexivity
                        |split; rewrite list_elem_of_In; vm_compute;
                         intuition discriminate]))).
  vm_compute. reflexivity.
Defined.

(** ** Static pages *)

Lemma no_tag_no_match re (content : gostring) :
  opensTag re ->
  Strings.Contains content (str "<%") = false ->
  Regexp.MatchString re content = false.
Proof.
  intros Hre. induction content as [|x s IH]; intros Hc.
  - apply MatchString_false. intros k. rewrite drop_nil.
    apply opensTag_nil. exact Hre.
  - apply Contains_cons_false in Hc as [Hp Hc].
    specialize (IH Hc). apply MatchString_false. intros k.
    destruct k as [|k].
    + simpl. destruct (decide (x = "<"%char)) as [->|Hx];
        [|apply opensTag_head; assumption].
      destruct s as [|y s]; [apply opensTag_single; exact Hre|].
      apply opensTag_second; [exact Hre|].
      intros ->. discriminate Hp.
    + simpl. unfold Regexp.MatchString in IH.
      destruct (Regexp.find re s 0) eqn:E; [discriminate|].
      apply (find_None re _ _ E).
Qed.

(** X26. A file that exists, can be read and nowhere holds the two bytes
    [<%] is served as it is: the answer is 200 with the content of the
    file, byte for byte. *)
Theorem static_page_served_verbatim (fs : FileSystem) (rootPath : gostring)
    (c : Context) (depth : nat) (filename content : gostring) :
  NotExist fs (Join fs rootPath filename) = false ->
  ReadFile fs (Join fs rootPath filename) = inl content ->
  Strings.Contains content (str "<%") = false ->
  processTemplate fs rootPath c (S depth) filename =
  Done (HTMLResponse 200 content).
Proof.
  intros Hn Hr Hc. unfold processTemplate. rewrite Hn, Hr.
  assert (Hi := no_tag_no_match includeRegex content
                  ltac:(auto with patterns) Hc).
  assert (Hk := no_tag_no_match codeRegex content
                  ltac:(auto with patterns) Hc).
  assert (Ho := no_tag_no_match outputRegex content
                  ltac:(auto with patterns) Hc).
  unchanged_by_passes Hi Hk Ho. reflexivity.
Qed.

Lemma static_page_served_verbatim_witness :
  processTemplate Sample.fs Sample.root Sample.ctx 1 (str "footer.html") =
  Done (HTMLResponse 200 (str "<hr>")).
Proof.
  apply (static_page_served_verbatim Sample.fs Sample.root Sample.ctx 0
           (str "footer.html") (str "<hr>"));
    reflexivity.
Defined.
